(** * Day-assembly engine of the Nevado del Ruiz waveform converters

    A shallow embedding of the two converters that turn two-minute MiniSEED
    files into an SDS day-file archive:

    - [02_mseed2sds.py] (module [Legacy]): [fix_seedid], [append_and_merge],
      [write_day_to_SDS] and the loop over the input tree;
    - [suds_conversion/20_twominutemseed2suds.py] (module [Sds]):
      [fix_seedid], [split_trace_at_midnights], [round_sampling_rates],
      [fix_masked_arrays], [sds_dir_for], [sds_path_for] and [process].

    Both scripts drive ObsPy objects.  A trace is a record of the header
    fields the scripts read or assign together with its sample array.  The
    ObsPy methods the scripts call ([Stream.select], [Stream.remove],
    [Trace.trim], [Stream.trim], [Stream.merge], [Stream.sort]) are not
    part of the repository; they are written out below as functions on that
    record, with the arguments the scripts pass, following ObsPy's
    documentation of them.

    Times are seconds since the epoch and sampling rates are samples per
    second, both exact rationals.  A sampling rate stands for the binary64
    number the header holds, and the tolerance of [round_sampling_rates] is
    the binary64 number its literal denotes, so that the comparison is the
    one the script makes.  Elsewhere the rounding of binary64 arithmetic
    and the nanosecond resolution of [UTCDateTime] are not modelled:
    [Trace.trim] rounds the binary64 product of offset and sampling rate to
    the nearest sample where the model rounds the exact product, and the
    two can pick different samples when midnight is half-way between two
    samples.  The properties of the day splitter that depend on which
    sample is picked assume that it is not.  Sample values are integers.

    The file has three parts: the programs, the notions used to state their
    properties, and the properties. *)

From Stdlib Require Import List String Ascii Bool Arith ZArith.
From Stdlib Require Import QArith Qround Qabs Lia Lqa Permutation.
From Stdlib Require Import NArith DecimalString DecimalN.
Import ListNotations.

Local Open Scope string_scope.

(** * The programs *)

(** ** Exceptions *)

(** The Python exceptions the modelled code can raise. *)
Inductive Exn : Type :=
| IndexError        (* string or list index out of range *)
| ValueError        (* list.remove(x): x not in list; trim: start after end *)
| OSError           (* Path.mkdir failed *)
| MergeException.   (* Stream.merge: same id, differing sampling rates *)

Inductive Result (A : Type) : Type :=
| Ok (a : A)
| Raise (e : Exn).
Arguments Ok {A} a.
Arguments Raise {A} e.

Definition bind {A B : Type} (r : Result A) (k : A -> Result B) : Result B :=
  match r with
  | Ok a => k a
  | Raise e => Raise e
  end.

Notation "x <- r ;; k" := (bind r (fun x => k))
  (at level 61, r at next level, right associativity).

Definition of_option {A : Type} (e : Exn) (o : option A) : Result A :=
  match o with
  | Some a => Ok a
  | None => Raise e
  end.

(** ** Python string operations used by the scripts *)

(** [s[-1]]: the last character; [None] is Python's IndexError on [""]. *)
Fixpoint last_char (s : string) : option ascii :=
  match s with
  | EmptyString => None
  | String c s' =>
      match s' with
      | EmptyString => Some c
      | String _ _ => last_char s'
      end
  end.

(** [s[:3]] and [s[0:3]]: slicing never raises. *)
Definition root_of (s : string) : string := substring 0 3 s.

(** [c in chars] for a one-character string [c]. *)
Fixpoint char_in (c : ascii) (chars : string) : bool :=
  match chars with
  | EmptyString => false
  | String d rest => Ascii.eqb c d || char_in c rest
  end.

(** [s[-1:] in chars]: the slice is the last character, or [""] when [s] is
    empty, and the empty string is a substring of every string. *)
Definition last_slice_in (s chars : string) : bool :=
  match last_char s with
  | None => true
  | Some c => char_in c chars
  end.

Definition str1 (c : ascii) : string := String c EmptyString.

(** [str.upper()] on ASCII text. *)
Definition upper_ascii (c : ascii) : ascii :=
  let n := nat_of_ascii c in
  if (97 <=? n)%nat && (n <=? 122)%nat then ascii_of_nat (n - 32) else c.

Fixpoint upper (s : string) : string :=
  match s with
  | EmptyString => EmptyString
  | String c s' => String (upper_ascii c) (upper s')
  end.

(** Python's whitespace test on the ASCII range, as [str.strip()] uses it. *)
Definition is_space (c : ascii) : bool :=
  let n := nat_of_ascii c in
  ((9 <=? n)%nat && (n <=? 13)%nat) || ((28 <=? n)%nat && (n <=? 32)%nat).

Fixpoint lstrip (s : string) : string :=
  match s with
  | EmptyString => EmptyString
  | String c s' => if is_space c then lstrip s' else s
  end.

Fixpoint rstrip (s : string) : string :=
  match s with
  | EmptyString => EmptyString
  | String c s' =>
      match rstrip s' with
      | EmptyString => if is_space c then EmptyString else str1 c
      | r => String c r
      end
  end.

Definition strip (s : string) : string := rstrip (lstrip s).

(** [fnmatch.fnmatch(name, pattern)] for patterns made of literal
    characters, [?] and [*]; bracket expressions do not occur in the
    patterns the scripts build from SEED station codes and are matched
    literally here. *)
Fixpoint fnmatch_from (pat : string) : string -> bool :=
  match pat with
  | EmptyString => fun name => match name with EmptyString => true | _ => false end
  | String p pat' =>
      if Ascii.eqb p "*"%char then
        fix star (name : string) : bool :=
          fnmatch_from pat' name ||
          match name with
          | EmptyString => false
          | String _ name' => star name'
          end
      else if Ascii.eqb p "?"%char then
        fun name => match name with
                    | EmptyString => false
                    | String _ name' => fnmatch_from pat' name'
                    end
      else
        fun name => match name with
                    | EmptyString => false
                    | String c name' => Ascii.eqb c p && fnmatch_from pat' name'
                    end
  end.

Definition fnmatch (name pat : string) : bool := fnmatch_from pat name.

(** [f"{z:0wd}"] for a width [w]: the decimal digits of [z], padded with
    zeros after the sign to [w] characters. *)
Fixpoint zeros (n : nat) : string :=
  match n with
  | O => ""
  | S n' => String "0" (zeros n')
  end.

Definition zero_pad (width : nat) (digits : string) : string :=
  zeros (width - String.length digits) ++ digits.

Definition format_d (width : nat) (z : Z) : string :=
  let digits := NilEmpty.string_of_uint (N.to_uint (Z.abs_N z)) in
  if (z <? 0)%Z then "-" ++ zero_pad (width - 1) digits
  else zero_pad width digits.

(** ** Traces *)

(** A sample of [tr.data]: a number, the float NaN, or a masked entry of a
    NumPy masked array (no data). *)
Inductive sample : Type :=
| Val (v : Z)
| NaN
| Masked.

(** The header fields of [tr.stats] the scripts use, and [tr.data].
    [endtime] and [npts] are derived, as in ObsPy. *)
Record Trace : Type := mkTrace {
  network : string;
  station : string;
  location : string;
  channel : string;
  starttime : Q;
  sampling_rate : Q;
  data : list sample
}.

Definition Stream : Type := list Trace.

Definition set_network (tr : Trace) (v : string) : Trace :=
  mkTrace v (station tr) (location tr) (channel tr)
          (starttime tr) (sampling_rate tr) (data tr).
Definition set_station (tr : Trace) (v : string) : Trace :=
  mkTrace (network tr) v (location tr) (channel tr)
          (starttime tr) (sampling_rate tr) (data tr).
Definition set_location (tr : Trace) (v : string) : Trace :=
  mkTrace (network tr) (station tr) v (channel tr)
          (starttime tr) (sampling_rate tr) (data tr).
Definition set_channel (tr : Trace) (v : string) : Trace :=
  mkTrace (network tr) (station tr) (location tr) v
          (starttime tr) (sampling_rate tr) (data tr).
Definition set_starttime (tr : Trace) (v : Q) : Trace :=
  mkTrace (network tr) (station tr) (location tr) (channel tr)
          v (sampling_rate tr) (data tr).
Definition set_sampling_rate (tr : Trace) (v : Q) : Trace :=
  mkTrace (network tr) (station tr) (location tr) (channel tr)
          (starttime tr) v (data tr).
Definition set_data (tr : Trace) (v : list sample) : Trace :=
  mkTrace (network tr) (station tr) (location tr) (channel tr)
          (starttime tr) (sampling_rate tr) v.

(** The canonical identity a normalizer assigns. *)
Definition identity (tr : Trace) : string * string * string :=
  (network tr, station tr, channel tr).

Definition sample_eqb (x y : sample) : bool :=
  match x, y with
  | Val a, Val b => Z.eqb a b
  | Masked, Masked => true
  | _, _ => false
  end.

Fixpoint data_eqb (xs ys : list sample) : bool :=
  match xs, ys with
  | [], [] => true
  | x :: xs', y :: ys' => sample_eqb x y && data_eqb xs' ys'
  | _, _ => false
  end.

(** [Trace.__eq__]: equal headers and equal data. *)
Definition trace_eqb (a b : Trace) : bool :=
  String.eqb (network a) (network b) && String.eqb (station a) (station b) &&
  String.eqb (location a) (location b) && String.eqb (channel a) (channel b) &&
  Qeq_bool (starttime a) (starttime b) &&
  Qeq_bool (sampling_rate a) (sampling_rate b) &&
  data_eqb (data a) (data b).

(** [cha[2] in "ZNE"], evaluated only where [cha] has a third character. *)
Definition third_in_ZNE (cha : string) : bool :=
  match String.get 2 cha with
  | Some c => char_in c "ZNE"
  | None => false
  end.

(** A well-formed orientation code: three characters, the third one of
    Z, N, E. *)
Definition well_formed_channel (cha : string) : bool :=
  (String.length cha =? 3)%nat && third_in_ZNE cha.

(** ** Time and sample arithmetic *)

Local Open Scope Q_scope.

Definition Qltb (x y : Q) : bool := negb (Qle_bool y x).

(** [obspy.core.compatibility.round_away]: nearest integer, halves away
    from zero. *)
Definition round_away (x : Q) : Z :=
  if Qle_bool 0 x then Qfloor (x + (1 # 2)) else Qceiling (x - (1 # 2)).

(** Python's [round(x)] on a float: nearest integer, halves to even. *)
Definition py_round (x : Q) : Z :=
  let f := Qfloor x in
  let r := x - inject_Z f in
  if Qltb r (1 # 2) then f
  else if Qltb (1 # 2) r then (f + 1)%Z
  else if Z.even f then f else (f + 1)%Z.

(** The binary64 number that the float literal [1e-6] denotes,
    0x1.0c6f7a0b5ed8dp-20; it is a little less than one millionth. *)
Definition binary64_1e_6 : Q := 4722366482869645 # 4722366482869645213696.

Definition npts (tr : Trace) : Z := Z.of_nat (List.length (data tr)).

(** [tr.stats.endtime], which ObsPy derives from start time, sampling rate
    and number of samples. *)
Definition endtime (tr : Trace) : Q :=
  if (npts tr =? 0)%Z then starttime tr
  else starttime tr + inject_Z (npts tr - 1) / sampling_rate tr.

(** [UTCDateTime(t.year, t.month, t.day)]: the midnight that starts the UTC
    day of [t]. *)
Definition day_number (t : Q) : Z := Qfloor (t / 86400).
Definition day_start_of (t : Q) : Q := inject_Z (day_number t) * 86400.

(** [t.year] and [t.julday] from the day number (proleptic Gregorian
    calendar, days counted from 1970-01-01). *)
Definition days_from_civil_jan1 (y : Z) : Z :=
  let y' := (y - 1)%Z in
  (365 * y' + y' / 4 - y' / 100 + y' / 400 - 719162)%Z.

Definition year_of_day (d : Z) : Z :=
  let z := (d + 719468)%Z in
  let era := (z / 146097)%Z in
  let doe := (z - era * 146097)%Z in
  let yoe := ((doe - doe / 1460 + doe / 36524 - doe / 146096) / 365)%Z in
  let doy := (doe - (365 * yoe + yoe / 4 - yoe / 100))%Z in
  let mp := ((5 * doy + 2) / 153)%Z in
  let m := (if mp <? 10 then mp + 3 else mp - 9)%Z in
  (yoe + era * 400 + (if m <=? 2 then 1 else 0))%Z.

Definition year (t : Q) : Z := year_of_day (day_number t).
Definition julday (t : Q) : Z :=
  (day_number t - days_from_civil_jan1 (year t) + 1)%Z.

(** [t.day], the day of the month, from the day number. *)
Definition day_of_month (d : Z) : Z :=
  let z := (d + 719468)%Z in
  let era := (z / 146097)%Z in
  let doe := (z - era * 146097)%Z in
  let yoe := ((doe - doe / 1460 + doe / 36524 - doe / 146096) / 365)%Z in
  let doy := (doe - (365 * yoe + yoe / 4 - yoe / 100))%Z in
  let mp := ((5 * doy + 2) / 153)%Z in
  (doy - (153 * mp + 2) / 5 + 1)%Z.

Definition day (t : Q) : Z := day_of_month (day_number t).

(** ** ObsPy's [Trace.trim], as the scripts call it

    [pad=False] and [nearest_sample=True] (the default): a boundary time
    selects the sample nearest to it.  The index of that sample is
    [round_away] of the offset of the boundary times the sampling rate;
    ObsPy rounds the binary64 product, the functions below the exact one.
    They pick the same sample unless the boundary is half-way between two
    samples, where the binary64 product can fall on either side of the
    half. *)

(** [Trace._ltrim(starttime)] *)
Definition ltrim (tr : Trace) (t : Q) : Trace :=
  let delta := round_away ((t - starttime tr) * sampling_rate tr) in
  if (delta <=? 0)%Z then tr
  else
    let tr' := set_starttime tr
                 (starttime tr + inject_Z delta * (1 / sampling_rate tr)) in
    if Qltb (endtime tr') t then set_data tr' []
    else set_data tr' (skipn (Z.to_nat delta) (data tr)).

(** [Trace._rtrim(endtime)] *)
Definition rtrim (tr : Trace) (t : Q) : Trace :=
  let delta :=
    (round_away ((t - starttime tr) * sampling_rate tr) - npts tr + 1)%Z in
  if (0 <=? delta)%Z then tr
  else if Qltb t (starttime tr) then
    set_data
      (set_starttime tr (endtime tr + inject_Z delta * (1 / sampling_rate tr)))
      []
  else
    let total := (npts tr - Z.abs delta)%Z in
    let total := if Qeq_bool t (starttime tr) then 1%Z else total in
    set_data tr (firstn (Z.to_nat total) (data tr)).

(** [tr.trim(starttime=t1, endtime=t2, pad=False)] *)
Definition trim (tr : Trace) (t1 t2 : Q) : Result Trace :=
  if Qltb t2 t1 then Raise ValueError
  else Ok (rtrim (ltrim tr t1) t2).

(** ** ObsPy's [Stream.merge], as the scripts call it

    The sanity checks, the sort, and [Trace.__add__] on the traces of one
    id from left to right, as ObsPy documents them.  [Stream._cleanup],
    which [merge] runs before the checks, is left out: on positive
    sampling rates it changes nothing that [__add__] would not do for a
    channel with at most two traces on one sample grid, which is what the
    properties of the merge below are about.  It does matter for three
    and more traces of a channel, for traces off each other's grid, for a
    sampling rate of zero, and for what is left of the stream when [merge]
    raises: the model says nothing reliable there. *)

(** [tr.id] *)
Definition trace_id (tr : Trace) : string :=
  (network tr ++ "." ++ station tr ++ "." ++ location tr ++ "."
   ++ channel tr)%string.

(** The [method] argument: 0 or 1. *)
Inductive merge_method : Type := Method0 | Method1.

(** [create_empty_data_chunk(n, dtype, fill_value)]: [n] masked entries when
    [fill_value] is [None], [n] copies of the value otherwise. *)
Definition empty_chunk (n : nat) (fill_value : option Z) : list sample :=
  repeat (match fill_value with None => Masked | Some v => Val v end) n.

(** [np.all(np.equal(xs, ys))] on the overlapping samples: masked pairs are
    left out of the test, which fails when every pair is masked. *)
Definition pair_masked (xy : sample * sample) : bool :=
  match xy with
  | (Masked, _) | (_, Masked) => true
  | _ => false
  end.

Definition pair_equal (xy : sample * sample) : bool :=
  match xy with
  | (Val a, Val b) => Z.eqb a b
  | _ => false
  end.

Definition overlap_equal (xs ys : list sample) : bool :=
  (List.length xs =? List.length ys)%nat &&
  forallb (fun xy => pair_masked xy || pair_equal xy) (combine xs ys) &&
  existsb (fun xy => negb (pair_masked xy)) (combine xs ys).

(** [np.all(np.ma.masked_array(xs == ys).filled())] for a contained trace:
    masked pairs count as equal. *)
Definition contained_equal (xs ys : list sample) : bool :=
  (List.length xs =? List.length ys)%nat &&
  forallb (fun xy => pair_masked xy || pair_equal xy) (combine xs ys).

(** The samples kept for a contained trace with equal data: those of the
    longer trace, its masked entries filled from the contained one. *)
Definition fill_from (xy : sample * sample) : sample :=
  match xy with
  | (Masked, y) => y
  | (x, _) => x
  end.

(** [self.__add__(trace, method, fill_value=fill_value,
    interpolation_samples=0, sanity_checks=False)].  In the words of the
    documentation, [method=0] discards overlapping data (overlaps are
    treated as gaps) and [method=1] discards the data of the previous trace,
    assuming that the following trace holds data with a more correct time
    value; a gap is masked unless a fill value is given. *)
Definition add (method : merge_method) (fill_value : option Z)
           (self trace : Trace) : Trace :=
  let (lt, rt) := if Qle_bool (starttime self) (starttime trace)
                  then (self, trace) else (trace, self) in
  let sr := sampling_rate self in
  let delta := (round_away ((starttime rt - endtime lt) * sr) - 1)%Z in
  let ends_first := Qltb (endtime lt) (endtime rt) in
  let n := List.length (data lt) in
  let new_data :=
    if (delta <? 0)%Z && ends_first then
      (* overlap *)
      let d := Z.to_nat (Z.abs delta) in
      if overlap_equal (skipn (n - d)%nat (data lt)) (firstn d (data rt)) then
        (firstn (n - d)%nat (data lt) ++ data rt)%list
      else
        match method with
        | Method0 =>
            (firstn (n - d)%nat (data lt) ++ empty_chunk d fill_value
               ++ skipn d (data rt))%list
        | Method1 =>
            match data rt with
            | [] => data lt
            | _ :: _ => (firstn (n - d)%nat (data lt) ++ data rt)%list
            end
        end
    else if (delta <? 0)%Z then
      (* contained trace *)
      let d := Z.to_nat (Z.abs delta) in
      let lenrt := List.length (data rt) in
      let t1 := (n - d)%nat in
      let t2 := (t1 + lenrt)%nat in
      let inner := firstn lenrt (skipn t1 (data lt)) in
      if contained_equal inner (data rt) then
        (firstn t1 (data lt) ++ map fill_from (combine inner (data rt))
           ++ skipn t2 (data lt))%list
      else
        match method with
        | Method0 =>
            (firstn t1 (data lt) ++ empty_chunk lenrt fill_value
               ++ skipn t2 (data lt))%list
        | Method1 => data lt
        end
    else if (delta =? 0)%Z then
      (* exact fit *)
      (data lt ++ data rt)%list
    else
      (* gap *)
      (data lt ++ empty_chunk (Z.to_nat delta) fill_value ++ data rt)%list in
  set_data lt new_data.

(** [Stream._merge_checks]: traces with the same id must have the same
    sampling rate; empty traces are skipped.  [seen] is the rate recorded
    for each id so far.  (The checks of dtype and calibration factor have
    no counterpart in [Trace].) *)
Fixpoint lookup_rate (id : string) (seen : list (string * Q)) : option Q :=
  match seen with
  | [] => None
  | (k, v) :: rest => if String.eqb k id then Some v else lookup_rate id rest
  end.

Fixpoint merge_checks (seen : list (string * Q)) (st : Stream) : Result unit :=
  match st with
  | [] => Ok tt
  | tr :: rest =>
      if (npts tr =? 0)%Z then merge_checks seen rest
      else
        match lookup_rate (trace_id tr) seen with
        | None => merge_checks ((trace_id tr, sampling_rate tr) :: seen) rest
        | Some sr =>
            if Qeq_bool (sampling_rate tr) sr then merge_checks seen rest
            else Raise MergeException
        end
  end.

(** A stable sort, as [list.sort]. *)
Section Sorting.
Context {A : Type} (leb : A -> A -> bool).

Fixpoint insert_sorted (x : A) (l : list A) : list A :=
  match l with
  | [] => [x]
  | y :: l' => if leb x y then x :: l else y :: insert_sorted x l'
  end.

Definition stable_sort (l : list A) : list A :=
  fold_right insert_sorted [] l.
End Sorting.

Definition string_leb_then (a b : string) (next : bool) : bool :=
  match String.compare a b with
  | Lt => true
  | Eq => next
  | Gt => false
  end.

Definition Q_leb_then (a b : Q) (next : bool) : bool :=
  if Qltb a b then true else if Qeq_bool a b then next else false.

(** The order of [st.sort(keys=[network, station, location, channel,
    starttime, endtime])]. *)
Definition merge_order (a b : Trace) : bool :=
  string_leb_then (network a) (network b)
    (string_leb_then (station a) (station b)
       (string_leb_then (location a) (location b)
          (string_leb_then (channel a) (channel b)
             (Q_leb_then (starttime a) (starttime b)
                (Q_leb_then (endtime a) (endtime b) true))))).

(** [traces_dict.setdefault(trace.id, []).append(trace)]; a trace carries
    its position in the stream before the merge. *)
Fixpoint group_add (x : nat * Trace) (groups : list (string * list (nat * Trace)))
  : list (string * list (nat * Trace)) :=
  match groups with
  | [] => [(trace_id (snd x), [x])]
  | (k, g) :: rest =>
      if String.eqb k (trace_id (snd x)) then (k, (g ++ [x])%list) :: rest
      else (k, g) :: group_add x rest
  end.

Definition group_by_id (l : list (nat * Trace))
  : list (string * list (nat * Trace)) :=
  fold_left (fun groups x =>
               if (npts (snd x) =? 0)%Z then groups else group_add x groups)
            l [].

(** The traces of one id merged from left to right.  A trace that came out
    of [add] is a new object, which the final reordering places first
    (key [-1]); a trace left alone keeps its position. *)
Definition merge_group (method : merge_method) (fill_value : option Z)
           (g : list (nat * Trace)) : list (Z * Trace) :=
  match g with
  | [] => []
  | [(i, tr)] => [(Z.of_nat i, tr)]
  | (_, tr) :: more =>
      [((-1)%Z, fold_left (fun cur x => add method fill_value cur (snd x))
                          more tr)]
  end.

(** [st.merge(method=method, fill_value=fill_value)] *)
Definition merge (method : merge_method) (fill_value : option Z) (st : Stream)
  : Result Stream :=
  _ <- merge_checks [] st ;;
  let tagged := combine (seq 0 (List.length st)) st in
  let sorted :=
    stable_sort (fun a b => merge_order (snd a) (snd b)) tagged in
  let merged :=
    flat_map (fun kg => merge_group method fill_value (snd kg))
             (group_by_id sorted) in
  Ok (map snd (stable_sort (fun a b => (fst a <=? fst b)%Z) merged)).

Local Close Scope Q_scope.

(** ** suds_conversion/20_twominutemseed2suds.py *)

Module Sds.

(** *** [fix_seedid] *)

(** [sum(s.startswith(root3) for s in stations) > 1] *)
Definition multi_for_root (root3 : string) (stations : list string) : bool :=
  (1 <? List.length (filter (String.prefix root3) stations))%nat.

(** The body of the [for tr in st] loop of [fix_seedid] for a trace that is
    not IRIG, on the copy of the trace. *)
Definition fix_trace (net : string) (stations : list string) (tr0 : Trace)
  : Result Trace :=
  let tr := set_network tr0 net in
  let root3 := root_of (station tr) in
  let multi := multi_for_root root3 stations in
  tr1 <- (if last_slice_in (station tr) "ZNE" && multi then
            c <- of_option IndexError (last_char (station tr)) ;;
            Ok (set_station (set_channel tr ("EH" ++ str1 c)) root3)
          else
            if negb (String.length (channel tr) =? 3)%nat
               || negb (third_in_ZNE (channel tr))
            then Ok (set_channel tr "EHZ")
            else Ok tr) ;;
  tr2 <- (if (String.length (station tr1) =? 4)%nat then
            c <- of_option IndexError (last_char (station tr1)) ;;
            if Ascii.eqb c "L"%char && multi then
              o <- of_option IndexError (String.get 2 (channel tr1)) ;;
              Ok (set_station (set_channel tr1 ("EL" ++ str1 o)) root3)
            else if Ascii.eqb c "H"%char && multi then
              Ok (set_station tr1 root3)
            else Ok tr1
          else Ok tr1) ;;
  Ok (set_location tr2 (strip (location tr2))).

Fixpoint fix_loop (net : string) (stations : list string) (st : Stream)
  : Result Stream :=
  match st with
  | [] => Ok []
  | tr :: rest =>
      if String.eqb (station tr) "IRIG" then fix_loop net stations rest
      else
        tr' <- fix_trace net stations tr ;;
        out <- fix_loop net stations rest ;;
        Ok (tr' :: out)
  end.

Definition fix_seedid (st : Stream) (net : string) : Result Stream :=
  fix_loop net (map station st) st.

Local Open Scope Q_scope.

(** *** [split_trace_at_midnights] and [round_sampling_rates] *)

(** One pass of the [while True] loop of [split_trace_at_midnights]:
    either the loop breaks with [cur] as the last part, or it appends
    the piece [left] and goes on with the remainder. *)
Inductive step_result : Type :=
| Break (last : Trace)
| Continue (left_part cur' : Trace).

Definition split_step (cur : Trace) : Result step_result :=
  let st := starttime cur in
  let et := endtime cur in
  let day_start := day_start_of st in
  let day_end := day_start + 86400 in
  if Qle_bool et day_end then Ok (Break cur)
  else
    left_part <- trim cur st day_end ;;
    cur' <- trim cur day_end et ;;
    Ok (Continue left_part cur').

(** The loop, run for at most [fuel] passes; [None] when the loop has not
    reached its [break] by then. *)
Fixpoint split_loop (fuel : nat) (cur : Trace) (parts : list Trace)
  : option (Result (list Trace)) :=
  match fuel with
  | O => None
  | S fuel' =>
      match split_step cur with
      | Raise e => Some (Raise e)
      | Ok (Break last) => Some (Ok (parts ++ [last])%list)
      | Ok (Continue left_part cur') =>
          split_loop fuel' cur' (parts ++ [left_part])%list
      end
  end.

Definition split_trace_at_midnights (fuel : nat) (tr : Trace)
  : option (Result (list Trace)) :=
  split_loop fuel tr [].

(** [round_sampling_rates], for one trace and for the stream.  The
    difference of a binary64 rate and the integer nearest to it is a
    binary64 number, so [abs(sr - round(sr))] is computed without
    rounding and the comparison with the literal is exact. *)
Definition round_sampling_rate (tr : Trace) : Trace :=
  let sr := sampling_rate tr in
  if Qltb (Qabs (sr - inject_Z (py_round sr))) binary64_1e_6
  then set_sampling_rate tr (inject_Z (py_round sr))
  else tr.

Definition round_sampling_rates (st : Stream) : Stream :=
  map round_sampling_rate st.

Local Close Scope Q_scope.

(** *** [process] *)

(** [fix_masked_arrays]: masked entries become NaN. *)
Definition fix_masked_arrays (st : Stream) : Stream :=
  map (fun tr =>
         set_data tr (map (fun x => match x with Masked => NaN | _ => x end)
                          (data tr)))
      st.

(** The key of a bin: [(net, sta, loc, cha, year, jday)]; it also
    determines the path of the day file. *)
Definition Key : Type := string * string * string * string * Z * Z.

Definition key_of (seg : Trace) : Key :=
  (network seg, station seg, location seg, channel seg,
   year (starttime seg), julday (starttime seg)).

(** [bins[key].append(seg)] on the [defaultdict(Stream)]. *)
Fixpoint bins_append (key : Key) (seg : Trace) (bins : list (Key * Stream))
  : list (Key * Stream) :=
  match bins with
  | [] => [(key, [seg])]
  | (k, st) :: rest =>
      match k, key with
      | (n1, s1, l1, c1, y1, j1), (n2, s2, l2, c2, y2, j2) =>
          if String.eqb n1 n2 && String.eqb s1 s2 && String.eqb l1 l2 &&
             String.eqb c1 c2 && Z.eqb y1 y2 && Z.eqb j1 j2
          then (k, (st ++ [seg])%list) :: rest
          else (k, st) :: bins_append key seg rest
      end
  end.

(** The order of [sorted(bins.items())]: tuples compare field by field. *)
Definition key_leb (a b : Key) : bool :=
  match a, b with
  | (n1, s1, l1, c1, y1, j1), (n2, s2, l2, c2, y2, j2) =>
      string_leb_then n1 n2
        (string_leb_then s1 s2
           (string_leb_then l1 l2
              (string_leb_then c1 c2
                 (if (y1 <? y2)%Z then true
                  else if (y1 =? y2)%Z then (j1 <=? j2)%Z else false))))
  end.

(** The order of [st.sort(keys=[network, station, location, channel,
    starttime])]. *)
Definition file_order (a b : Trace) : bool :=
  string_leb_then (network a) (network b)
    (string_leb_then (station a) (station b)
       (string_leb_then (location a) (location b)
          (string_leb_then (channel a) (channel b)
             (Q_leb_then (starttime a) (starttime b) true)))).

(** The inner loops of the first phase of [process]: every trace of a file
    is split at midnights and its parts are binned. *)
Fixpoint bin_stream (fuel : nat) (st : Stream) (bins : list (Key * Stream))
  : option (Result (list (Key * Stream))) :=
  match st with
  | [] => Some (Ok bins)
  | tr :: rest =>
      let tr := set_location tr (strip (location tr)) in
      match split_trace_at_midnights fuel tr with
      | None => None
      | Some (Raise e) => Some (Raise e)
      | Some (Ok segs) =>
          bin_stream fuel rest
            (fold_left (fun b seg => bins_append (key_of seg) seg b) segs bins)
      end
  end.

(** What a run has done so far. *)
Record Run : Type := mkRun {
  bins_of : list (Key * Stream);
  total_files : nat;
  read_ok : nat;
  wrote : nat;
  archive : list (Key * Stream);   (* the day files written, oldest first *)
  errors : list Key                (* the [ERR] lines printed *)
}.

(** How a run ends: [process] returns, or an exception leaves it. *)
Inductive Outcome : Type :=
| Finished (run : Run)
| Aborted (e : Exn) (run : Run).

Definition count_file (run : Run) : Run :=
  mkRun (bins_of run) (S (total_files run)) (read_ok run) (wrote run)
        (archive run) (errors run).

Definition count_read (run : Run) : Run :=
  mkRun (bins_of run) (total_files run) (S (read_ok run)) (wrote run)
        (archive run) (errors run).

Definition set_bins (run : Run) (bins : list (Key * Stream)) : Run :=
  mkRun bins (total_files run) (read_ok run) (wrote run)
        (archive run) (errors run).

(** The first phase of [process].  A file is what [read] returned for it,
    or [None] when [read] raised. *)
Fixpoint read_files (fuel : nat) (net : string) (files : list (option Stream))
         (run : Run) : option Outcome :=
  match files with
  | [] => Some (Finished run)
  | f :: rest =>
      let run := count_file run in
      match f with
      | None => read_files fuel net rest run
      | Some st =>
          let run := count_read run in
          match fix_seedid st net with
          | Raise e => Some (Aborted e run)
          | Ok st =>
              let st := round_sampling_rates st in
              let st := fix_masked_arrays st in
              let st := stable_sort file_order st in
              match bin_stream fuel st (bins_of run) with
              | None => None
              | Some (Raise e) => Some (Aborted e run)
              | Some (Ok bins) => read_files fuel net rest (set_bins run bins)
              end
          end
      end
  end.

(** The [try: st.merge(method=1) except Exception: round_sampling_rates(st);
    st.merge(method=1)] of the second phase.  The retry is given the bin as
    it was before the first merge.  ObsPy merges in place, and a merge that
    raises can leave the stream changed, even empty; the retry then runs on
    what is left, and the [st[0]] that follows raises if nothing is.  What
    follows a failed first merge is therefore not reliable in the model. *)
Definition merge_bin (st : Stream) : Result Stream :=
  match merge Method1 None st with
  | Ok merged => Ok merged
  | Raise _ => merge Method1 None (round_sampling_rates st)
  end.

(** The day file of a bin: the merged stream, its first trace stamped with
    the identity of the key. *)
Definition day_file (item : Key * Stream) : Result (Key * Stream) :=
  let '(key, st) := item in
  let '(net, sta, loc, cha, y, j) := key in
  st <- merge_bin st ;;
  match st with
  | [] => Raise IndexError
  | tr0 :: others =>
      let tr0 := set_channel
                   (set_location (set_station (set_network tr0 net) sta) loc)
                   cha in
      Ok (key, tr0 :: others)
  end.

(** [isinstance(tr.data, np.ma.masked_array)] for a trace of the stream:
    after a merge, the traces that hold masked samples. *)
Definition is_masked (x : sample) : bool :=
  match x with
  | Masked => true
  | _ => false
  end.

Definition has_masked (st : Stream) : bool :=
  existsb (fun tr => existsb is_masked (data tr)) st.

(** The file system and the MiniSEED encoder are outside the script:
    [mkdir_ok key] says whether the directory of the day file can be
    created, [write_ok file] whether the file can be encoded and stored.
    [Stream.write] itself raises NotImplementedError on a masked array
    before it reaches the encoder. *)
Section Writing.
Variable mkdir_ok : Key -> bool.
Variable write_ok : Key * Stream -> bool.

(** [st.write(str(out_path), format="MSEED", encoding=encoding)] returns. *)
Definition write_succeeds (file : Key * Stream) : bool :=
  negb (has_masked (snd file)) && write_ok file.

Definition written (run : Run) (file : Key * Stream) : Run :=
  mkRun (bins_of run) (total_files run) (read_ok run) (S (wrote run))
        (archive run ++ [file])%list (errors run).

Definition failed (run : Run) (file : Key * Stream) : Run :=
  mkRun (bins_of run) (total_files run) (read_ok run) (wrote run)
        (archive run) (errors run ++ [fst file])%list.

(** One pass of [for (net, sta, loc, cha, y, j), st in sorted(bins.items())]. *)
Definition write_bin (item : Key * Stream) (run : Run) : Result Run :=
  file <- day_file item ;;
  if mkdir_ok (fst file) then
    if write_succeeds file then Ok (written run file)
    else Ok (failed run file)
  else Raise OSError.

Fixpoint write_bins (items : list (Key * Stream)) (run : Run) : Outcome :=
  match items with
  | [] => Finished run
  | item :: rest =>
      match write_bin item run with
      | Ok run' => write_bins rest run'
      | Raise e => Aborted e run
      end
  end.

(** [process(input_root, sds_root, network)], on the files found under
    [input_root] in sorted order. *)
Definition process (fuel : nat) (files : list (option Stream)) (net : string)
  : option Outcome :=
  match read_files fuel net files (mkRun [] 0 0 0 [] []) with
  | None => None
  | Some (Aborted e run) => Some (Aborted e run)
  | Some (Finished run) =>
      Some (write_bins
              (stable_sort (fun a b => key_leb (fst a) (fst b)) (bins_of run))
              run)
  end.
End Writing.

(** *** [sds_dir_for] and [sds_path_for] *)

(** A [pathlib.Path] of the POSIX flavour: where it starts (nowhere, at
    the root, or at the root written with exactly two slashes) and the
    names it goes through. *)
Inductive Anchor : Type := Relative | Root | TwoSlashes.

Record Path : Type := mkPath { anchor : Anchor; names : list string }.

(** [s.split("/")] *)
Fixpoint split_slash (s : string) : list string :=
  match s with
  | EmptyString => [EmptyString]
  | String c s' =>
      if Ascii.eqb c "/" then EmptyString :: split_slash s'
      else
        match split_slash s' with
        | [] => [String c EmptyString]
        | x :: rest => String c x :: rest
        end
  end.

(** How [pathlib] reads a string: one leading slash, or three and more,
    anchor the path at the root, exactly two at the root of their own;
    between the slashes, empty names and the name [.] are dropped. *)
Definition anchor_of (s : string) : Anchor :=
  match s with
  | String a s1 =>
      if Ascii.eqb a "/" then
        match s1 with
        | String b s2 =>
            if Ascii.eqb b "/" then
              match s2 with
              | String c _ => if Ascii.eqb c "/" then Root else TwoSlashes
              | EmptyString => TwoSlashes
              end
            else Root
        | EmptyString => Root
        end
      else Relative
  | EmptyString => Relative
  end.

Definition name_kept (x : string) : bool :=
  negb (String.eqb x "") && negb (String.eqb x ".").

Definition names_of (s : string) : list string :=
  filter name_kept (split_slash s).

(** [p / s]: an anchored [s] replaces [p], any other [s] continues it. *)
Definition joinpath (p : Path) (s : string) : Path :=
  match anchor_of s with
  | Relative => mkPath (anchor p) (names p ++ names_of s)%list
  | a => mkPath a (names_of s)
  end.

Definition sds_dir_for (tr : Trace) (sds_root : Path) (year : Z) : Path :=
  joinpath
    (joinpath (joinpath (joinpath sds_root (format_d 4 year)) (network tr))
              (station tr))
    (channel tr ++ ".D").

Definition sds_path_for (tr : Trace) (sds_root : Path) (year jday : Z) : Path :=
  joinpath (sds_dir_for tr sds_root year)
           (trace_id tr ++ ".D." ++ format_d 4 year ++ "." ++ format_d 3 jday).

(** [out_path] of [process] (lines 171-179) for a day file: the path for
    the first trace of the stream, year and day of the key. *)
Definition out_path (sds_root : Path) (file : Key * Stream) : Result Path :=
  match file with
  | ((_, _, _, _, y, j), st) =>
      tr0 <- of_option IndexError (hd_error st) ;;
      Ok (sds_path_for tr0 sds_root y j)
  end.

End Sds.

(** ** 02_mseed2sds.py *)

Module Legacy.

(** *** [fix_seedid] *)

(** [fix_seedid] mutates the traces of [st] in place and removes traces from
    [st] while it iterates; [Stream.__iter__] iterates over a copy of the
    trace list, so every trace of the original stream is visited once.  A
    slot is one trace object of the original stream: its current header and
    whether [st] still holds it. *)
Record slot : Type := mkSlot { obj : Trace; live : bool }.

(** [len(st.select(station=pat))]: ObsPy matches the upper-cased station
    code of each trace held by the stream against the upper-cased pattern
    with [fnmatch]. *)
Definition select_count (slots : list slot) (pat : string) : nat :=
  List.length
    (filter (fun s => live s && fnmatch (upper (station (obj s))) (upper pat))
            slots).

(** [st.remove(tr)] for the trace object [tr] of slot [i]: [list.remove]
    drops the first trace of the stream that is [tr] itself or compares
    equal to it.  [j] is the slot the list [slots] starts at. *)
Fixpoint remove_from (j i : nat) (tr : Trace) (slots : list slot)
  : Result (list slot) :=
  match slots with
  | [] => Raise ValueError
  | s :: rest =>
      if live s && (Nat.eqb j i || trace_eqb (obj s) tr)
      then Ok (mkSlot (obj s) false :: rest)
      else rest' <- remove_from (S j) i tr rest ;; Ok (s :: rest')
  end.

Definition remove (i : nat) (tr : Trace) (slots : list slot)
  : Result (list slot) :=
  remove_from 0 i tr slots.

(** An assignment to [tr.stats] for the trace object in slot [i]. *)
Fixpoint write (i : nat) (tr : Trace) (slots : list slot) : list slot :=
  match slots, i with
  | [], _ => []
  | s :: rest, O => mkSlot tr (live s) :: rest
  | s :: rest, S i' => s :: write i' tr rest
  end.

Definition multi (slots : list slot) (tr : Trace) : bool :=
  (1 <? select_count slots (root_of (station tr) ++ "*"))%nat.

(** One iteration of [for tr in st], for the trace object in slot [i]. *)
Definition fix_at (net : string) (i : nat) (slots : list slot)
  : Result (list slot) :=
  match nth_error slots i with
  | None => Ok slots
  | Some s =>
      let tr := obj s in
      if String.eqb (station tr) "IRIG" then remove i tr slots
      else
        let tr := set_network tr net in
        let slots := write i tr slots in
        c <- of_option IndexError (last_char (station tr)) ;;
        let tr :=
          if char_in c "ZNE" && multi slots tr then
            let tr := set_channel tr ("EH" ++ str1 c) in
            set_station tr (root_of (station tr))
          else set_channel tr "EHZ" in
        let slots := write i tr slots in
        if (String.length (station tr) =? 4)%nat then
          c1 <- of_option IndexError (last_char (station tr)) ;;
          tr <- (if Ascii.eqb c1 "L"%char && multi slots tr then
                   o <- of_option IndexError (String.get 2 (channel tr)) ;;
                   let tr := set_channel tr ("EL" ++ str1 o) in
                   Ok (set_station tr (root_of (station tr)))
                 else Ok tr) ;;
          let slots := write i tr slots in
          c2 <- of_option IndexError (last_char (station tr)) ;;
          let tr :=
            if Ascii.eqb c2 "H"%char && multi slots tr then
              set_station tr (root_of (station tr))
            else tr in
          Ok (write i tr slots)
        else Ok slots
  end.

Fixpoint fix_loop (net : string) (idxs : list nat) (slots : list slot)
  : Result (list slot) :=
  match idxs with
  | [] => Ok slots
  | i :: rest => slots' <- fix_at net i slots ;; fix_loop net rest slots'
  end.

Definition contents (slots : list slot) : Stream :=
  map obj (filter live slots).

(** [fix_seedid(st, network)] returns nothing; the result here is the
    content of [st] when the call returns. *)
Definition fix_seedid (st : Stream) (net : string) : Result Stream :=
  slots <- fix_loop net (seq 0 (List.length st))
                    (map (fun tr => mkSlot tr true) st) ;;
  Ok (contents slots).

(** *** [append_and_merge] and the day-boundary split of the main loop *)

(** [append_and_merge(dayst, st)]; the result is the content of [dayst]
    when the call returns.  The bare [except:] catches whatever the first
    merge raises.  The retry is given [dayst] as it was before the first
    merge; what a merge that raises has already done to the stream is not
    modelled, so the result is reliable only when the first merge returns.
    [round_rate] is the body of the loop in the handler,
    [tr.stats.sampling_rate = float(round(tr.stats.sampling_rate))]. *)
Definition round_rate (tr : Trace) : Trace :=
  set_sampling_rate tr (inject_Z (py_round (sampling_rate tr))).

Definition append_and_merge (dayst st : Stream) : Result Stream :=
  let dayst := (dayst ++ st)%list in
  match merge Method0 (Some 0%Z) dayst with
  | Ok merged => Ok merged
  | Raise _ => merge Method0 (Some 0%Z) (map round_rate dayst)
  end.

(** [Stream.trim] with only a start time or only an end time: the time is
    first moved onto the sample grid of the first trace, every trace is
    trimmed, and the traces left empty are dropped. *)
Definition stream_trim_start (st : Stream) (t : Q) : Stream :=
  match st with
  | [] => []
  | tr :: _ =>
      let delta := round_away ((t - starttime tr) * sampling_rate tr)%Q in
      let t' := (starttime tr + inject_Z delta * (1 / sampling_rate tr))%Q in
      filter (fun x => negb (npts x =? 0)%Z) (map (fun x => ltrim x t') st)
  end.

Definition stream_trim_end (st : Stream) (t : Q) : Stream :=
  match st with
  | [] => []
  | tr :: _ =>
      let delta := round_away ((t - endtime tr) * sampling_rate tr)%Q in
      let t' := (endtime tr + inject_Z delta * (1 / sampling_rate tr))%Q in
      filter (fun x => negb (npts x =? 0)%Z) (map (fun x => rtrim x t') st)
  end.

(** The day-boundary split of the main loop (lines 94-95):
    [nextst = st.copy().trim(starttime=dayetime)] is the second component,
    [st.trim(endtime=dayetime)] the first. *)
Definition split_at_day_end (dayetime : Q) (st : Stream) : Stream * Stream :=
  (stream_trim_end st dayetime, stream_trim_start st dayetime).

(** *** [write_day_to_SDS] and the loop over the input tree *)

(** How the script ends before its last line: with an exception of the
    functions above that nothing catches, with the NameError of reading
    the global [dayetime] before line 107 has assigned it, or with the
    exception of [os.makedirs] or [tr.write]. *)
Inductive Failure : Type :=
| Uncaught (e : Exn)
| NameError
| WriteFailed.

Inductive Ending (A : Type) : Type :=
| Reached (a : A)
| Died (f : Failure).
Arguments Reached {A} a.
Arguments Died {A} f.

Definition and_then {A B : Type} (r : Ending A) (k : A -> Ending B) : Ending B :=
  match r with
  | Reached a => k a
  | Died f => Died f
  end.

Notation "x <~ r ;; k" := (and_then r (fun x => k))
  (at level 61, r at next level, right associativity).

(** A call of one of the functions above: its exception is not caught. *)
Definition call {A : Type} (r : Result A) : Ending A :=
  match r with
  | Ok a => Reached a
  | Raise e => Died (Uncaught e)
  end.

(** The variables of the loop: [dayst], [lastday] ([None] in Python is
    [None] here), the global [dayetime] ([None] while it is unassigned),
    and the traces written to the archive so far. *)
Record Loop : Type := mkLoop {
  dayst : Stream;
  lastday : option Z;
  dayetime : option Q;
  sds : list Trace
}.

Section Archive.
(** [network = 'NR'] of line 29. *)
Variable net : string.
(** The file system and the MiniSEED encoder are outside the script:
    [write_ok tr] says whether the directory of [tr] can be made and its
    file encoded and stored.  [tr.write] itself refuses a masked array. *)
Variable write_ok : Trace -> bool.

Fixpoint write_day_to_SDS (st : Stream) (written : list Trace)
  : Ending (list Trace) :=
  match st with
  | [] => Reached written
  | tr :: rest =>
      if negb (existsb Sds.is_masked (data tr)) && write_ok tr
      then write_day_to_SDS rest (written ++ [tr])%list
      else Died WriteFailed
  end.

(** The body of [for filepath in ...] (lines 82-112) for one file; a file
    is what [obspy.read] returned for it, or [None] when [read] raised. *)
Definition file_step (s : Loop) (f : option Stream) : Ending Loop :=
  match f with
  | None => Reached s
  | Some st =>
      st <~ call (fix_seedid st net) ;;
      tr0 <~ call (of_option IndexError (hd_error st)) ;;
      let currentday := day (starttime tr0) in
      let currentendday := day (endtime tr0) in
      split <~ (if negb (currentday =? currentendday)%Z then
                  match dayetime s with
                  | None => Died NameError
                  | Some t =>
                      let nextst := stream_trim_start st t in
                      let st := stream_trim_end st t in
                      merged <~ call (append_and_merge (dayst s) st) ;;
                      Reached (merged, nextst, currentendday)
                  end
                else Reached (dayst s, st, currentday)) ;;
      let '(dayst0, st, currentday) := split in
      if match lastday s with
         | Some d => negb (currentday =? d)%Z
         | None => true
         end
      then
        written <~ (match dayst0 with
                    | [] => Reached (sds s)
                    | _ :: _ => write_day_to_SDS dayst0 (sds s)
                    end) ;;
        first <~ call (of_option IndexError (hd_error st)) ;;
        Reached (mkLoop st (Some currentday)
                        (Some (day_start_of (starttime first) + 86400)%Q)
                        written)
      else
        merged <~ call (append_and_merge dayst0 st) ;;
        _ <~ call (of_option IndexError (hd_error merged)) ;;
        Reached (mkLoop merged (lastday s) (dayetime s) (sds s))
  end.

Fixpoint file_loop (s : Loop) (files : list (option Stream)) : Ending Loop :=
  match files with
  | [] => Reached s
  | f :: rest => s' <~ file_step s f ;; file_loop s' rest
  end.

(** The body of [for daydir in ...] (lines 76-112): [dayst] and [lastday]
    start afresh, [dayetime] is whatever the directory before left. *)
Definition daydir_step (s : Loop) (files : list (option Stream)) : Ending Loop :=
  file_loop (mkLoop [] None (dayetime s) (sds s)) files.

Fixpoint daydir_loop (s : Loop) (daydirs : list (list (option Stream)))
  : Ending Loop :=
  match daydirs with
  | [] => Reached s
  | files :: rest => s' <~ daydir_step s files ;; daydir_loop s' rest
  end.

(** The script, on the day directories of the input tree in sorted order,
    each with its files in sorted order. *)
Definition script (daydirs : list (list (option Stream))) : Ending Loop :=
  daydir_loop (mkLoop [] None None []) daydirs.
End Archive.

End Legacy.

(** * Notions used to state the properties *)

Local Open Scope list_scope.

(** The trace carries the station code of the timing channel. *)
Definition is_irig (tr : Trace) : bool := String.eqb (station tr) "IRIG".

(** The waveform a trace carries: everything but its identity. *)
Definition same_waveform (a b : Trace) : Prop :=
  starttime b = starttime a /\ sampling_rate b = sampling_rate a /\
  data b = data a.

(** The Z/N/E rule of the normalizers applies to [tr]: its station code
    ends in Z, N or E and shares its root with another code of the file. *)
Definition zne_rule (stations : list string) (tr : Trace) : bool :=
  last_slice_in (station tr) "ZNE" &&
  Sds.multi_for_root (root_of (station tr)) stations.

(** A SEED station code character: an upper-case letter or a digit. *)
Definition seed_char (c : ascii) : bool :=
  let n := nat_of_ascii c in
  ((65 <=? n)%nat && (n <=? 90)%nat) || ((48 <=? n)%nat && (n <=? 57)%nat).

(** Every character of [s] is one. *)
Fixpoint seed_chars (s : string) : bool :=
  match s with
  | EmptyString => true
  | String c s' => seed_char c && seed_chars s'
  end.

(** A SEED station code: not empty, upper-case letters and digits only. *)
Definition seed_code (s : string) : bool :=
  negb (String.eqb s "") && seed_chars s.

(** Every station code of the file is a SEED station code. *)
Definition seed_stations (st : Stream) : bool :=
  forallb (fun tr => seed_code (station tr)) st.

(** If the file holds an IRIG trace, no other station code of the file has
    a root that IRIG starts with. *)
Definition irig_apart (st : Stream) : bool :=
  negb (existsb is_irig st) ||
  forallb (fun tr => is_irig tr ||
                     negb (String.prefix (root_of (station tr)) "IRIG")) st.

(** What the two normalizers agree on for a trace [t] of the file, [a]
    being the rewritten normalizer's result and [b] the legacy one's. *)
Definition agree (stations : list string) (t a b : Trace) : Prop :=
  network a = network b /\ station a = station b /\ same_waveform a b /\
  (well_formed_channel (channel t) = false \/ zne_rule stations t = true ->
   channel a = channel b).

(** The slot of a trace object that [fix_seedid] has not visited yet. *)
Definition fresh_slot (tr : Trace) : Legacy.slot := Legacy.mkSlot tr true.

(** The iteration of [fix_at] on one trace object, with the stream around
    it abstracted to the answer [m tr] of the sibling test when the object
    holds header [tr]. *)
Definition legacy_body (net : string) (m : Trace -> bool) (t : Trace)
  : Result Trace :=
  let tr := set_network t net in
  c <- of_option IndexError (last_char (station tr)) ;;
  let tr :=
    if char_in c "ZNE" && m tr then
      let tr := set_channel tr ("EH" ++ str1 c)%string in
      set_station tr (root_of (station tr))
    else set_channel tr "EHZ" in
  if (String.length (station tr) =? 4)%nat then
    c1 <- of_option IndexError (last_char (station tr)) ;;
    tr <- (if Ascii.eqb c1 "L"%char && m tr then
             o <- of_option IndexError (String.get 2 (channel tr)) ;;
             let tr := set_channel tr ("EL" ++ str1 o)%string in
             Ok (set_station tr (root_of (station tr)))
           else Ok tr) ;;
    c2 <- of_option IndexError (last_char (station tr)) ;;
    Ok (if Ascii.eqb c2 "H"%char && m tr then
          set_station tr (root_of (station tr))
        else tr)
  else Ok tr.

(** No trace held by these slots carries the IRIG station code. *)
Definition irig_free (slots : list Legacy.slot) : Prop :=
  Forall (fun s => Legacy.live s = true -> station (Legacy.obj s) <> "IRIG")
         slots.

(** How the trace object in a slot relates to the trace [o] read from the
    file: its station code is the raw one or its root, and only IRIG traces
    are ever removed. *)
Definition tracks (o : Trace) (s : Legacy.slot) : Prop :=
  (station (Legacy.obj s) = station o \/
   station (Legacy.obj s) = root_of (station o)) /\
  (Legacy.live s = false -> station o = "IRIG").

(** The loop of [fix_seedid] with the sibling test read off the station
    codes of the file [st]. *)
Fixpoint snapshot_loop (st : Stream) (net : string) (l : list Trace)
  : Result (list Legacy.slot) :=
  match l with
  | [] => Ok []
  | t :: l' =>
      if is_irig t then
        outs <- snapshot_loop st net l' ;; Ok (Legacy.mkSlot t false :: outs)
      else
        t' <- legacy_body net
                (fun _ => Sds.multi_for_root (root_of (station t))
                                             (map station st)) t ;;
        outs <- snapshot_loop st net l' ;; Ok (fresh_slot t' :: outs)
  end.

Local Open Scope Q_scope.

(** 2012-04-05T00:00:00 UTC, in seconds since the epoch. *)
Definition midnight : Q := 1333584000.

(** One sample per second, four samples, the first 1.6 s before midnight:
    samples at 23:59:58.4, 23:59:59.4, 00:00:00.4 and 00:00:01.4. *)
Definition across_midnight : Trace :=
  mkTrace "NR" "PIR" "" "EHZ" (midnight - (16 # 10)) 1
          [Val 1; Val 2; Val 3; Val 4].

(** One sample per second, two samples, the first 0.3 s before midnight. *)
Definition just_before_midnight : Trace :=
  mkTrace "NR" "PIR" "" "EHZ" (midnight - (3 # 10)) 1 [Val 1; Val 2].

(** The tolerance of [round_sampling_rates]. *)
Definition tolerance : Q := binary64_1e_6.

(** A trace whose header gives 99.9997 samples per second. *)
Definition jittered : Trace :=
  mkTrace "NR" "PIR" "" "EHZ" midnight (999997 # 10000) [Val 1; Val 2].

(** Two traces of the same channel. *)
Definition same_id (a b : Trace) : Prop :=
  network a = network b /\ station a = station b /\
  location a = location b /\ channel a = channel b.

(** Three samples, one per second, from midnight on. *)
Definition early : Trace :=
  mkTrace "NR" "PIR" "" "EHZ" midnight 1 [Val 1; Val 2; Val 3].

(** Two samples of the same channel, five seconds after midnight: the
    samples of seconds 3 and 4 are missing. *)
Definition late : Trace :=
  mkTrace "NR" "PIR" "" "EHZ" (midnight + 5) 1 [Val 7; Val 8].

(** Ten seconds of ones from midnight on, one sample per second. *)
Definition first_ten : Trace :=
  mkTrace "NR" "PIR" "" "EHZ" midnight 1 (repeat (Val 1) 10).

(** Ten seconds of twos of the same channel from five seconds after
    midnight on. *)
Definition second_ten : Trace :=
  mkTrace "NR" "PIR" "" "EHZ" (midnight + 5) 1 (repeat (Val 2) 10).

Local Close Scope Q_scope.

(** The state of a run after the day files [files] have gone through the
    writer, in this order. *)
Definition after_files (write_ok : Sds.Key * Stream -> bool)
           (files : list (Sds.Key * Stream)) (run : Sds.Run) : Sds.Run :=
  fold_left (fun r f => if Sds.write_succeeds write_ok f
                        then Sds.written r f else Sds.failed r f)
            files run.

(** The bin [item] merges, and the directory of its day file [file] can be
    created. *)
Definition prepared (mkdir_ok : Sds.Key -> bool)
           (item file : Sds.Key * Stream) : Prop :=
  Sds.day_file item = Ok file /\ mkdir_ok (fst file) = true.

(** A file that holds one trace, of two samples from midnight on. *)
Definition one_trace (sta : string) (sr : Q) : Stream :=
  [mkTrace "" sta "" "" midnight sr [Val 1; Val 2]].

(** Four files of 2012-04-05: station ABC, station PIR at 1 Hz, station PIR
    at 2 Hz, station XYZ. *)
Definition four_files : list (option Stream) :=
  [Some (one_trace "ABC" 1); Some (one_trace "PIR" 1);
   Some (one_trace "PIR" 2); Some (one_trace "XYZ" 1)].

(** The same without the file of station PIR at 2 Hz. *)
Definition three_files : list (option Stream) :=
  [Some (one_trace "ABC" 1); Some (one_trace "PIR" 1);
   Some (one_trace "XYZ" 1)].

(** The station of the key of a bin or of a day file. *)
Definition key_station (file : Sds.Key * Stream) : string :=
  let '(_, sta, _, _, _, _) := fst file in sta.

(** The bins of stations ABC and XYZ for 2012-04-05. *)
Definition abc_bin : Sds.Key * Stream :=
  (("NR", "ABC", "", "EHZ", 2012%Z, 96%Z),
   [mkTrace "NR" "ABC" "" "EHZ" midnight 1 [Val 1; Val 2]]).

Definition xyz_bin : Sds.Key * Stream :=
  (("NR", "XYZ", "", "EHZ", 2012%Z, 96%Z),
   [mkTrace "NR" "XYZ" "" "EHZ" midnight 1 [Val 1; Val 2]]).

(** The trace is not one of the timing channel. *)
Definition not_irig (tr : Trace) : Prop := station tr <> "IRIG".

(** No bin is keyed by station IRIG and no bin holds an IRIG trace. *)
Definition irig_free_bins (bins : list (Sds.Key * Stream)) : Prop :=
  Forall (fun b => key_station b <> "IRIG" /\ Forall not_irig (snd b)) bins.

(** A trace as read from a file: station and channel code given, no
    network, 100 samples per second. *)
Definition raw (sta cha : string) : Trace :=
  mkTrace "" sta "" cha midnight 100 [Val 1; Val 2].

(** A file with an IRIG trace and the three components of station PIR. *)
Definition with_irig : Stream :=
  [raw "IRIG" ""; raw "PIRZ" ""; raw "PIRN" ""; raw "PIRE" ""].

(** The sibling set of the scenario. *)
Definition pir_codes : list string :=
  ["PIR1"; "PIR2"; "PIRZ"; "PIRN"; "PIRE"].

(** The station and channel the scenario expects for a trace of the set;
    [keeps_channel] says whether a well-formed raw channel code survives
    on PIR1 and PIR2. *)
Definition pir_expected (keeps_channel : bool) (t : Trace) : string * string :=
  if String.eqb (station t) "PIRZ" then ("PIR", "EHZ")
  else if String.eqb (station t) "PIRN" then ("PIR", "EHN")
  else if String.eqb (station t) "PIRE" then ("PIR", "EHE")
  else (station t,
        if keeps_channel && well_formed_channel (channel t) then channel t
        else "EHZ").

(** The normalized trace [a] is what the scenario expects for [t]. *)
Definition pir_normalized (keeps_channel : bool) (net : string) (t a : Trace)
  : Prop :=
  network a = net /\ (station a, channel a) = pir_expected keeps_channel t.

(** Five traces with the station codes of the scenario; PIR1 carries the
    well-formed channel code EHN. *)
Definition pir_file : Stream :=
  [raw "PIR1" "EHN"; raw "PIR2" ""; raw "PIRZ" ""; raw "PIRN" "";
   raw "PIRE" ""].

Local Open Scope Q_scope.

(** The binary64 number nearest to 99.9997, which is the Python float for
    that rate. *)
Definition binary64_99_9997 : Q := 7036853307143147 # 70368744177664.

(** [jittered] with the rate Python holds for it. *)
Definition jittered_binary64 : Trace :=
  mkTrace "NR" "PIR" "" "EHZ" midnight binary64_99_9997 [Val 1; Val 2].

(** The bin of one day that holds [early] and [late]. *)
Definition gap_bin : Sds.Key * Stream :=
  (("NR", "PIR", "", "EHZ", 2012%Z, 96%Z), [early; late]).

Local Close Scope Q_scope.

Local Open Scope Q_scope.

(** A trace of one sample per second that starts [t] seconds after
    midnight. *)
Definition one_hertz (t : Q) (values : list Z) : Trace :=
  mkTrace "NR" "PIR" "" "EHZ" (midnight + t) 1 (map Val values).

(** The samples of the only trace of a stream. *)
Definition samples_of (r : Result Stream) : option (list sample) :=
  match r with
  | Ok [tr] => Some (data tr)
  | _ => None
  end.

Local Close Scope Q_scope.

(** What [fix_seedid] of [20_twominutemseed2suds.py] makes of the header
    of a trace [t] that it keeps. *)
Definition sds_header (net : string) (t a : Trace) : Prop :=
  network a = net /\
  (station a = station t \/ station a = root_of (station t)) /\
  location a = strip (location t) /\
  well_formed_channel (channel a) = true.

(** The channel codes that [fix_seedid] of [02_mseed2sds.py] can assign. *)
Definition legacy_channels : list string :=
  ["EHZ"; "EHN"; "EHE"; "ELZ"; "ELN"; "ELE"].

(** What [fix_seedid] of [02_mseed2sds.py] makes of the header of a trace
    [t] that it keeps. *)
Definition legacy_header (net : string) (t b : Trace) : Prop :=
  network b = net /\
  (station b = station t \/ station b = root_of (station t)) /\
  location b = location t /\
  In (channel b) legacy_channels.

Local Open Scope Q_scope.

(** The midnight that ends the UTC day in which [cur] starts, [day_end] of
    [split_trace_at_midnights]. *)
Definition day_end_of (cur : Trace) : Q := day_start_of (starttime cur) + 86400.

(** The index of the sample of [cur] nearest to that midnight. *)
Definition cut_index (cur : Trace) : Z :=
  round_away ((day_end_of cur - starttime cur) * sampling_rate cur).

(** [cur] up to that sample, and [cur] from that sample on. *)
Definition left_of (cur : Trace) : Trace :=
  set_data cur (firstn (Z.to_nat (cut_index cur + 1)) (data cur)).

Definition remainder_of (cur : Trace) : Trace :=
  if (cut_index cur <=? 0)%Z then cur
  else
    set_data
      (set_starttime cur
         (starttime cur + inject_Z (cut_index cur) * (1 / sampling_rate cur)))
      (skipn (Z.to_nat (cut_index cur)) (data cur)).

(** Each part starts with the sample the part before it ends with. *)
Fixpoint chained (p : Trace) (rest : list Trace) : Prop :=
  match rest with
  | [] => True
  | q :: rest' =>
      starttime q == endtime p /\
      hd_error (data q) = nth_error (data p) (List.length (data p) - 1) /\
      chained q rest'
  end.

(** The part carries the channel and the sampling rate of the trace. *)
Definition part_of (tr p : Trace) : Prop :=
  same_id tr p /\ sampling_rate p = sampling_rate tr.



Local Close Scope Q_scope.

Local Open Scope Q_scope.

(** Every segment of every bin satisfies [P]. *)
Definition bins_hold (P : Trace -> Prop) (bins : list (Sds.Key * Stream)) : Prop :=
  Forall (fun b => Forall P (snd b)) bins.

(** [round_sampling_rates] would leave the trace as it is. *)
Definition settled (tr : Trace) : Prop := Sds.round_sampling_rate tr = tr.

Local Close Scope Q_scope.

(** The bin is not empty and each of its segments has its key. *)
Definition keyed (b : Sds.Key * Stream) : Prop :=
  snd b <> [] /\ Forall (fun seg => Sds.key_of seg = fst b) (snd b).

(** Every bin is keyed and no two bins have one key. *)
Definition well_keyed (bins : list (Sds.Key * Stream)) : Prop :=
  Forall keyed bins /\ NoDup (map fst bins).

(** The file could be read. *)
Definition readable (f : option Stream) : bool :=
  match f with
  | Some _ => true
  | None => false
  end.

(** The days of the month that the loop reads off a file (lines 90-91), once
    [fix_seedid] has returned and left a trace. *)
Definition file_days (net : string) (f : option Stream) : option (Z * Z) :=
  match f with
  | None => None
  | Some st =>
      match Legacy.fix_seedid st net with
      | Ok (tr0 :: _) => Some (day (starttime tr0), day (endtime tr0))
      | _ => None
      end
  end.

(** The file, if it yields a trace, starts and ends on day [d] of the
    month. *)
Definition on_day (net : string) (d : Z) (f : option Stream) : Prop :=
  forall days, file_days net f = Some days -> days = (d, d).

(** The number that a string of decimal digits denotes. *)
Definition value (s : string) : option N :=
  option_map N.of_uint (NilEmpty.uint_of_string s).

(** The integer that a string of decimal digits with an optional sign
    denotes. *)
Definition parse_d (s : string) : option Z :=
  match s with
  | EmptyString => Some 0%Z
  | String c s' =>
      if Ascii.eqb c "-" then option_map (fun n => (- Z.of_N n)%Z) (value s')
      else option_map Z.of_N (value s)
  end.

(** The string holds no dot. *)
Fixpoint no_dot (s : string) : bool :=
  match s with
  | EmptyString => true
  | String c s' => negb (Ascii.eqb c ".") && no_dot s'
  end.

(** The string holds no slash. *)
Fixpoint no_slash (s : string) : bool :=
  match s with
  | EmptyString => true
  | String c s' => negb (Ascii.eqb c "/") && no_slash s'
  end.

(** A code that [pathlib] reads as one name: it holds no slash and is
    neither empty nor [.]. *)
Definition plain_name (s : string) : bool := no_slash s && Sds.name_kept s.

(** The station, location and channel codes of a trace as it is read, and
    the codes of a trace with its network, are such that the directories
    and the file name built from them are single names. *)
Definition plain_raw (tr : Trace) : bool :=
  plain_name (station tr) && no_slash (location tr) && no_slash (channel tr).

Definition plain_codes (tr : Trace) : bool :=
  plain_name (network tr) && plain_raw tr.

(** Two traces that differ in station and location and share the path of
    their day file: the channel code starts with a slash. *)
Definition slash_a : Trace :=
  mkTrace "NR" "a." "b" "/xZ" midnight 1 [Val 1].

Definition slash_b : Trace :=
  mkTrace "NR" "a" ".b" "/xZ" midnight 1 [Val 1].

(** What is read from the file is plain. *)
Definition plain_file (f : option Stream) : Prop :=
  match f with
  | Some st => Forall (fun tr => plain_raw tr = true) st
  | None => True
  end.

(** The codes of the key are plain. *)
Definition plain_key (k : Sds.Key) : bool :=
  match k with
  | (n, s, l, c, _, _) => plain_name n && (plain_name s && no_slash l && no_slash c)
  end.

(** The splitter does not return on the trace as [process] hands it over
    (line 147 strips the location code first). *)
Definition hangs (p : Trace) : Prop :=
  forall fuel,
    Sds.split_trace_at_midnights fuel (set_location p (strip (location p))) = None.

(** The trace holds no masked sample. *)
Definition unmasked (tr : Trace) : Prop :=
  existsb Sds.is_masked (data tr) = false.

(** * Properties of the identity normalizers *)

Lemma same_waveform_refl tr : same_waveform tr tr.
Proof. repeat split. Qed.

Lemma root_of_not_irig s : root_of s <> "IRIG".
Proof.
  unfold root_of.
  destruct s as [|a [|b [|c s]]]; simpl; try discriminate.
  destruct s; discriminate.
Qed.

Lemma root_of_idem s : root_of (root_of s) = root_of s.
Proof.
  unfold root_of.
  destruct s as [|a [|b [|c s]]]; simpl; try reflexivity.
  destruct s; reflexivity.
Qed.

Lemma length_root_of s : (String.length (root_of s) <= 3)%nat.
Proof.
  unfold root_of.
  destruct s as [|a [|b [|c s]]]; simpl; try lia.
  destruct s; simpl; lia.
Qed.

Lemma last_char_nonempty s : s <> "" -> exists c, last_char s = Some c.
Proof.
  induction s as [|a s IH]; [congruence|]. intros _.
  destruct s as [|b s]; [now exists a|].
  destruct IH as [c Hc]; [discriminate|]. exists c. exact Hc.
Qed.

Lemma last_char_none s : last_char s = None -> s = "".
Proof.
  destruct s as [|a s]; [reflexivity|]. intros H.
  destruct (last_char_nonempty (String a s)) as [c Hc]; [discriminate|].
  congruence.
Qed.

Lemma get_2_length_3 s : String.length s = 3%nat -> exists c, String.get 2 s = Some c.
Proof.
  destruct s as [|a [|b [|c s]]]; simpl; try discriminate.
  intros _. now exists c.
Qed.

(** *** Station codes and [fnmatch] *)

Lemma upper_ascii_seed c : seed_char c = true -> upper_ascii c = c.
Proof.
  unfold seed_char, upper_ascii. intros H.
  destruct ((97 <=? nat_of_ascii c)%nat && (nat_of_ascii c <=? 122)%nat) eqn:E;
    [|reflexivity].
  exfalso.
  apply andb_prop in E as [E1 E2]. apply Nat.leb_le in E1, E2.
  apply orb_prop in H as [H | H]; apply andb_prop in H as [H1 H2];
    apply Nat.leb_le in H1, H2; lia.
Qed.

Lemma upper_seed s : seed_chars s = true -> upper s = s.
Proof.
  induction s as [|c s IH]; simpl; [reflexivity|]. intros H.
  apply andb_prop in H as [Hc Hs]. now rewrite upper_ascii_seed, IH.
Qed.

Lemma upper_app a b : upper (a ++ b)%string = (upper a ++ upper b)%string.
Proof. induction a as [|c a IH]; simpl; [reflexivity|]. now rewrite IH. Qed.

Lemma seed_char_not_meta c :
  seed_char c = true -> Ascii.eqb c "*" = false /\ Ascii.eqb c "?" = false.
Proof.
  intros H. split; apply Ascii.eqb_neq; intros ->; discriminate H.
Qed.

Lemma fnmatch_star_all s : fnmatch_from "*" s = true.
Proof. induction s as [|c s IH]; simpl; [reflexivity|]. simpl in IH. now rewrite IH. Qed.

(** On station codes, [select(station=root + "*")] is a prefix test. *)
Lemma fnmatch_prefix r : seed_chars r = true ->
  forall s, fnmatch s (r ++ "*")%string = String.prefix r s.
Proof.
  unfold fnmatch. induction r as [|c r IH]; intros Hr s.
  - rewrite fnmatch_star_all. now destruct s.
  - simpl in Hr. apply andb_prop in Hr as [Hc Hr].
    destruct (seed_char_not_meta c Hc) as [H1 H2].
    cbn [append fnmatch_from]. rewrite H1, H2.
    destruct s as [|d s]; simpl; [reflexivity|].
    rewrite IH by exact Hr.
    destruct (ascii_dec c d) as [->|Hn].
    + now rewrite Ascii.eqb_refl.
    + replace (Ascii.eqb d c) with false; [reflexivity|].
      symmetry. apply Ascii.eqb_neq. congruence.
Qed.

Lemma seed_chars_root_of s : seed_chars s = true -> seed_chars (root_of s) = true.
Proof.
  unfold root_of.
  destruct s as [|a [|b [|c s]]]; simpl; auto.
  intros H. repeat (apply andb_prop in H as [? H]).
  destruct s; simpl; now rewrite ?andb_true_r; repeat (apply andb_true_intro; split).
Qed.

Lemma prefix_root_of r s :
  (String.length r <= 3)%nat -> String.prefix r (root_of s) = String.prefix r s.
Proof.
  unfold root_of. intros Hr.
  destruct r as [|r1 [|r2 [|r3 [|r4 r]]]]; simpl in Hr; try lia;
    destruct s as [|a [|b [|c s]]]; simpl; try reflexivity;
    repeat match goal with
           | |- context [ascii_dec ?x ?y] => destruct (ascii_dec x y)
           end; try reflexivity;
    destruct s; reflexivity.
Qed.

Lemma seed_code_nonempty s : seed_code s = true -> s <> "".
Proof.
  unfold seed_code. intros H ->. discriminate H.
Qed.

Lemma seed_code_chars s : seed_code s = true -> seed_chars s = true.
Proof. unfold seed_code. intros H. now apply andb_prop in H. Qed.

(** Case analysis on every [if], [match] and [bind] of the hypotheses that
    say a normalizer step returned. *)
Ltac split_result :=
  repeat match goal with
         | H : bind ?r _ = Ok _ |- _ =>
             let E := fresh "E" in
             destruct r eqn:E; simpl in H; [|discriminate H]
         | H : (if ?b then _ else _) = Ok _ |- _ =>
             let E := fresh "E" in destruct b eqn:E
         | H : of_option _ ?o = Ok _ |- _ =>
             let E := fresh "E" in
             destruct o eqn:E; simpl in H; [|discriminate H]
         | H : Ok _ = Ok _ |- _ => inversion H; subst; clear H
         | H : Raise _ = Ok _ |- _ => discriminate H
         end.

Module SdsFacts.
Import Sds.

(** What [fix_trace] does to one trace: the waveform is untouched, the
    network is the one given, the station is kept or cut to its root. *)
Lemma fix_trace_shape net stations tr tr' :
  fix_trace net stations tr = Ok tr' ->
  same_waveform tr tr' /\ network tr' = net /\
  (station tr' = station tr \/ station tr' = root_of (station tr)).
Proof.
  unfold fix_trace. intros H.
  split_result; simpl; repeat split; auto.
Qed.

Lemma fix_trace_not_irig net stations tr tr' :
  station tr <> "IRIG" -> fix_trace net stations tr = Ok tr' ->
  station tr' <> "IRIG".
Proof.
  intros Hn H. apply fix_trace_shape in H as (_ & _ & [-> | ->]); auto.
  apply root_of_not_irig.
Qed.

(** [fix_trace] raises only on an empty station code (the [station[-1]] of
    line 52, reached because [station[-1:]] of line 51 is then [""]). *)
Lemma fix_trace_raises net stations tr e :
  fix_trace net stations tr = Raise e -> station tr = "" /\ e = IndexError.
Proof.
  unfold fix_trace. intros H.
  destruct (last_slice_in (station (set_network tr net)) "ZNE" &&
            multi_for_root (root_of (station (set_network tr net))) stations) eqn:Ezne.
  - simpl in *. destruct (last_char (station tr)) as [c|] eqn:Ec; simpl in H.
    + pose proof (length_root_of (station tr)) as Hl.
      destruct (String.length (root_of (station tr)) =? 4)%nat eqn:E4;
        [apply Nat.eqb_eq in E4; lia|].
      simpl in H. discriminate H.
    + split; [now apply last_char_none|]. congruence.
  - simpl in H.
    set (tr1 := if negb (String.length (channel tr) =? 3)%nat
                   || negb (third_in_ZNE (channel tr))
                then set_channel (set_network tr net) "EHZ"
                else set_network tr net) in *.
    assert (Hst : station tr1 = station tr)
      by (unfold tr1; destruct (_ || _); reflexivity).
    assert (Hch : exists o, String.get 2 (channel tr1) = Some o).
    { unfold tr1. destruct (String.length (channel tr) =? 3)%nat eqn:E3; simpl.
      - destruct (third_in_ZNE (channel tr)); simpl; [|now exists "Z"%char].
        apply get_2_length_3. now apply Nat.eqb_eq.
      - now exists "Z"%char. }
    replace (if negb (String.length (channel tr) =? 3)%nat
                || negb (third_in_ZNE (channel tr))
             then Ok (set_channel (set_network tr net) "EHZ")
             else Ok (set_network tr net)) with (Ok tr1) in H
      by (unfold tr1; destruct (_ || _); reflexivity).
    simpl in H. rewrite Hst in H.
    destruct (String.length (station tr) =? 4)%nat eqn:E4; simpl in H;
      [|discriminate H].
    destruct (last_char (station tr)) as [c|] eqn:Ec; simpl in H.
    + destruct Hch as [o Ho]. rewrite Ho in H. simpl in H.
      destruct (Ascii.eqb c "L" && _); simpl in H; [discriminate H|].
      destruct (Ascii.eqb c "H" && _); discriminate H.
    + split; [now apply last_char_none|]. congruence.
Qed.

(** The loop of [fix_seedid] keeps exactly the traces that are not IRIG, in
    order, each rewritten by [fix_trace]. *)
Lemma sds_fix_loop_ok net stations st out :
  fix_loop net stations st = Ok out ->
  Forall2 (fun tr tr' => station tr <> "IRIG" /\
                         fix_trace net stations tr = Ok tr')
          (filter (fun tr => negb (is_irig tr)) st) out.
Proof.
  revert out. induction st as [|tr st IH]; simpl; intros out H.
  - inversion H. constructor.
  - unfold is_irig at 1. destruct (String.eqb (station tr) "IRIG") eqn:Ei; simpl.
    + now apply IH.
    + split_result. constructor; auto. split; [|assumption].
      now apply String.eqb_neq.
Qed.

Lemma sds_fix_loop_raises net stations st e :
  fix_loop net stations st = Raise e ->
  e = IndexError /\ exists tr, In tr st /\ station tr = "".
Proof.
  induction st as [|tr st IH]; simpl; intros H; [discriminate H|].
  destruct (String.eqb (station tr) "IRIG").
  - destruct (IH H) as (He & t & Hin & Ht). split; [exact He|].
    exists t. auto.
  - destruct (fix_trace net stations tr) as [tr'|e'] eqn:E; simpl in H.
    + destruct (fix_loop net stations st) as [out|e''] eqn:E'; simpl in H;
        [discriminate H|].
      inversion H; subst. destruct (IH eq_refl) as (He & t & Hin & Ht).
      split; [exact He|]. exists t. auto.
    + inversion H; subst. apply fix_trace_raises in E as [Hs He].
      split; [exact He|]. exists tr. auto.
Qed.

End SdsFacts.

Module LegacyFacts.
Import Legacy.

Lemma write_at done s rest tr :
  write (List.length done) tr (done ++ s :: rest) =
  done ++ mkSlot tr (live s) :: rest.
Proof. induction done as [|d done IH]; simpl; [reflexivity|]. now rewrite IH. Qed.

Lemma nth_error_at {A} (done : list A) s rest :
  nth_error (done ++ s :: rest) (List.length done) = Some s.
Proof. induction done; simpl; auto. Qed.

Lemma trace_eqb_station a b : trace_eqb a b = true -> station a = station b.
Proof.
  unfold trace_eqb. intros H.
  repeat (apply andb_prop in H as [H ?]).
  now apply String.eqb_eq.
Qed.

(** [st.remove(tr)] for an IRIG trace removes that very trace object: the
    traces visited before it are gone or renamed. *)
Lemma remove_from_at done t rest : forall j,
  irig_free done -> station t = "IRIG" ->
  remove_from j (j + List.length done) t (done ++ fresh_slot t :: rest) =
  Ok (done ++ mkSlot t false :: rest).
Proof.
  induction done as [|d done IH]; intros j Hfree Ht; simpl.
  - now rewrite Nat.add_0_r, Nat.eqb_refl.
  - inversion Hfree as [|? ? Hd Hfree']; subst.
    replace (j =? j + S (List.length done))%nat with false
      by (symmetry; apply Nat.eqb_neq; lia).
    simpl. destruct (live d && trace_eqb (obj d) t) eqn:E.
    + apply andb_prop in E as [El Ee]. apply trace_eqb_station in Ee.
      exfalso. apply (Hd El). congruence.
    + replace (j + S (List.length done))%nat with (S j + List.length done)%nat
        by lia.
      now rewrite IH.
Qed.

Lemma remove_at done t rest :
  irig_free done -> station t = "IRIG" ->
  remove (List.length done) t (done ++ fresh_slot t :: rest) =
  Ok (done ++ mkSlot t false :: rest).
Proof. intros Hfree Ht. now apply (remove_from_at done t rest 0%nat). Qed.

(** One iteration, seen from the slot it works on. *)
Lemma fix_at_body net done t rest :
  irig_free done ->
  fix_at net (List.length done) (done ++ fresh_slot t :: rest) =
  if is_irig t then Ok (done ++ mkSlot t false :: rest)
  else
    t' <- legacy_body net (fun tr => multi (done ++ fresh_slot tr :: rest) tr) t ;;
    Ok (done ++ fresh_slot t' :: rest).
Proof.
  intros Hfree. unfold fix_at, is_irig. rewrite nth_error_at. simpl obj.
  destruct (String.eqb (station t) "IRIG") eqn:Ei.
  - apply String.eqb_eq in Ei. now apply remove_at.
  - unfold legacy_body, fresh_slot. rewrite !write_at. simpl live.
    destruct (last_char (station (set_network t net))) as [c|]; simpl;
      [|reflexivity].
    match goal with |- context [if ?b then set_station _ _ else _] =>
      destruct b end; simpl.
    + rewrite !write_at. simpl.
      pose proof (length_root_of (station t)) as Hl.
      destruct (String.length (root_of (station t)) =? 4)%nat eqn:E4;
        [apply Nat.eqb_eq in E4; lia|reflexivity].
    + rewrite !write_at. simpl.
      destruct (String.length (station t) =? 4)%nat; [|reflexivity].
      destruct (last_char (station t)) as [c1|]; simpl; [|reflexivity].
      match goal with |- context [if ?b then Ok (set_station _ _) else _] =>
        destruct b end; simpl.
      * rewrite !write_at. simpl.
        destruct (last_char (root_of (station t))); simpl; [|reflexivity].
        now rewrite write_at.
      * rewrite !write_at. simpl.
        destruct (last_char (station t)); simpl; [|reflexivity].
        now rewrite write_at.
Qed.

Lemma length_4_inv s :
  String.length s = 4%nat ->
  exists a b c d, s = String a (String b (String c (String d EmptyString))).
Proof.
  destruct s as [|a [|b [|c [|d [|e s]]]]]; simpl; try discriminate.
  intros _. now exists a, b, c, d.
Qed.

Lemma body_shape net m t t' :
  legacy_body net m t = Ok t' ->
  same_waveform t t' /\ network t' = net /\
  (station t' = station t \/ station t' = root_of (station t)).
Proof.
  unfold legacy_body. intros H.
  split_result; simpl;
    repeat match goal with
           | |- context [if ?b then _ else _] => destruct b; simpl
           end;
    rewrite ?root_of_idem; repeat split; auto.
Qed.

Lemma body_not_irig net m t t' :
  station t <> "IRIG" -> legacy_body net m t = Ok t' -> station t' <> "IRIG".
Proof.
  intros Hn H. apply body_shape in H as (_ & _ & [-> | ->]); auto.
  apply root_of_not_irig.
Qed.

(** The iteration raises only on an empty station code ([station[-1]] of
    line 41). *)
Lemma body_raises net m t e :
  legacy_body net m t = Raise e -> station t = "" /\ e = IndexError.
Proof.
  unfold legacy_body. cbv zeta. change (station (set_network t net)) with (station t).
  intros H.
  destruct (last_char (station t)) as [c|] eqn:Ec; cbn [bind of_option] in H;
    [|split; [now apply last_char_none|congruence]].
  exfalso.
  destruct (char_in c "ZNE" && _); simpl in H.
  - pose proof (length_root_of (station t)) as Hl.
    destruct (String.length (root_of (station t)) =? 4)%nat eqn:E4;
      [apply Nat.eqb_eq in E4; lia|discriminate H].
  - destruct (String.length (station t) =? 4)%nat eqn:E4; [|discriminate H].
    apply Nat.eqb_eq, length_4_inv in E4 as (a & b & c' & d & E4).
    simpl in H. rewrite E4 in H. simpl in H.
    repeat match type of H with
           | context [if ?b then _ else _] =>
               destruct b; simpl in H; rewrite ?E4 in H; simpl in H
           end; discriminate H.
Qed.

Lemma irig_free_app a b : irig_free a -> irig_free b -> irig_free (a ++ b).
Proof. intros Ha Hb. apply Forall_app. now split. Qed.

(** The loop of [fix_seedid], one trace object at a time. *)
Lemma fix_loop_cons net done t rest :
  irig_free done ->
  fix_loop net (seq (List.length done) (S (List.length rest)))
           (done ++ fresh_slot t :: map fresh_slot rest) =
  if is_irig t then
    fix_loop net (seq (List.length (done ++ [mkSlot t false])) (List.length rest))
             ((done ++ [mkSlot t false]) ++ map fresh_slot rest)
  else
    t' <- legacy_body net (fun tr => multi (done ++ fresh_slot tr :: map fresh_slot rest) tr) t ;;
    fix_loop net (seq (List.length (done ++ [fresh_slot t'])) (List.length rest))
             ((done ++ [fresh_slot t']) ++ map fresh_slot rest).
Proof.
  intros Hfree. simpl. rewrite fix_at_body by exact Hfree.
  rewrite !length_app. simpl. rewrite !Nat.add_1_r.
  destruct (is_irig t); simpl.
  - rewrite <- app_assoc. reflexivity.
  - destruct (legacy_body _ _ t) as [t'|e]; simpl; [|reflexivity].
    rewrite <- app_assoc, length_app. simpl. now rewrite Nat.add_1_r.
Qed.

Lemma contents_app a b : contents (a ++ b) = contents a ++ contents b.
Proof. unfold contents. now rewrite filter_app, map_app. Qed.

Lemma is_irig_false t : is_irig t = false -> station t <> "IRIG".
Proof. unfold is_irig. intros H. now apply String.eqb_neq. Qed.

(** When the loop returns, the stream holds the traces visited before plus
    one renamed trace for every remaining trace that is not IRIG. *)
Lemma legacy_fix_loop_ok net rest : forall done final,
  irig_free done ->
  fix_loop net (seq (List.length done) (List.length rest))
           (done ++ map fresh_slot rest) = Ok final ->
  exists out,
    contents final = contents done ++ out /\
    Forall (fun tr => station tr <> "IRIG") out /\
    Forall2 (fun tr tr' => same_waveform tr tr' /\ network tr' = net /\
               (station tr' = station tr \/ station tr' = root_of (station tr)))
            (filter (fun tr => negb (is_irig tr)) rest) out.
Proof.
  induction rest as [|t rest IH]; intros done final Hfree H.
  - simpl in H. inversion H; subst. exists []. rewrite !app_nil_r.
    repeat split; constructor.
  - simpl List.length in H. simpl map in H.
    rewrite fix_loop_cons in H by exact Hfree. simpl filter.
    destruct (is_irig t) eqn:Ei; simpl.
    + apply IH in H as (out & Hc & Hn & Hf).
      * exists out. rewrite Hc, contents_app. simpl. rewrite app_nil_r. auto.
      * apply irig_free_app; [exact Hfree|]. constructor; [|constructor].
        simpl. discriminate.
    + destruct (legacy_body _ _ t) as [t'|e] eqn:Eb; simpl in H; [|discriminate H].
      pose proof (body_not_irig _ _ _ _ (is_irig_false _ Ei) Eb) as Hn'.
      apply IH in H as (out & Hc & Hn & Hf).
      * exists (t' :: out). rewrite Hc, contents_app. simpl.
        rewrite <- app_assoc. simpl. repeat split; auto.
        constructor; auto. now apply body_shape in Eb.
      * apply irig_free_app; [exact Hfree|]. constructor; [|constructor].
        simpl. auto.
Qed.

Lemma legacy_fix_loop_raises net rest : forall done e,
  irig_free done ->
  fix_loop net (seq (List.length done) (List.length rest))
           (done ++ map fresh_slot rest) = Raise e ->
  e = IndexError /\ exists tr, In tr rest /\ station tr = "".
Proof.
  induction rest as [|t rest IH]; intros done e Hfree H.
  - simpl in H. discriminate H.
  - simpl List.length in H. simpl map in H.
    rewrite fix_loop_cons in H by exact Hfree.
    destruct (is_irig t) eqn:Ei.
    + apply IH in H as (He & tr & Hin & Htr).
      * split; [exact He|]. exists tr. simpl. auto.
      * apply irig_free_app; [exact Hfree|]. constructor; [|constructor].
        simpl. discriminate.
    + destruct (legacy_body _ _ t) as [t'|e'] eqn:Eb; simpl in H.
      * pose proof (body_not_irig _ _ _ _ (is_irig_false _ Ei) Eb) as Hn'.
        apply IH in H as (He & tr & Hin & Htr).
        -- split; [exact He|]. exists tr. simpl. auto.
        -- apply irig_free_app; [exact Hfree|]. constructor; [|constructor].
           simpl. auto.
      * inversion H; subst. apply body_raises in Eb as [Hs He].
        split; [exact He|]. exists t. simpl. auto.
Qed.

(** *** The sibling test on the live stream *)

Lemma tracks_fresh o : tracks o (fresh_slot o).
Proof. split; [now left|discriminate]. Qed.

Lemma tracks_pending rest : Forall2 tracks rest (map fresh_slot rest).
Proof. induction rest; constructor; auto using tracks_fresh. Qed.

(** On station codes, the live count for a root is the count over the codes
    read from the file, unless a removed IRIG trace matched the root. *)
Lemma select_count_tracks r os slots :
  seed_chars r = true -> (String.length r <= 3)%nat ->
  Forall (fun o => seed_chars (station o) = true) os ->
  (forall o, In o os -> station o = "IRIG" -> String.prefix r "IRIG" = false) ->
  Forall2 tracks os slots ->
  select_count slots (r ++ "*")%string =
  List.length (filter (String.prefix r) (map station os)).
Proof.
  intros Hr Hl Hseed Hirig Ht. unfold select_count.
  rewrite upper_app, (upper_seed r Hr). change (upper "*") with "*".
  induction Ht as [|o s os slots [Hst Hlive] Ht IH]; [reflexivity|].
  inversion Hseed as [|? ? Ho Hos]; subst.
  assert (Hm : live s && fnmatch (upper (station (obj s))) (r ++ "*")%string
               = String.prefix r (station o)).
  { rewrite fnmatch_prefix by exact Hr.
    assert (Hu : upper (station (obj s)) = station (obj s)).
    { apply upper_seed. destruct Hst as [-> | ->]; auto using seed_chars_root_of. }
    rewrite Hu.
    assert (Hp : String.prefix r (station (obj s)) = String.prefix r (station o)).
    { destruct Hst as [-> | ->]; auto using prefix_root_of. }
    rewrite Hp. destruct (live s); [reflexivity|]. simpl.
    rewrite (Hlive eq_refl). symmetry. apply (Hirig o); simpl; auto. }
  simpl. rewrite Hm.
  assert (IH' : List.length
            (filter (fun s0 => live s0 && fnmatch (upper (station (obj s0))) (r ++ "*")%string) slots)
          = List.length (filter (String.prefix r) (map station os))).
  { apply IH; [exact Hos|]. intros o' Hin. apply Hirig. now right. }
  destruct (String.prefix r (station o)); simpl; now rewrite IH'.
Qed.

(** The iteration consults the sibling test only for headers whose station
    code is the raw code of the trace or its root. *)
Lemma body_ext net m m' t :
  (forall tr, station tr = station t \/ station tr = root_of (station t) ->
              m tr = m' tr) ->
  legacy_body net m t = legacy_body net m' t.
Proof.
  intros H. unfold legacy_body. cbv zeta.
  change (station (set_network t net)) with (station t).
  destruct (last_char (station t)) as [c|]; [|reflexivity]. cbn [of_option bind].
  rewrite (H (set_network t net)) by now left.
  destruct (char_in c "ZNE" && m' (set_network t net)).
  - pose proof (length_root_of (station t)) as Hl.
    assert (E4 : (String.length (root_of (station t)) =? 4)%nat = false)
      by (apply Nat.eqb_neq; lia).
    simpl. now rewrite E4.
  - simpl.
    destruct (String.length (station t) =? 4)%nat; [|reflexivity].
    destruct (last_char (station t)) as [c1|]; [|reflexivity].
    cbn [of_option bind].
    rewrite (H (set_channel (set_network t net) "EHZ")) by now left.
    destruct (Ascii.eqb c1 "L" && m' _); cbn [of_option bind channel set_channel
      String.get station set_station set_network].
    + destruct (last_char (root_of (station t))); [|reflexivity].
      cbn [of_option bind]. rewrite H; [reflexivity|]. right. reflexivity.
    + destruct (last_char (station t)); [|reflexivity].
      cbn [of_option bind]. rewrite H; [reflexivity|]. left. reflexivity.
Qed.

Section SameSiblings.

Variable st : Stream.
Variable net : string.
Hypothesis Hseed : seed_stations st = true.
Hypothesis Hapart : irig_apart st = true.

Let stations : list string := map station st.

Lemma seed_in tr : In tr st -> seed_code (station tr) = true.
Proof.
  intros Hin. unfold seed_stations in Hseed.
  rewrite forallb_forall in Hseed. now apply Hseed.
Qed.

Lemma apart_in o tr :
  In o st -> station o = "IRIG" -> In tr st -> is_irig tr = false ->
  String.prefix (root_of (station tr)) "IRIG" = false.
Proof.
  intros Ho Hi Htr Hn. unfold irig_apart in Hapart.
  apply orb_prop in Hapart as [H | H].
  - exfalso. apply negb_true_iff in H.
    assert (Hex : existsb is_irig st = true).
    { apply existsb_exists. exists o. split; [exact Ho|].
      unfold is_irig. now apply String.eqb_eq. }
    congruence.
  - rewrite forallb_forall in H. specialize (H tr Htr).
    rewrite Hn in H. simpl in H. now apply negb_true_iff in H.
Qed.

(** Whenever the iteration on [t] asks, the live stream answers what the
    list of station codes read from the file answers. *)
Lemma multi_live done_o done t rest tr :
  st = done_o ++ t :: rest -> Forall2 tracks done_o done ->
  is_irig t = false ->
  station tr = station t \/ station tr = root_of (station t) ->
  multi (done ++ fresh_slot tr :: map fresh_slot rest) tr =
  Sds.multi_for_root (root_of (station t)) stations.
Proof.
  intros Hst Ht Hn Htr. unfold multi, Sds.multi_for_root.
  assert (Hin : In t st) by (rewrite Hst; apply in_elt).
  pose proof (seed_code_chars _ (seed_in t Hin)) as Hs.
  assert (Hroot : root_of (station tr) = root_of (station t))
    by (destruct Htr as [-> | ->]; auto using root_of_idem).
  rewrite Hroot.
  rewrite (select_count_tracks (root_of (station t)) st); [reflexivity| | | | |].
  - now apply seed_chars_root_of.
  - apply length_root_of.
  - apply Forall_forall. intros o Ho. apply seed_code_chars. now apply seed_in.
  - intros o Ho Hi. now apply (apart_in o t).
  - rewrite Hst. apply Forall2_app; [exact Ht|].
    constructor; [|apply tracks_pending].
    split; [exact Htr|discriminate].
Qed.

Lemma fix_loop_snapshot rest : forall done_o done,
  st = done_o ++ rest -> Forall2 tracks done_o done -> irig_free done ->
  fix_loop net (seq (List.length done) (List.length rest))
           (done ++ map fresh_slot rest) =
  (outs <- snapshot_loop st net rest ;; Ok (done ++ outs)).
Proof.
  induction rest as [|t rest IH]; intros done_o done Hst Ht Hfree.
  - simpl. now rewrite app_nil_r.
  - simpl List.length. simpl map. rewrite fix_loop_cons by exact Hfree.
    simpl snapshot_loop. fold stations. destruct (is_irig t) eqn:Ei.
    + rewrite (IH (done_o ++ [t])).
      * destruct (snapshot_loop st net rest); simpl; [|reflexivity].
        now rewrite <- app_assoc.
      * now rewrite <- app_assoc.
      * apply Forall2_app; [exact Ht|]. constructor; [|constructor].
        split; [now left|]. intros _. unfold is_irig in Ei.
        now apply String.eqb_eq.
      * apply irig_free_app; [exact Hfree|]. constructor; [|constructor].
        simpl. discriminate.
    + rewrite (body_ext net _
                 (fun _ => Sds.multi_for_root (root_of (station t)) stations)).
      2:{ intros tr Htr. now apply (multi_live done_o). }
      destruct (legacy_body net _ t) as [t'|e] eqn:Eb; simpl; [|reflexivity].
      rewrite (IH (done_o ++ [t])).
      * destruct (snapshot_loop st net rest); simpl; [|reflexivity].
        now rewrite <- app_assoc.
      * now rewrite <- app_assoc.
      * apply Forall2_app; [exact Ht|]. constructor; [|constructor].
        split; [|discriminate]. now apply body_shape in Eb.
      * apply irig_free_app; [exact Hfree|]. constructor; [|constructor].
        simpl. intros _.
        apply (body_not_irig _ _ _ _ (is_irig_false _ Ei) Eb).
Qed.

End SameSiblings.

(** One trace, both normalizers, the same answer of the sibling test. *)
Lemma trace_agree net stations t :
  station t <> "" ->
  exists a b,
    Sds.fix_trace net stations t = Ok a /\
    legacy_body net (fun _ => Sds.multi_for_root (root_of (station t)) stations) t = Ok b /\
    agree stations t a b.
Proof.
  intros Hne. destruct (last_char_nonempty _ Hne) as [c Hc].
  unfold Sds.fix_trace, legacy_body, agree, zne_rule, last_slice_in, well_formed_channel.
  cbv zeta. change (station (set_network t net)) with (station t).
  rewrite Hc. cbn [of_option bind].
  set (M := Sds.multi_for_root (root_of (station t)) stations).
  pose proof (length_root_of (station t)) as Hl.
  assert (E4 : (String.length (root_of (station t)) =? 4)%nat = false)
    by (apply Nat.eqb_neq; lia).
  destruct (char_in c "ZNE" && M) eqn:Ezne.
  - simpl. rewrite E4. simpl. eexists. eexists.
    repeat split; reflexivity.
  - simpl.
    assert (Hg : (String.length (channel t) =? 3)%nat = true ->
                 exists o, String.get 2 (channel t) = Some o)
      by (intros E; apply get_2_length_3; now apply Nat.eqb_eq).
    destruct (String.length (channel t) =? 3)%nat eqn:E3;
      [destruct (Hg eq_refl) as [o Ho]|]; clear Hg;
      destruct (third_in_ZNE (channel t)) eqn:Et; simpl;
      (destruct (String.length (station t) =? 4)%nat eqn:E4'; simpl;
       [rewrite Hc; simpl; rewrite ?Ho;
        destruct (Ascii.eqb c "L" && M) eqn:EL; simpl;
        [rewrite ?root_of_idem;
         destruct (last_char (root_of (station t))) as [c2|] eqn:Ec2;
         [|exfalso; apply last_char_none in Ec2; unfold root_of in Ec2;
           destruct (station t); [congruence|discriminate Ec2]];
         simpl; destruct (Ascii.eqb c2 "H" && M); simpl
        |rewrite Hc; simpl; destruct (Ascii.eqb c "H" && M); simpl]
       |]);
      (eexists; eexists; split; [reflexivity|]; split; [reflexivity|]);
      simpl; rewrite ?root_of_idem; unfold same_waveform; simpl;
      repeat split; auto; intros [Hf|Hf]; try discriminate Hf; try reflexivity.
Qed.

Lemma loops_agree st net l :
  Forall (fun t => station t <> "") l ->
  exists out_sds outs,
    Sds.fix_loop net (map station st) l = Ok out_sds /\
    snapshot_loop st net l = Ok outs /\
    Forall2 (fun t ab => agree (map station st) t (fst ab) (snd ab))
            (filter (fun tr => negb (is_irig tr)) l)
            (combine out_sds (contents outs)) /\
    List.length out_sds = List.length (filter (fun tr => negb (is_irig tr)) l) /\
    List.length (contents outs) =
      List.length (filter (fun tr => negb (is_irig tr)) l).
Proof.
  induction 1 as [|t l Ht Hl IH]; simpl.
  - exists [], []. repeat split; constructor.
  - destruct IH as (o1 & o2 & E1 & E2 & HF & L1 & L2).
    fold (is_irig t). destruct (is_irig t); simpl.
    + rewrite E1, E2. simpl. exists o1, (mkSlot t false :: o2).
      repeat split; auto.
    + destruct (trace_agree net (map station st) t Ht) as (a & b & Ea & Eb & Hab).
      rewrite Ea, Eb. simpl. rewrite E1, E2. simpl.
      exists (a :: o1), (fresh_slot b :: o2).
      repeat split; simpl; auto.
Qed.

(** On such a file, [fix_seedid] of [02_mseed2sds.py] is the loop with the
    sibling test read off the station codes of the file. *)
Lemma fix_seedid_snapshot st net :
  seed_stations st = true -> irig_apart st = true ->
  Legacy.fix_seedid st net =
  (slots <- snapshot_loop st net st ;; Ok (contents slots)).
Proof.
  intros Hseed Hapart. unfold Legacy.fix_seedid.
  change (fix_loop net (seq 0 (List.length st)) (map (fun tr => mkSlot tr true) st))
    with (fix_loop net (seq (List.length (@nil slot)) (List.length st))
                   ([] ++ map fresh_slot st)).
  rewrite (fix_loop_snapshot st net Hseed Hapart st [] []);
    [|reflexivity|constructor|constructor].
  destruct (snapshot_loop st net st); reflexivity.
Qed.

End LegacyFacts.

(** * The library functions on the examples of ObsPy's documentation *)

Local Open Scope Q_scope.

(** [Trace.trim]: ten samples 0..9 at one sample per second, trimmed to
    [t + 2.000001, t + 7.999999], keep the samples 2..8 - the sample nearest
    to each boundary is selected, also when it lies outside the window. *)
Example trim_selects_nearest_samples :
  trim (one_hertz 0 [0; 1; 2; 3; 4; 5; 6; 7; 8; 9]%Z)
       (midnight + (2000001 # 1000000)) (midnight + (7999999 # 1000000)) =
  Ok (one_hertz 2 [2; 3; 4; 5; 6; 7; 8]%Z).
Proof. vm_compute. reflexivity. Qed.

(** [Stream.merge], gap: [AAAA] and a later [FFFF] give [AAAA----FFFF],
    the dashes being masked, or the fill value when one is given. *)
Example merge_gap_documented :
  samples_of (merge Method0 None
                [one_hertz 0 [1; 1; 1; 1]%Z; one_hertz 8 [2; 2; 2; 2]%Z]) =
    Some ([Val 1; Val 1; Val 1; Val 1; Masked; Masked; Masked; Masked;
           Val 2; Val 2; Val 2; Val 2]) /\
  samples_of (merge Method1 None
                [one_hertz 0 [1; 1; 1; 1]%Z; one_hertz 8 [2; 2; 2; 2]%Z]) =
    Some ([Val 1; Val 1; Val 1; Val 1; Masked; Masked; Masked; Masked;
           Val 2; Val 2; Val 2; Val 2]) /\
  samples_of (merge Method0 (Some 0%Z)
                [one_hertz 0 [1; 1; 1; 1]%Z; one_hertz 8 [2; 2; 2; 2]%Z]) =
    Some ([Val 1; Val 1; Val 1; Val 1; Val 0; Val 0; Val 0; Val 0;
           Val 2; Val 2; Val 2; Val 2]).
Proof. repeat split. Qed.

(** [Stream.merge], overlap with differing data: [AAAAAAAA] and [FFFFFFFF]
    starting four samples later give [AAAA----FFFF] with [method=0] (the
    overlap is discarded) and [AAAAFFFFFFFF] with [method=1] (the data of
    the previous trace is discarded). *)
Example merge_overlap_documented :
  samples_of (merge Method0 None
                [one_hertz 0 [1; 1; 1; 1; 1; 1; 1; 1]%Z;
                 one_hertz 4 [2; 2; 2; 2; 2; 2; 2; 2]%Z]) =
    Some ([Val 1; Val 1; Val 1; Val 1; Masked; Masked; Masked; Masked;
           Val 2; Val 2; Val 2; Val 2]) /\
  samples_of (merge Method1 None
                [one_hertz 0 [1; 1; 1; 1; 1; 1; 1; 1]%Z;
                 one_hertz 4 [2; 2; 2; 2; 2; 2; 2; 2]%Z]) =
    Some ([Val 1; Val 1; Val 1; Val 1; Val 2; Val 2; Val 2; Val 2;
           Val 2; Val 2; Val 2; Val 2]).
Proof. repeat split. Qed.

(** [Stream.merge], contained trace with differing data: [AAAAAAAAAAAA]
    and [FF] inside it give [AAAA--AAAAAA] with [method=0] and
    [AAAAAAAAAAAA] with [method=1]. *)
Example merge_contained_documented :
  samples_of (merge Method0 None
                [one_hertz 0 [1; 1; 1; 1; 1; 1; 1; 1; 1; 1; 1; 1]%Z;
                 one_hertz 4 [2; 2]%Z]) =
    Some ([Val 1; Val 1; Val 1; Val 1; Masked; Masked;
           Val 1; Val 1; Val 1; Val 1; Val 1; Val 1]) /\
  samples_of (merge Method1 None
                [one_hertz 0 [1; 1; 1; 1; 1; 1; 1; 1; 1; 1; 1; 1]%Z;
                 one_hertz 4 [2; 2]%Z]) =
    Some ([Val 1; Val 1; Val 1; Val 1; Val 1; Val 1;
           Val 1; Val 1; Val 1; Val 1; Val 1; Val 1]).
Proof. repeat split. Qed.

(** [Stream.merge], overlap with identical data: the traces are joined. *)
Example merge_identical_overlap_documented :
  samples_of (merge Method0 None
                [one_hertz 0 [1; 2; 3; 4; 5; 6]%Z;
                 one_hertz 4 [5; 6; 7; 8]%Z]) =
    Some ([Val 1; Val 2; Val 3; Val 4; Val 5; Val 6; Val 7; Val 8]).
Proof. reflexivity. Qed.

(** [Stream.merge] refuses traces of one id with differing sampling rates. *)
Example merge_refuses_differing_rates :
  merge Method1 None
        [one_hertz 0 [1; 2]%Z; set_sampling_rate (one_hertz 4 [3; 4]%Z) 2] =
  Raise MergeException.
Proof. reflexivity. Qed.

Local Close Scope Q_scope.

(** * The day splitter *)

Local Open Scope Q_scope.

(** A trace whose end time is not after the midnight that ends the day of
    its start time is returned as it is, in one part; in particular a trace
    that ends exactly at midnight is not split. *)
Lemma split_within_day fuel tr :
  endtime tr <= day_start_of (starttime tr) + 86400 ->
  Sds.split_trace_at_midnights (S fuel) tr = Some (Ok [tr]).
Proof.
  intros H. unfold Sds.split_trace_at_midnights. simpl.
  unfold Sds.split_step.
  apply Qle_bool_iff in H. now rewrite H.
Qed.

(** A pass of the loop that hands back the trace it was given is repeated
    for ever. *)
Lemma split_loop_stuck cur left_part :
  Sds.split_step cur = Ok (Sds.Continue left_part cur) ->
  forall fuel parts, Sds.split_loop fuel cur parts = None.
Proof.
  intros H fuel. induction fuel as [|fuel IH]; intros parts; simpl.
  - reflexivity.
  - rewrite H. apply IH.
Qed.

(** More fuel does not change a result the loop has reached. *)
Lemma split_loop_more_fuel fuel : forall cur parts r,
  Sds.split_loop fuel cur parts = Some r ->
  forall fuel', (fuel <= fuel')%nat -> Sds.split_loop fuel' cur parts = Some r.
Proof.
  induction fuel as [|fuel IH]; intros cur parts r H fuel' Hle; simpl in H.
  - discriminate H.
  - destruct fuel' as [|fuel']; [lia|]. simpl.
    destruct (Sds.split_step cur) as [[last|lp cur']|e]; auto.
    apply IH with (fuel' := fuel') in H; [exact H|lia].
Qed.

(** C1 (fails on the code): on [across_midnight] the splitter returns two
    parts that are not disjoint - the sample nearest to midnight, taken at
    00:00:00.4, ends the first part and starts the second - and the first
    part, which starts before midnight, ends after it. *)
Theorem split_parts_overlap_and_cross_midnight :
  exists p1 p2,
    Sds.split_trace_at_midnights 2 across_midnight = Some (Ok [p1; p2]) /\
    data p1 = [Val 1; Val 2; Val 3] /\
    data p2 = [Val 3; Val 4] /\
    starttime p2 == endtime p1 /\
    starttime p1 < midnight /\ midnight < endtime p1.
Proof.
  eexists. eexists. split; [vm_compute; reflexivity|].
  repeat split; vm_compute; congruence.
Qed.

(** The day-boundary split of [02_mseed2sds.py] trims the same way: the
    sample nearest to midnight is in the stream that is appended to the
    old day and in the stream that starts the new day. *)
Lemma legacy_split_shares_sample :
  exists p1 p2,
    Legacy.split_at_day_end midnight [across_midnight] = ([p1], [p2]) /\
    data p1 = [Val 1; Val 2; Val 3] /\ data p2 = [Val 3; Val 4] /\
    midnight < endtime p1.
Proof.
  eexists. eexists. split; [vm_compute; reflexivity|].
  repeat split.
Qed.

(** C9 (fails on the code): on [just_before_midnight], whose end time is
    after midnight, the loop of the splitter never reaches its [break]:
    the remainder it computes is the trace it started from. *)
Theorem split_does_not_terminate :
  Sds.split_step just_before_midnight =
    Ok (Sds.Continue (set_data just_before_midnight [Val 1])
                     just_before_midnight) /\
  forall fuel, Sds.split_trace_at_midnights fuel just_before_midnight = None.
Proof.
  assert (H : Sds.split_step just_before_midnight =
              Ok (Sds.Continue (set_data just_before_midnight [Val 1])
                               just_before_midnight))
    by (vm_compute; reflexivity).
  split; [exact H|].
  intros fuel. unfold Sds.split_trace_at_midnights.
  now apply split_loop_stuck with (left_part := set_data just_before_midnight [Val 1]).
Qed.

Local Close Scope Q_scope.

(** * The sample-rate reconciler *)

Local Open Scope Q_scope.

Lemma Qltb_lt x y : Qltb x y = true <-> x < y.
Proof.
  unfold Qltb. rewrite negb_true_iff. split.
  - intros H. apply Qnot_le_lt. intros Hle.
    apply Qle_bool_iff in Hle. congruence.
  - intros H. destruct (Qle_bool y x) eqn:E; [|reflexivity].
    apply Qle_bool_iff in E. exfalso. apply (Qlt_not_le _ _ H E).
Qed.

Lemma Qltb_ge x y : Qltb x y = false <-> y <= x.
Proof.
  unfold Qltb. rewrite negb_false_iff. apply Qle_bool_iff.
Qed.

(** Case analysis on the sign of what is under a [Qabs]. *)
Ltac split_abs :=
  repeat match goal with
         | |- context [Qabs ?t] =>
             let H := fresh "Habs" in
             destruct (Qlt_le_dec t 0) as [H | H];
             [rewrite (Qabs_neg t) by (apply Qlt_le_weak; exact H)
             |rewrite (Qabs_pos t) by exact H]
         | H0 : context [Qabs ?t] |- _ =>
             let H := fresh "Habs" in
             destruct (Qlt_le_dec t 0) as [H | H];
             [rewrite (Qabs_neg t) in H0 by (apply Qlt_le_weak; exact H)
             |rewrite (Qabs_pos t) in H0 by exact H]
         end.

Lemma floor_bounds x :
  inject_Z (Qfloor x) <= x /\ x < inject_Z (Qfloor x) + 1.
Proof.
  split; [apply Qfloor_le|].
  pose proof (Qlt_floor x) as H. rewrite inject_Z_plus in H. exact H.
Qed.

Lemma integer_apart (z f : Z) :
  inject_Z z <= inject_Z f \/ inject_Z f + 1 <= inject_Z z.
Proof.
  destruct (Z.le_gt_cases z f) as [H | H].
  - left. now rewrite <- Zle_Qle.
  - right. change 1 with (inject_Z 1). rewrite <- inject_Z_plus, <- Zle_Qle. lia.
Qed.

(** Python's [round] returns an integer nearest to its argument. *)
Lemma py_round_nearest x z :
  Qabs (x - inject_Z (py_round x)) <= Qabs (x - inject_Z z).
Proof.
  unfold py_round.
  destruct (floor_bounds x) as [H1 H2]. set (f := Qfloor x) in *.
  assert (Hf1 : inject_Z (f + 1) == inject_Z f + 1)
    by (rewrite inject_Z_plus; reflexivity).
  destruct (integer_apart z f) as [Hz | Hz].
  - destruct (Qltb (x - inject_Z f) (1 # 2)) eqn:E1;
      [|destruct (Qltb (1 # 2) (x - inject_Z f)) eqn:E2;
        [|destruct (Z.even f)]];
      rewrite ?Hf1; rewrite ?Qltb_lt, ?Qltb_ge in *; split_abs; lra.
  - destruct (Qltb (x - inject_Z f) (1 # 2)) eqn:E1;
      [|destruct (Qltb (1 # 2) (x - inject_Z f)) eqn:E2;
        [|destruct (Z.even f)]];
      rewrite ?Hf1; rewrite ?Qltb_lt, ?Qltb_ge in *; split_abs; lra.
Qed.

Lemma py_round_integer z : py_round (inject_Z z) = z.
Proof.
  unfold py_round. rewrite Qfloor_Z.
  replace (Qltb (inject_Z z - inject_Z z) (1 # 2)) with true; [reflexivity|].
  symmetry. apply Qltb_lt. lra.
Qed.

(** C6 (code bug): 99.9997 Hz, the rate that the docstring of
    [round_sampling_rates] names as the one to round, is 0.0003 Hz away
    from 100 Hz, which is more than the tolerance of [1e-6], so
    [round_sampling_rates] leaves the rate as it is; it does not become
    100 Hz. *)
Theorem jittered_rate_not_reconciled :
  Sds.round_sampling_rate jittered = jittered /\
  ~ sampling_rate (Sds.round_sampling_rate jittered) == 100.
Proof.
  split; [vm_compute; reflexivity|].
  vm_compute. discriminate.
Qed.

(** The same on the numbers the script computes with: the binary64 rate
    nearest to 99.9997 is further from 100 than the binary64 value of
    [1e-6] (the subtraction of two binary64 numbers this close is exact),
    and the rounding leaves it alone. *)
Lemma binary64_rate_not_reconciled :
  py_round binary64_99_9997 = 100%Z /\
  binary64_1e_6 < Qabs (binary64_99_9997 - 100) /\
  Sds.round_sampling_rate jittered_binary64 = jittered_binary64.
Proof. repeat split. Qed.

(** The handler of [append_and_merge], the sibling of
    [round_sampling_rates] in [02_mseed2sds.py], does take 99.9997 Hz to
    100 Hz. *)
Lemma legacy_rounds_jittered_rate :
  sampling_rate (Legacy.round_rate jittered) = 100 /\
  sampling_rate (Legacy.round_rate jittered_binary64) = 100.
Proof. split; reflexivity. Qed.

(** The rule that [round_sampling_rates] does follow: the sampling rate of
    a trace is replaced by the integer nearest to it exactly when the two
    differ by less than the tolerance, and every other trace stays as it
    is. *)
Lemma reconciler_snaps_within_tolerance (tr : Trace) :
  let sr := sampling_rate tr in
  let n := py_round sr in
  (forall z : Z, Qabs (sr - inject_Z n) <= Qabs (sr - inject_Z z)) /\
  (Qabs (sr - inject_Z n) < tolerance ->
   Sds.round_sampling_rate tr = set_sampling_rate tr (inject_Z n)) /\
  (~ Qabs (sr - inject_Z n) < tolerance -> Sds.round_sampling_rate tr = tr).
Proof.
  intros sr n. split; [intros z; apply py_round_nearest|].
  unfold Sds.round_sampling_rate. fold sr. fold n. fold tolerance.
  split.
  - intros H. apply Qltb_lt in H. now rewrite H.
  - intros H. destruct (Qltb (Qabs (sr - inject_Z n)) tolerance) eqn:E;
      [|reflexivity].
    apply Qltb_lt in E. contradiction.
Qed.

(** A rate of 100.0000001 Hz is within the tolerance and becomes 100 Hz.
    The tolerance itself, the rate [1e-6], is not within the tolerance of 0
    and stays. *)
Example reconciler_at_the_tolerance :
  Sds.round_sampling_rate
    (mkTrace "NR" "PIR" "" "EHZ" midnight (1000000001 # 10000000) [Val 1]) =
  mkTrace "NR" "PIR" "" "EHZ" midnight (inject_Z 100) [Val 1] /\
  Sds.round_sampling_rate
    (mkTrace "NR" "PIR" "" "EHZ" midnight binary64_1e_6 [Val 1]) =
  mkTrace "NR" "PIR" "" "EHZ" midnight binary64_1e_6 [Val 1].
Proof. split; vm_compute; reflexivity. Qed.

Local Close Scope Q_scope.

(** * The merge engine *)

Local Open Scope Q_scope.

Lemma round_away_comp x y : x == y -> round_away x = round_away y.
Proof.
  intros H. unfold round_away.
  assert (Hb : Qle_bool 0 x = Qle_bool 0 y).
  { destruct (Qle_bool 0 x) eqn:Ex, (Qle_bool 0 y) eqn:Ey; auto.
    - apply Qle_bool_iff in Ex. rewrite H in Ex. apply Qle_bool_iff in Ex. congruence.
    - apply Qle_bool_iff in Ey. rewrite <- H in Ey. apply Qle_bool_iff in Ey. congruence. }
  rewrite Hb. unfold Qceiling.
  destruct (Qle_bool 0 y); rewrite H; reflexivity.
Qed.

Lemma round_away_integer z : round_away (inject_Z z) = z.
Proof.
  unfold round_away, Qceiling.
  destruct (Qle_bool 0 (inject_Z z)).
  - unfold Qfloor, Qplus, inject_Z. simpl.
    symmetry. apply Z.div_unique with (r := 1%Z); lia.
  - unfold Qfloor, Qopp, Qminus, Qplus, Qopp, inject_Z. simpl.
    assert (H : ((- (z * 2 + -1)) / 2 = - z)%Z)
      by (symmetry; apply Z.div_unique with (r := 1%Z); lia).
    rewrite H. lia.
Qed.

Lemma string_compare_refl s : String.compare s s = Eq.
Proof.
  induction s as [|c s IH]; simpl; [reflexivity|].
  assert (Hc : Ascii.compare c c = Eq).
  { unfold Ascii.compare. apply N.compare_refl. }
  now rewrite Hc.
Qed.

Lemma string_leb_then_refl s next : string_leb_then s s next = next.
Proof. unfold string_leb_then. now rewrite string_compare_refl. Qed.

Lemma same_id_trace_id a b : same_id a b -> trace_id a = trace_id b.
Proof. intros (H1 & H2 & H3 & H4). unfold trace_id. congruence. Qed.

Lemma npts_nonempty tr : data tr <> [] -> (npts tr =? 0)%Z = false.
Proof.
  unfold npts. destruct (data tr); [congruence|]. intros _. reflexivity.
Qed.

Lemma merge_order_earlier a b :
  same_id a b -> starttime a < starttime b ->
  merge_order a b = true /\ merge_order b a = false.
Proof.
  intros (H1 & H2 & H3 & H4) Hlt. unfold merge_order.
  rewrite H1, H2, H3, H4, !string_leb_then_refl. unfold Q_leb_then.
  split.
  - apply Qltb_lt in Hlt. now rewrite Hlt.
  - replace (Qltb (starttime b) (starttime a)) with false
      by (symmetry; apply Qltb_ge; now apply Qlt_le_weak).
    replace (Qeq_bool (starttime b) (starttime a)) with false; [reflexivity|].
    symmetry. destruct (Qeq_bool (starttime b) (starttime a)) eqn:E; [|reflexivity].
    apply Qeq_bool_iff in E. rewrite E in Hlt. exfalso. apply (Qlt_irrefl _ Hlt).
Qed.

(** Merging a stream of two non-empty traces of one channel with equal
    sampling rates adds the later-starting trace to the earlier-starting
    one, in whichever order the stream holds them. *)
Lemma merge_two method fill_value A B :
  same_id A B -> sampling_rate B == sampling_rate A ->
  data A <> [] -> data B <> [] -> starttime A < starttime B ->
  merge method fill_value [A; B] = Ok [add method fill_value A B] /\
  merge method fill_value [B; A] = Ok [add method fill_value A B].
Proof.
  intros Hid Hsr HA HB Hlt.
  pose proof (npts_nonempty A HA) as HnA.
  pose proof (npts_nonempty B HB) as HnB.
  pose proof (same_id_trace_id A B Hid) as Hids.
  destruct (merge_order_earlier A B Hid Hlt) as [Hab Hba].
  assert (Hq : Qeq_bool (sampling_rate B) (sampling_rate A) = true)
    by now apply Qeq_bool_iff.
  assert (Hq' : Qeq_bool (sampling_rate A) (sampling_rate B) = true)
    by (apply Qeq_bool_iff; now symmetry).
  unfold merge. split.
  - cbn [merge_checks lookup_rate]. rewrite HnA, HnB. cbn [lookup_rate].
    rewrite <- Hids, String.eqb_refl, Hq. cbn [bind].
    cbn [List.length seq combine stable_sort fold_right insert_sorted snd].
    rewrite Hab.
    unfold group_by_id. cbn [fold_left snd]. rewrite HnA, HnB.
    cbn [group_add snd]. rewrite <- Hids, String.eqb_refl.
    cbn [flat_map merge_group snd fold_left app stable_sort fold_right
         insert_sorted map].
    reflexivity.
  - cbn [merge_checks lookup_rate]. rewrite HnA, HnB. cbn [lookup_rate].
    rewrite Hids, String.eqb_refl, Hq'. cbn [bind].
    cbn [List.length seq combine stable_sort fold_right insert_sorted snd].
    rewrite Hba.
    unfold group_by_id. cbn [fold_left snd]. rewrite HnA, HnB.
    cbn [group_add snd]. rewrite <- Hids, String.eqb_refl.
    cbn [flat_map merge_group snd fold_left app stable_sort fold_right
         insert_sorted map].
    reflexivity.
Qed.

Lemma rate_nonzero sr : 0 < sr -> ~ sr == 0.
Proof. intros H H0. rewrite H0 in H. apply (Qlt_irrefl _ H). Qed.

Lemma endtime_nonempty tr :
  data tr <> [] ->
  endtime tr = starttime tr + inject_Z (npts tr - 1) / sampling_rate tr.
Proof. intros H. unfold endtime. now rewrite npts_nonempty. Qed.

Lemma npts_pos tr : data tr <> [] -> (1 <= npts tr)%Z.
Proof. unfold npts. destruct (data tr); [congruence|]. simpl. lia. Qed.

Lemma samples_later sr (a b : Z) :
  0 < sr -> (a < b)%Z -> inject_Z a / sr < inject_Z b / sr.
Proof.
  intros Hsr Hab. unfold Qdiv.
  apply Qmult_lt_compat_r; [now apply Qinv_lt_0_compat|].
  now rewrite <- Zlt_Qlt.
Qed.

Lemma samples_not_earlier sr (a b : Z) :
  0 < sr -> (a <= b)%Z -> inject_Z a / sr <= inject_Z b / sr.
Proof.
  intros Hsr Hab. unfold Qdiv.
  apply Qmult_le_compat_r; [now rewrite <- Zle_Qle|].
  apply Qlt_le_weak. now apply Qinv_lt_0_compat.
Qed.

Lemma samples_add sr (a b : Z) :
  inject_Z (a + b) / sr == inject_Z a / sr + inject_Z b / sr.
Proof. rewrite inject_Z_plus. unfold Qdiv. ring. Qed.

Lemma zero_samples sr : inject_Z 0 / sr == 0.
Proof. unfold Qdiv. change (inject_Z 0) with 0. apply Qmult_0_l. Qed.

(** A trace that starts [g + 1] sample intervals after the last sample of
    another leaves a gap of [g] samples, which [add] fills with the chunk
    that [fill_value] asks for. *)
Lemma add_gap method fill_value A B (g : Z) :
  0 < sampling_rate A -> data A <> [] -> (0 <= g)%Z ->
  starttime B == endtime A + inject_Z (g + 1) / sampling_rate A ->
  starttime A < starttime B /\
  add method fill_value A B =
    set_data A (data A ++ empty_chunk (Z.to_nat g) fill_value ++ data B)%list.
Proof.
  intros Hsr HA Hg Hgap.
  pose proof (npts_pos A HA) as Hn.
  assert (Hlt : starttime A < starttime B).
  { rewrite Hgap, (endtime_nonempty A HA).
    pose proof (samples_not_earlier _ 0 (npts A - 1) Hsr ltac:(lia)) as H1.
    pose proof (samples_later _ 0 (g + 1) Hsr ltac:(lia)) as H2.
    rewrite zero_samples in H1, H2. lra. }
  split; [exact Hlt|].
  unfold add.
  replace (Qle_bool (starttime A) (starttime B)) with true
    by (symmetry; apply Qle_bool_iff; now apply Qlt_le_weak).
  assert (Hd : round_away ((starttime B - endtime A) * sampling_rate A) = (g + 1)%Z).
  { rewrite <- (round_away_integer (g + 1)). apply round_away_comp.
    rewrite Hgap. field. now apply rate_nonzero. }
  rewrite Hd. replace (g + 1 - 1)%Z with g by lia.
  replace (g <? 0)%Z with false by (symmetry; apply Z.ltb_ge; lia).
  cbn [andb].
  destruct (g =? 0)%Z eqn:E0; [|reflexivity].
  apply Z.eqb_eq in E0. subst g. reflexivity.
Qed.

(** A trace of the same rate that starts [k] samples into another one and
    ends after it overlaps its last [n - k] samples. *)
Lemma add_overlap method fill_value A B (k : nat) :
  0 < sampling_rate A -> sampling_rate B == sampling_rate A ->
  data B <> [] ->
  (0 < k < List.length (data A))%nat ->
  (List.length (data A) < k + List.length (data B))%nat ->
  starttime B == starttime A + inject_Z (Z.of_nat k) / sampling_rate A ->
  let n := List.length (data A) in
  starttime A < starttime B /\
  add method fill_value A B =
    set_data A
      (if overlap_equal (skipn k (data A)) (firstn (n - k) (data B)) then
         firstn k (data A) ++ data B
       else
         match method with
         | Method0 =>
             firstn k (data A) ++ empty_chunk (n - k) fill_value
               ++ skipn (n - k) (data B)
         | Method1 => firstn k (data A) ++ data B
         end)%list.
Proof.
  intros Hsr Hrate HB Hk Hlen Hov n.
  assert (HA : data A <> []) by (intros E; rewrite E in Hk; simpl in Hk; lia).
  assert (Hlt : starttime A < starttime B).
  { rewrite Hov.
    pose proof (samples_later _ 0 (Z.of_nat k) Hsr ltac:(lia)) as H1.
    rewrite zero_samples in H1. lra. }
  split; [exact Hlt|].
  unfold add.
  replace (Qle_bool (starttime A) (starttime B)) with true
    by (symmetry; apply Qle_bool_iff; now apply Qlt_le_weak).
  assert (HnA : npts A = Z.of_nat n) by reflexivity.
  assert (Hd : round_away ((starttime B - endtime A) * sampling_rate A)
               = (Z.of_nat k - (npts A - 1))%Z).
  { rewrite <- (round_away_integer (Z.of_nat k - (npts A - 1))).
    apply round_away_comp.
    rewrite Hov, (endtime_nonempty A HA).
    unfold Zminus. repeat rewrite ?inject_Z_plus, ?inject_Z_opp.
    change (inject_Z 1) with 1.
    field. now apply rate_nonzero. }
  rewrite Hd.
  assert (Hends : Qltb (endtime A) (endtime B) = true).
  { apply Qltb_lt. rewrite (endtime_nonempty A HA), (endtime_nonempty B HB).
    rewrite Hov, Hrate.
    assert (Hz : (npts A - 1 < Z.of_nat k + (npts B - 1))%Z)
      by (unfold npts; lia).
    pose proof (samples_later (sampling_rate A) _ _ Hsr Hz) as H1.
    rewrite samples_add in H1. lra. }
  rewrite Hends.
  replace (Z.of_nat k - (npts A - 1) - 1 <? 0)%Z with true
    by (symmetry; apply Z.ltb_lt; rewrite HnA; lia).
  cbn [andb]. fold n.
  replace (Z.to_nat (Z.abs (Z.of_nat k - (npts A - 1) - 1))) with (n - k)%nat
    by (rewrite HnA; lia).
  replace (n - (n - k))%nat with k by lia.
  destruct (overlap_equal _ _); [reflexivity|].
  destruct method; [reflexivity|].
  destruct (data B); [congruence|reflexivity].
Qed.

(** C2 (fails on the code): [append_and_merge] of [02_mseed2sds.py] merges
    with [fill_value=0]; the two missing samples between [early] and [late]
    come out as zeros. *)
Lemma legacy_merge_zero_fills_gap :
  Legacy.append_and_merge [early] [late] =
  Ok [set_data early [Val 1; Val 2; Val 3; Val 0; Val 0; Val 7; Val 8]].
Proof. vm_compute. reflexivity. Qed.

(** C2, amended: two non-empty fragments of one channel and one sampling
    rate, the second starting [g + 1] sample intervals after the last sample
    of the first ([g] samples are missing, [g > 0]).  The merge of
    [20_twominutemseed2suds.py] ([method=1], no fill value) yields one trace
    in which the [g] missing samples are masked, neither zeros nor
    interpolated values, in whichever order the bin holds the fragments.
    The merge of [02_mseed2sds.py] ([method=0, fill_value=0]) yields one
    trace in which they are zeros. *)
Theorem gap_is_masked_by_sds_and_zero_filled_by_legacy A B (g : Z) :
  same_id A B -> sampling_rate B == sampling_rate A ->
  0 < sampling_rate A -> data A <> [] -> data B <> [] -> (0 < g)%Z ->
  starttime B == endtime A + inject_Z (g + 1) / sampling_rate A ->
  Sds.merge_bin [A; B] =
    Ok [set_data A (data A ++ repeat Masked (Z.to_nat g) ++ data B)%list] /\
  Sds.merge_bin [B; A] =
    Ok [set_data A (data A ++ repeat Masked (Z.to_nat g) ++ data B)%list] /\
  Legacy.append_and_merge [A] [B] =
    Ok [set_data A (data A ++ repeat (Val 0) (Z.to_nat g) ++ data B)%list].
Proof.
  intros Hid Hrate Hsr HA HB Hg Hgap.
  assert (Hg' : (0 <= g)%Z) by lia.
  destruct (add_gap Method1 None A B g Hsr HA Hg' Hgap) as [Hlt H1].
  destruct (add_gap Method0 (Some 0%Z) A B g Hsr HA Hg' Hgap) as [_ H0].
  destruct (merge_two Method1 None A B Hid Hrate HA HB Hlt) as [M1 M1'].
  destruct (merge_two Method0 (Some 0%Z) A B Hid Hrate HA HB Hlt) as [M0 _].
  unfold Sds.merge_bin, Legacy.append_and_merge. cbn [app].
  rewrite M1, M1', M0, H1, H0. repeat split.
Qed.

Lemma gap_is_masked_by_sds_and_zero_filled_by_legacy_witness :
  Sds.merge_bin [early; late] =
    Ok [set_data early [Val 1; Val 2; Val 3; Masked; Masked; Val 7; Val 8]].
Proof.
  refine (proj1 (gap_is_masked_by_sds_and_zero_filled_by_legacy
                   early late 2 _ _ _ _ _ _ _)).
  - repeat split.
  - reflexivity.
  - reflexivity.
  - discriminate.
  - discriminate.
  - reflexivity.
  - vm_compute. reflexivity.
Defined.

(** C4 (fails on the code): the merged trace spans fifteen seconds, but the
    sample of the sixth second, which both fragments cover, is the one of
    the later fragment; with the merge of [02_mseed2sds.py] it is the fill
    value 0.  The fragment that came first does not win. *)
Lemma overlap_not_first_writer_wins :
  nth_error (data first_ten) 5 = Some (Val 1) /\
  nth_error (data second_ten) 0 = Some (Val 2) /\
  (exists M, Sds.merge_bin [first_ten; second_ten] = Ok [M] /\
             List.length (data M) = 15%nat /\
             nth_error (data M) 5 = Some (Val 2)) /\
  (exists M, Legacy.append_and_merge [first_ten] [second_ten] = Ok [M] /\
             List.length (data M) = 15%nat /\
             nth_error (data M) 5 = Some (Val 0)).
Proof.
  repeat split; try (eexists; split; [vm_compute; reflexivity|]);
    repeat split.
Qed.

(** C4, amended: fragment [A] covers ten seconds from [t0] on and fragment
    [B] of the same channel covers ten seconds from [t0 + 5 s] on, both at
    [r] samples per second.  The merge of [20_twominutemseed2suds.py]
    yields one trace that starts at [t0], spans fifteen seconds, and holds
    the first five seconds of [A] followed by all of [B]: the samples of
    the overlapped five seconds are those of [B], the fragment that starts
    later, whichever fragment the bin holds first.  The merge of
    [02_mseed2sds.py] keeps the overlapped samples if the two fragments
    agree on them and replaces them by zeros if not. *)
Theorem overlap_takes_later_fragment A B (r : Z) :
  same_id A B -> (0 < r)%Z ->
  sampling_rate A == inject_Z r -> sampling_rate B == inject_Z r ->
  List.length (data A) = Z.to_nat (10 * r) ->
  List.length (data B) = Z.to_nat (10 * r) ->
  starttime B == starttime A + 5 ->
  let k := Z.to_nat (5 * r) in
  exists M,
    Sds.merge_bin [A; B] = Ok [M] /\ Sds.merge_bin [B; A] = Ok [M] /\
    M = set_data A (firstn k (data A) ++ data B)%list /\
    (forall i, (i < k)%nat ->
               nth_error (data M) (k + i) = nth_error (data B) i) /\
    List.length (data M) = Z.to_nat (15 * r) /\
    endtime M + 1 / inject_Z r == starttime A + 15 /\
    Legacy.append_and_merge [A] [B] =
      Ok [set_data A
            (if overlap_equal (skipn k (data A)) (firstn k (data B))
             then firstn k (data A) ++ data B
             else firstn k (data A) ++ repeat (Val 0) k ++ skipn k (data B))%list].
Proof.
  intros Hid Hr HsrA HsrB HlA HlB Hstart k.
  assert (Hsr : 0 < sampling_rate A).
  { rewrite HsrA. change 0 with (inject_Z 0). rewrite <- Zlt_Qlt. exact Hr. }
  assert (Hrate : sampling_rate B == sampling_rate A) by (rewrite HsrA; exact HsrB).
  assert (Hr0 : ~ inject_Z r == 0).
  { rewrite <- HsrA. now apply rate_nonzero. }
  assert (HA : data A <> [])
    by (intros E; rewrite E in HlA; cbn [List.length] in HlA; lia).
  assert (HB : data B <> [])
    by (intros E; rewrite E in HlB; cbn [List.length] in HlB; lia).
  assert (Hk : (0 < k < List.length (data A))%nat) by (unfold k; lia).
  assert (Hlen : (List.length (data A) < k + List.length (data B))%nat)
    by (unfold k; lia).
  assert (Hov : starttime B ==
                starttime A + inject_Z (Z.of_nat k) / sampling_rate A).
  { rewrite Hstart, HsrA. unfold k. rewrite Z2Nat.id by lia.
    rewrite inject_Z_mult. change (inject_Z 5) with 5. field. exact Hr0. }
  assert (Hnk : (List.length (data A) - k)%nat = k) by (unfold k; lia).
  destruct (add_overlap Method1 None A B k Hsr Hrate HB Hk Hlen Hov) as [Hlt H1].
  destruct (add_overlap Method0 (Some 0%Z) A B k Hsr Hrate HB Hk Hlen Hov)
    as [_ H0].
  cbv zeta in H1, H0. rewrite Hnk in H1, H0.
  destruct (merge_two Method1 None A B Hid Hrate HA HB Hlt) as [M1 M1'].
  destruct (merge_two Method0 (Some 0%Z) A B Hid Hrate HA HB Hlt) as [M0 _].
  assert (E1 : add Method1 None A B = set_data A (firstn k (data A) ++ data B)%list).
  { rewrite H1. now destruct (overlap_equal _ _). }
  exists (set_data A (firstn k (data A) ++ data B)%list).
  unfold Sds.merge_bin, Legacy.append_and_merge. cbn [app].
  rewrite M1, M1', M0, E1, H0.
  assert (Hfk : List.length (firstn k (data A)) = k)
    by (rewrite length_firstn; lia).
  assert (HlM : List.length (firstn k (data A) ++ data B)%list = Z.to_nat (15 * r))
    by (rewrite length_app, Hfk, HlB; unfold k; lia).
  repeat split.
  - intros i Hi. cbn [data set_data].
    rewrite nth_error_app2 by lia. f_equal. lia.
  - exact HlM.
  - assert (HM : data (set_data A (firstn k (data A) ++ data B)%list) <> []).
    { cbn [data set_data]. intros E. rewrite E in HlM.
      cbn [List.length] in HlM. lia. }
    rewrite (endtime_nonempty _ HM). unfold npts. cbn [data set_data starttime
      sampling_rate]. rewrite HlM, Z2Nat.id by lia. rewrite HsrA.
    unfold Zminus. rewrite inject_Z_plus, inject_Z_mult.
    change (inject_Z 15) with 15. change (inject_Z (- (1))) with (- (1)).
    field. exact Hr0.
Qed.

Lemma overlap_takes_later_fragment_witness :
  exists M,
    Sds.merge_bin [first_ten; second_ten] = Ok [M] /\
    data M = (repeat (Val 1) 5 ++ repeat (Val 2) 10)%list.
Proof.
  destruct (overlap_takes_later_fragment first_ten second_ten 1)
    as (M & H1 & _ & HM & _).
  - repeat split.
  - reflexivity.
  - reflexivity.
  - reflexivity.
  - reflexivity.
  - reflexivity.
  - vm_compute. reflexivity.
  - exists M. split; [exact H1|]. rewrite HM. reflexivity.
Defined.

Local Close Scope Q_scope.

(** * The merge-and-write loop *)

Lemma after_files_counts write_ok files : forall run,
  Sds.wrote (after_files write_ok files run) =
    (Sds.wrote run +
     List.length (filter (Sds.write_succeeds write_ok) files))%nat /\
  Sds.archive (after_files write_ok files run) =
    Sds.archive run ++ filter (Sds.write_succeeds write_ok) files /\
  Sds.errors (after_files write_ok files run) =
    Sds.errors run ++
    map fst (filter (fun f => negb (Sds.write_succeeds write_ok f)) files).
Proof.
  induction files as [|f files IH]; intros run; simpl.
  - rewrite !app_nil_r. repeat split; lia.
  - destruct (IH (if Sds.write_succeeds write_ok f
                  then Sds.written run f else Sds.failed run f))
      as (H1 & H2 & H3).
    unfold after_files in *. rewrite H1, H2, H3.
    destruct (Sds.write_succeeds write_ok f); simpl;
      rewrite <- ?app_assoc; repeat split; lia.
Qed.

(** Bins that merge are written, or reported, one after the other, and the
    loop goes on with the bins after them. *)
Lemma write_bins_prepared mkdir_ok write_ok before files :
  Forall2 (prepared mkdir_ok) before files ->
  forall rest run,
    Sds.write_bins mkdir_ok write_ok (before ++ rest) run =
    Sds.write_bins mkdir_ok write_ok rest (after_files write_ok files run).
Proof.
  induction 1 as [|item file before files [Hf Hm] _ IH]; intros rest run.
  - reflexivity.
  - simpl. unfold Sds.write_bin. rewrite Hf. simpl. rewrite Hm.
    destruct (Sds.write_succeeds write_ok file); apply IH.
Qed.

(** C5 (fails on the code): the bin of station PIR holds sampling rates of
    1 Hz and 2 Hz, which rounding does not reconcile; the second
    [st.merge] is outside the [try], its exception leaves [process], and
    the bin of station XYZ, which is written when the 2 Hz file is absent,
    is never written. *)
Lemma merge_failure_aborts_run :
  (exists run,
     Sds.process (fun _ => true) (fun _ => true) 2 four_files "NR" =
       Some (Sds.Aborted MergeException run) /\
     map key_station (Sds.archive run) = ["ABC"]) /\
  (exists run,
     Sds.process (fun _ => true) (fun _ => true) 2 three_files "NR" =
       Some (Sds.Finished run) /\
     map key_station (Sds.archive run) = ["ABC"; "PIR"; "XYZ"]).
Proof.
  split; eexists; (split; [vm_compute; reflexivity|reflexivity]).
Qed.

(** C5, amended: as long as the bins merge (at the first attempt or after
    the sampling rates were rounded) and their directories can be created,
    the loop of [process] goes through them one after the other; a bin
    whose write fails is not written and not counted, its failure is
    reported, and the loop goes on.  A bin that does not merge even after
    rounding stops the run there: the exception leaves [process] and no
    later bin is written. *)
Theorem write_failures_are_skipped_merge_failures_abort
        mkdir_ok write_ok before files run :
  Forall2 (prepared mkdir_ok) before files ->
  let run' := after_files write_ok files run in
  let ok := Sds.write_succeeds write_ok in
  Sds.wrote run' = (Sds.wrote run + List.length (filter ok files))%nat /\
  Sds.archive run' = Sds.archive run ++ filter ok files /\
  Sds.errors run' =
    Sds.errors run ++ map fst (filter (fun f => negb (ok f)) files) /\
  Sds.write_bins mkdir_ok write_ok before run = Sds.Finished run' /\
  (forall item later e,
     Sds.day_file item = Raise e ->
     Sds.write_bins mkdir_ok write_ok (before ++ item :: later) run =
       Sds.Aborted e run').
Proof.
  intros Hprep run' ok.
  destruct (after_files_counts write_ok files run) as (H1 & H2 & H3).
  repeat split; auto.
  - rewrite <- (app_nil_r before).
    now rewrite (write_bins_prepared mkdir_ok write_ok before files Hprep).
  - intros item later e He.
    rewrite (write_bins_prepared mkdir_ok write_ok before files Hprep).
    simpl. unfold Sds.write_bin. now rewrite He.
Qed.

Lemma write_failures_are_skipped_merge_failures_abort_witness :
  let write_ok := fun f => String.eqb (key_station f) "XYZ" in
  let run := Sds.mkRun [] 2 2 0 [] [] in
  Sds.write_bins (fun _ => true) write_ok [abc_bin; xyz_bin] run =
    Sds.Finished (after_files write_ok [abc_bin; xyz_bin] run) /\
  map key_station (Sds.archive (after_files write_ok [abc_bin; xyz_bin] run))
    = ["XYZ"].
Proof.
  intros write_ok run. split; [|reflexivity].
  refine (proj1 (proj2 (proj2 (proj2
            (write_failures_are_skipped_merge_failures_abort
               (fun _ => true) write_ok [abc_bin; xyz_bin]
               [abc_bin; xyz_bin] run _))))).
  repeat constructor.
Defined.

(** A bin with a gap merges into a trace with masked samples, on which
    [st.write] raises: the day file is not written, whatever the encoder
    and the file system would do, and the failure is reported. *)
Lemma bin_with_gap_is_not_written write_ok :
  let run := Sds.mkRun [] 2 2 0 [] [] in
  exists run',
    Sds.write_bins (fun _ => true) write_ok [gap_bin] run = Sds.Finished run' /\
    Sds.wrote run' = 0%nat /\ Sds.archive run' = [] /\
    Sds.errors run' = [fst gap_bin].
Proof.
  intros run. eexists. split.
  - vm_compute. reflexivity.
  - repeat split.
Qed.

(** * Binning keeps station codes *)

Lemma ltrim_station tr t : station (ltrim tr t) = station tr.
Proof.
  unfold ltrim. destruct (_ <=? 0)%Z; [reflexivity|].
  destruct (Qltb _ _); reflexivity.
Qed.

Lemma rtrim_station tr t : station (rtrim tr t) = station tr.
Proof.
  unfold rtrim. destruct (0 <=? _)%Z; [reflexivity|].
  destruct (Qltb _ _); reflexivity.
Qed.

Lemma trim_station tr t1 t2 tr' :
  trim tr t1 t2 = Ok tr' -> station tr' = station tr.
Proof.
  unfold trim. destruct (Qltb t2 t1); [discriminate|].
  intros H. inversion H. now rewrite rtrim_station, ltrim_station.
Qed.

Lemma split_loop_station fuel : forall cur parts segs,
  Sds.split_loop fuel cur parts = Some (Ok segs) ->
  Forall (fun p => station p = station cur) parts ->
  Forall (fun p => station p = station cur) segs.
Proof.
  induction fuel as [|fuel IH]; intros cur parts segs H Hparts; simpl in H.
  - discriminate H.
  - unfold Sds.split_step in H.
    destruct (Qle_bool _ _).
    + inversion H; subst. apply Forall_app. split; [exact Hparts|].
      constructor; [reflexivity|constructor].
    + destruct (trim cur (starttime cur) _) as [lp|e] eqn:El; simpl in H;
        [|discriminate H].
      destruct (trim cur _ (endtime cur)) as [cur'|e] eqn:Ec; simpl in H;
        [|discriminate H].
      apply trim_station in El, Ec.
      apply IH in H.
      * rewrite Ec in H. exact H.
      * rewrite Ec. apply Forall_app. split; [exact Hparts|].
        constructor; [exact El|constructor].
Qed.

Lemma bins_append_irig_free seg : forall bins,
  not_irig seg -> irig_free_bins bins ->
  irig_free_bins (Sds.bins_append (Sds.key_of seg) seg bins).
Proof.
  intros bins Hseg. induction 1 as [|[k st] bins [Hk Hst] Hbins IH]; simpl.
  - constructor; [|constructor]. split; [exact Hseg|].
    constructor; [exact Hseg|constructor].
  - destruct k as [[[[[n1 s1] l1] c1] y1] j1]. unfold Sds.key_of at 1.
    destruct (_ && _).
    + constructor; [|exact Hbins]. split; [exact Hk|].
      apply Forall_app. split; [exact Hst|]. constructor; [exact Hseg|constructor].
    + constructor; [|exact IH]. split; assumption.
Qed.

Lemma bin_stream_irig_free fuel st : forall bins bins',
  Forall not_irig st -> irig_free_bins bins ->
  Sds.bin_stream fuel st bins = Some (Ok bins') -> irig_free_bins bins'.
Proof.
  induction st as [|tr st IH]; intros bins bins' Hst Hbins H; simpl in H.
  - now inversion H; subst.
  - inversion Hst as [|? ? Htr Hst']; subst.
    destruct (Sds.split_trace_at_midnights fuel _) as [[segs|e]|] eqn:Es;
      try discriminate H.
    apply (IH _ _ Hst') in H; [exact H|].
    apply split_loop_station in Es; [|constructor].
    simpl in Es. clear H IH.
    revert bins Hbins. induction Es as [|seg segs Hseg _ IHs]; intros bins Hbins.
    + exact Hbins.
    + simpl. apply IHs. apply bins_append_irig_free; [|exact Hbins].
      unfold not_irig. now rewrite Hseg.
Qed.

Lemma insert_sorted_Forall {A} (leb : A -> A -> bool) (P : A -> Prop) x l :
  P x -> Forall P l -> Forall P (insert_sorted leb x l).
Proof.
  intros Hx. induction 1 as [|y l Hy Hl IH]; simpl.
  - constructor; [exact Hx|constructor].
  - destruct (leb x y); repeat constructor; auto.
Qed.

Lemma stable_sort_Forall {A} (leb : A -> A -> bool) (P : A -> Prop) l :
  Forall P l -> Forall P (stable_sort leb l).
Proof.
  induction 1 as [|x l Hx Hl IH]; simpl; [constructor|].
  now apply insert_sorted_Forall.
Qed.

Lemma prepared_stream_not_irig st :
  Forall not_irig st ->
  Forall not_irig
    (stable_sort Sds.file_order
       (Sds.fix_masked_arrays (Sds.round_sampling_rates st))).
Proof.
  intros H. apply stable_sort_Forall.
  unfold Sds.fix_masked_arrays, Sds.round_sampling_rates.
  rewrite map_map. apply Forall_map.
  eapply Forall_impl; [|exact H].
  intros tr Htr. unfold not_irig, Sds.round_sampling_rate in *.
  destruct (Qltb _ _); exact Htr.
Qed.

Lemma sds_fix_seedid_ok st net out :
  Sds.fix_seedid st net = Ok out ->
  Forall not_irig out /\
  Forall2 same_waveform (filter (fun tr => negb (is_irig tr)) st) out.
Proof.
  unfold Sds.fix_seedid. intros H. apply SdsFacts.sds_fix_loop_ok in H.
  induction H as [|tr tr' l l' [Hn Htr] _ [IH1 IH2]].
  - split; constructor.
  - split; constructor; auto.
    + now apply (SdsFacts.fix_trace_not_irig net (map station st) tr).
    + now apply SdsFacts.fix_trace_shape in Htr.
Qed.

Lemma legacy_fix_seedid_ok st net out :
  Legacy.fix_seedid st net = Ok out ->
  Forall not_irig out /\
  Forall2 same_waveform (filter (fun tr => negb (is_irig tr)) st) out.
Proof.
  unfold Legacy.fix_seedid. intros H.
  destruct (Legacy.fix_loop _ _ _) as [slots|e] eqn:E; simpl in H;
    [|discriminate H].
  inversion H; subst; clear H.
  change (Legacy.fix_loop net (seq 0 (List.length st))
            (map (fun tr => Legacy.mkSlot tr true) st))
    with (Legacy.fix_loop net (seq (List.length (@nil Legacy.slot)) (List.length st))
            ([] ++ map fresh_slot st)) in E.
  apply LegacyFacts.legacy_fix_loop_ok in E; [|constructor].
  destruct E as (out & Hc & Hn & Hf). simpl in Hc. rewrite Hc.
  split; [exact Hn|].
  eapply Forall2_impl; [|exact Hf]. intros a b Hab. apply Hab.
Qed.

Lemma read_files_irig_free fuel net files : forall run e run',
  irig_free_bins (Sds.bins_of run) ->
  Sds.read_files fuel net files run = Some (Sds.Finished run') \/
  Sds.read_files fuel net files run = Some (Sds.Aborted e run') ->
  irig_free_bins (Sds.bins_of run').
Proof.
  induction files as [|f files IH]; intros run e run' Hbins H; simpl in H.
  - destruct H as [H | H]; inversion H; subst. exact Hbins.
  - destruct f as [st|].
    + destruct (Sds.fix_seedid st net) as [st'|e'] eqn:Ef.
      * destruct (Sds.bin_stream fuel _ _) as [[bins|e'']|] eqn:Eb.
        -- apply (IH _ e run') in H; [exact H|]. simpl.
           apply (bin_stream_irig_free _ _ _ _
                    (prepared_stream_not_irig st'
                       (proj1 (sds_fix_seedid_ok _ _ _ Ef))) Hbins Eb).
        -- destruct H as [H | H]; inversion H; subst. exact Hbins.
        -- destruct H as [H | H]; discriminate H.
      * destruct H as [H | H]; inversion H; subst. exact Hbins.
    + apply (IH _ e run') in H; [exact H|]. exact Hbins.
Qed.

(** * The claims about the identity normalizers *)

(** C7: whatever the file holds, when [fix_seedid] returns - the one of
    [02_mseed2sds.py] or the one of [20_twominutemseed2suds.py] - the stream
    holds no trace of station IRIG, and it holds the waveforms of exactly
    the traces that were not IRIG, in their order.  Dropping is not an
    error: the only exception [fix_seedid] can raise is the IndexError of
    an empty station code, so on a file without empty station codes it
    returns.  The bins of [process] are filled from the normalized streams
    and never get an IRIG key or an IRIG trace. *)
Theorem irig_is_dropped_not_an_error :
  (forall st net out,
     Sds.fix_seedid st net = Ok out \/ Legacy.fix_seedid st net = Ok out ->
     Forall not_irig out /\
     Forall2 same_waveform (filter (fun tr => negb (is_irig tr)) st) out) /\
  (forall st net e,
     Sds.fix_seedid st net = Raise e \/ Legacy.fix_seedid st net = Raise e ->
     e = IndexError /\ exists tr, In tr st /\ station tr = "") /\
  (forall st net,
     Forall (fun tr => station tr <> "") st ->
     exists out_sds out_legacy,
       Sds.fix_seedid st net = Ok out_sds /\
       Legacy.fix_seedid st net = Ok out_legacy) /\
  (forall fuel net files run e run',
     irig_free_bins (Sds.bins_of run) ->
     Sds.read_files fuel net files run = Some (Sds.Finished run') \/
     Sds.read_files fuel net files run = Some (Sds.Aborted e run') ->
     irig_free_bins (Sds.bins_of run')).
Proof.
  assert (Hraise : forall st net e,
     Sds.fix_seedid st net = Raise e \/ Legacy.fix_seedid st net = Raise e ->
     e = IndexError /\ exists tr, In tr st /\ station tr = "").
  { intros st net e [H | H].
    - now apply SdsFacts.sds_fix_loop_raises in H.
    - unfold Legacy.fix_seedid in H.
      destruct (Legacy.fix_loop _ _ _) as [slots|e'] eqn:E; simpl in H;
        [discriminate H|].
      inversion H; subst.
      change (Legacy.fix_loop net (seq 0 (List.length st))
                (map (fun tr => Legacy.mkSlot tr true) st))
        with (Legacy.fix_loop net
                (seq (List.length (@nil Legacy.slot)) (List.length st))
                ([] ++ map fresh_slot st)) in E.
      apply LegacyFacts.legacy_fix_loop_raises in E; [exact E|constructor]. }
  repeat split.
  - destruct H as [H | H];
      [now apply sds_fix_seedid_ok in H | now apply legacy_fix_seedid_ok in H].
  - destruct H as [H | H];
      [now apply sds_fix_seedid_ok in H | now apply legacy_fix_seedid_ok in H].
  - now apply Hraise in H.
  - now apply Hraise in H.
  - intros st net Hne.
    assert (Hno : forall tr, In tr st -> station tr = "" -> False).
    { intros tr Hin. rewrite Forall_forall in Hne. now apply Hne. }
    destruct (Sds.fix_seedid st net) as [o1|e1] eqn:E1.
    + destruct (Legacy.fix_seedid st net) as [o2|e2] eqn:E2.
      * now exists o1, o2.
      * exfalso. destruct (Hraise st net e2 (or_intror E2)) as (_ & tr & Hin & Htr).
        now apply (Hno tr).
    + exfalso. destruct (Hraise st net e1 (or_introl E1)) as (_ & tr & Hin & Htr).
      now apply (Hno tr).
  - intros fuel net files run e run'. apply read_files_irig_free.
Qed.

Lemma irig_is_dropped_not_an_error_witness :
  exists out,
    Sds.fix_seedid with_irig "NR" = Ok out /\
    Legacy.fix_seedid with_irig "NR" = Ok out /\
    Forall not_irig out /\ List.length out = 3%nat.
Proof.
  destruct irig_is_dropped_not_an_error as (Hok & _ & Hret & _).
  destruct (Hret with_irig "NR") as (o1 & o2 & H1 & H2).
  - repeat constructor; discriminate.
  - exists o1. split; [exact H1|].
    assert (E : o2 = o1).
    { vm_compute in H1, H2. inversion H1. inversion H2. reflexivity. }
    rewrite E in H2. split; [exact H2|].
    destruct (Hok with_irig "NR" o1 (or_introl H1)) as [Hn Hf].
    split; [exact Hn|].
    apply Forall2_length in Hf. rewrite <- Hf. reflexivity.
Defined.

(** The sibling test of [20_twominutemseed2suds.py] counts station codes: it
    does not depend on the order of the file. *)
Lemma multi_for_root_permutation root3 stations stations' :
  Permutation stations stations' ->
  Sds.multi_for_root root3 stations = Sds.multi_for_root root3 stations'.
Proof.
  intros H. unfold Sds.multi_for_root. f_equal.
  apply Permutation_length.
  induction H; simpl; auto.
  - destruct (String.prefix root3 x); auto.
  - destruct (String.prefix root3 x), (String.prefix root3 y); auto.
    apply perm_swap.
  - eapply perm_trans; eauto.
Qed.

Lemma sds_fix_trace_permutation net stations stations' tr :
  Permutation stations stations' ->
  Sds.fix_trace net stations tr = Sds.fix_trace net stations' tr.
Proof.
  intros H. unfold Sds.fix_trace.
  now rewrite (multi_for_root_permutation _ _ _ H).
Qed.

Lemma sds_fix_loop_permutation net stations st st' :
  Permutation st st' ->
  forall out, Sds.fix_loop net stations st = Ok out ->
  exists out', Sds.fix_loop net stations st' = Ok out' /\ Permutation out out'.
Proof.
  induction 1 as [|x l l' Hp IH|x y l|l l' l'' H1 IH1 H2 IH2]; intros out H.
  - exists out. auto.
  - simpl in *. destruct (String.eqb (station x) "IRIG"); [now apply IH|].
    destruct (Sds.fix_trace net stations x) as [x'|]; simpl in *; [|discriminate].
    destruct (Sds.fix_loop net stations l) as [o|]; simpl in *; [|discriminate].
    inversion H; subst. destruct (IH o eq_refl) as (o' & E & Hperm).
    rewrite E. simpl. exists (x' :: o'). auto.
  - simpl in *.
    destruct (String.eqb (station x) "IRIG"), (String.eqb (station y) "IRIG");
      try (destruct (Sds.fix_trace net stations x) as [x'|]; simpl in *;
           [|try discriminate;
             destruct (Sds.fix_trace net stations y); discriminate]);
      try (destruct (Sds.fix_trace net stations y) as [y'|]; simpl in *;
           [|discriminate]);
      try (destruct (Sds.fix_loop net stations l) as [o|]; simpl in *;
           [|discriminate]);
      inversion H; subst; eexists; split; try reflexivity; auto.
    apply perm_swap.
  - destruct (IH1 out H) as (o' & E' & P'). destruct (IH2 o' E') as (o'' & E'' & P'').
    exists o''. split; [exact E''|]. eapply perm_trans; eauto.
Qed.

Lemma sds_fix_loop_stations net stations stations' l :
  Permutation stations stations' ->
  Sds.fix_loop net stations l = Sds.fix_loop net stations' l.
Proof.
  intros H. induction l as [|x l IH]; simpl; [reflexivity|].
  rewrite (sds_fix_trace_permutation net _ _ x H), IH. reflexivity.
Qed.

(** X5: [fix_seedid] of [20_twominutemseed2suds.py] is independent of the order
    of the file: each trace is rewritten by a function that is the same
    for every order, and the results are the same up to that order. *)
Lemma sds_fix_seedid_order_independent st st' net :
  Permutation st st' ->
  (forall tr, Sds.fix_trace net (map station st) tr =
              Sds.fix_trace net (map station st') tr) /\
  (forall out, Sds.fix_seedid st net = Ok out ->
     exists out', Sds.fix_seedid st' net = Ok out' /\ Permutation out out').
Proof.
  intros H.
  assert (Hs : Permutation (map station st) (map station st'))
    by now apply Permutation_map.
  split; [intros tr; now apply sds_fix_trace_permutation|].
  intros out Hout. unfold Sds.fix_seedid in *.
  destruct (sds_fix_loop_permutation net (map station st) st st' H out Hout)
    as (out' & E & P).
  exists out'. split; [|exact P].
  rewrite <- E. symmetry. now apply sds_fix_loop_stations.
Qed.

(** C8 (fails on the code): [fix_seedid] of [02_mseed2sds.py] counts the
    siblings of a trace on the stream it is editing.  With the IRIG trace
    first, IRIG is gone when IRIZ is visited, IRIZ has no sibling and keeps
    its station code; with IRIZ first, IRIG still counts as its sibling and
    IRIZ becomes station IRI.  The same two traces, the same sibling codes,
    two identities. *)
Theorem legacy_fix_seedid_depends_on_order :
  Permutation [raw "IRIG" ""; raw "IRIZ" ""] [raw "IRIZ" ""; raw "IRIG" ""] /\
  (exists out, Legacy.fix_seedid [raw "IRIG" ""; raw "IRIZ" ""] "NR" = Ok out /\
               map identity out = [("NR", "IRIZ", "EHZ")]) /\
  (exists out, Legacy.fix_seedid [raw "IRIZ" ""; raw "IRIG" ""] "NR" = Ok out /\
               map identity out = [("NR", "IRI", "EHZ")]).
Proof.
  split; [apply perm_swap|].
  split; eexists; (split; [vm_compute; reflexivity|reflexivity]).
Qed.

(** C10 (fails on the code): a lone trace of station PIR with channel code
    BHN keeps its channel in [20_twominutemseed2suds.py] and becomes EHZ in
    [02_mseed2sds.py]. *)
Lemma normalizers_differ_on_channel :
  (exists out, Sds.fix_seedid [raw "PIR" "BHN"] "NR" = Ok out /\
               map identity out = [("NR", "PIR", "BHN")]) /\
  (exists out, Legacy.fix_seedid [raw "PIR" "BHN"] "NR" = Ok out /\
               map identity out = [("NR", "PIR", "EHZ")]).
Proof.
  split; eexists; (split; [vm_compute; reflexivity|reflexivity]).
Qed.

(** C10, amended: on a file whose station codes are SEED station codes
    (upper-case letters and digits, not empty) and in which, if there is an
    IRIG trace, no other station code has a root that IRIG starts with, the
    two normalizers return, keep the same traces - all but the IRIG ones,
    in the order of the file - and give each kept trace the same network
    and the same station; they give it the same channel too if its raw
    channel code is not a well-formed orientation code or if the Z/N/E rule
    applies to it. *)
Theorem normalizers_agree_on_seed_files st net :
  seed_stations st = true -> irig_apart st = true ->
  exists out_sds out_legacy,
    Sds.fix_seedid st net = Ok out_sds /\
    Legacy.fix_seedid st net = Ok out_legacy /\
    Forall2 (fun t ab => agree (map station st) t (fst ab) (snd ab))
            (filter (fun tr => negb (is_irig tr)) st)
            (combine out_sds out_legacy) /\
    List.length out_sds = List.length (filter (fun tr => negb (is_irig tr)) st) /\
    List.length out_legacy = List.length (filter (fun tr => negb (is_irig tr)) st).
Proof.
  intros Hseed Hapart.
  rewrite (LegacyFacts.fix_seedid_snapshot st net Hseed Hapart).
  unfold Sds.fix_seedid.
  assert (Hall : Forall (fun t => station t <> "") st).
  { apply Forall_forall. intros t Hin.
    apply seed_code_nonempty. now apply LegacyFacts.seed_in with (st := st). }
  destruct (LegacyFacts.loops_agree st net st Hall)
    as (o1 & o2 & E1 & E2 & HF & L1 & L2).
  rewrite E1, E2. simpl. exists o1, (Legacy.contents o2). auto.
Qed.

Lemma normalizers_agree_on_seed_files_witness :
  exists out,
    Sds.fix_seedid with_irig "NR" = Ok out /\
    Legacy.fix_seedid with_irig "NR" = Ok out /\
    map identity out = [("NR", "PIR", "EHZ"); ("NR", "PIR", "EHN");
                        ("NR", "PIR", "EHE")].
Proof.
  destruct (normalizers_agree_on_seed_files with_irig "NR")
    as (o1 & o2 & H1 & H2 & _).
  - reflexivity.
  - reflexivity.
  - exists o1.
    assert (E : o2 = o1 /\
                map identity o1 = [("NR", "PIR", "EHZ"); ("NR", "PIR", "EHN");
                                   ("NR", "PIR", "EHE")]).
    { vm_compute in H1, H2. inversion H1. inversion H2. split; reflexivity. }
    destruct E as [E Hid]. rewrite E in H2. auto.
Defined.

Lemma pir_multi stations :
  Permutation stations pir_codes -> Sds.multi_for_root "PIR" stations = true.
Proof.
  intros H. now rewrite (multi_for_root_permutation _ _ _ H).
Qed.

Lemma pir_sds_trace net stations t :
  In (station t) pir_codes -> Sds.multi_for_root "PIR" stations = true ->
  exists a, Sds.fix_trace net stations t = Ok a /\ pir_normalized true net t a.
Proof.
  intros Hin Hm. destruct t as [n s l c t0 sr d]. simpl in Hin.
  unfold pir_normalized, pir_expected, Sds.fix_trace, well_formed_channel.
  destruct Hin as [<- | [<- | [<- | [<- | [<- | []]]]]];
    cbn -[Sds.multi_for_root]; rewrite Hm; simpl;
    try (eexists; split; [reflexivity|split; reflexivity]);
    destruct (String.length c =? 3)%nat; simpl;
    try destruct (third_in_ZNE c); simpl;
    eexists; (split; [reflexivity|split; reflexivity]).
Qed.

Lemma pir_legacy_trace net t :
  In (station t) pir_codes ->
  exists b, legacy_body net (fun _ => true) t = Ok b /\
            pir_normalized false net t b.
Proof.
  intros Hin. destruct t as [n s l c t0 sr d]. simpl in Hin.
  unfold pir_normalized, pir_expected, legacy_body.
  destruct Hin as [<- | [<- | [<- | [<- | [<- | []]]]]]; simpl;
    eexists; (split; [reflexivity|split; reflexivity]).
Qed.

Lemma pir_code_facts s :
  In s pir_codes ->
  String.eqb s "IRIG" = false /\ seed_code s = true /\ root_of s = "PIR".
Proof.
  intros [<- | [<- | [<- | [<- | [<- | []]]]]]; repeat split.
Qed.

Lemma pir_sds_loop net stations l :
  Sds.multi_for_root "PIR" stations = true ->
  Forall (fun t => In (station t) pir_codes) l ->
  exists out, Sds.fix_loop net stations l = Ok out /\
              Forall2 (pir_normalized true net) l out.
Proof.
  intros Hm. induction 1 as [|t l Ht _ [out [E F]]]; simpl.
  - exists []. split; [reflexivity|constructor].
  - destruct (pir_code_facts _ Ht) as (Hi & _ & _). rewrite Hi.
    destruct (pir_sds_trace net stations t Ht Hm) as (a & Ea & Ha).
    rewrite Ea, E. simpl. exists (a :: out). split; [reflexivity|].
    now constructor.
Qed.

Lemma pir_legacy_loop st net l :
  Sds.multi_for_root "PIR" (map station st) = true ->
  Forall (fun t => In (station t) pir_codes) l ->
  exists out, snapshot_loop st net l = Ok (map fresh_slot out) /\
              Forall2 (pir_normalized false net) l out.
Proof.
  intros Hm. induction 1 as [|t l Ht _ [out [E F]]]; simpl.
  - exists []. split; [reflexivity|constructor].
  - destruct (pir_code_facts _ Ht) as (Hi & _ & Hroot).
    unfold is_irig. rewrite Hi, Hroot, Hm.
    destruct (pir_legacy_trace net t Ht) as (b & Eb & Hb).
    rewrite Eb, E. simpl. exists (b :: out). split; [reflexivity|].
    now constructor.
Qed.

Lemma contents_fresh out : Legacy.contents (map fresh_slot out) = out.
Proof.
  unfold Legacy.contents. induction out as [|t out IH]; simpl; [reflexivity|].
  now rewrite IH.
Qed.

(** C3 (fails on the code): [fix_seedid] of [02_mseed2sds.py] gives PIR1 the
    channel EHZ although its own channel code EHN is a well-formed
    orientation code. *)
Lemma legacy_overwrites_well_formed_channel :
  well_formed_channel "EHN" = true /\
  exists out, Legacy.fix_seedid pir_file "NR" = Ok out /\
              map identity out =
                [("NR", "PIR1", "EHZ"); ("NR", "PIR2", "EHZ");
                 ("NR", "PIR", "EHZ"); ("NR", "PIR", "EHN");
                 ("NR", "PIR", "EHE")].
Proof.
  split; [reflexivity|].
  eexists. split; [vm_compute; reflexivity|reflexivity].
Qed.

(** C3, amended: on a file whose station codes are PIR1, PIR2, PIRZ, PIRN
    and PIRE, in any order, both normalizers map PIRZ to station PIR with
    channel EHZ, PIRN to (PIR, EHN) and PIRE to (PIR, EHE), and leave the
    station codes PIR1 and PIR2 as they are.  [20_twominutemseed2suds.py]
    gives PIR1 and PIR2 the channel EHZ only if their own channel code is
    not a well-formed orientation code, and keeps that code otherwise;
    [02_mseed2sds.py] gives them the channel EHZ whatever their own channel
    code is. *)
Theorem pir_siblings_are_normalized st net :
  Permutation (map station st) pir_codes ->
  exists out_sds out_legacy,
    Sds.fix_seedid st net = Ok out_sds /\
    Legacy.fix_seedid st net = Ok out_legacy /\
    Forall2 (pir_normalized true net) st out_sds /\
    Forall2 (pir_normalized false net) st out_legacy.
Proof.
  intros Hperm.
  pose proof (pir_multi _ Hperm) as Hm.
  assert (Hall : Forall (fun t => In (station t) pir_codes) st).
  { apply Forall_forall. intros t Hin.
    apply (Permutation_in _ Hperm). now apply in_map. }
  assert (Hseed : seed_stations st = true).
  { unfold seed_stations. apply forallb_forall. intros t Hin.
    rewrite Forall_forall in Hall. now apply pir_code_facts, Hall. }
  assert (Hapart : irig_apart st = true).
  { unfold irig_apart. apply orb_true_intro. left. apply negb_true_iff.
    destruct (existsb is_irig st) eqn:E; [|reflexivity].
    apply existsb_exists in E as (t & Hin & Hi).
    rewrite Forall_forall in Hall.
    destruct (pir_code_facts _ (Hall t Hin)) as (Hn & _). unfold is_irig in Hi.
    congruence. }
  destruct (pir_sds_loop net (map station st) st Hm Hall) as (o1 & E1 & F1).
  destruct (pir_legacy_loop st net st Hm Hall) as (o2 & E2 & F2).
  exists o1, o2. split; [exact E1|]. split; [|split; assumption].
  rewrite (LegacyFacts.fix_seedid_snapshot st net Hseed Hapart), E2. simpl.
  now rewrite contents_fresh.
Qed.

Lemma pir_siblings_are_normalized_witness :
  exists out,
    Sds.fix_seedid pir_file "NR" = Ok out /\
    map identity out =
      [("NR", "PIR1", "EHN"); ("NR", "PIR2", "EHZ"); ("NR", "PIR", "EHZ");
       ("NR", "PIR", "EHN"); ("NR", "PIR", "EHE")].
Proof.
  destruct (pir_siblings_are_normalized pir_file "NR") as (o1 & o2 & H1 & _).
  - apply Permutation_refl.
  - exists o1. split; [exact H1|].
    vm_compute in H1. inversion H1. reflexivity.
Defined.


(** * Further properties of the programs *)

(** ** The headers the normalizers assign *)

Lemma char_in_ZNE_well_formed p q c :
  char_in c "ZNE" = true ->
  well_formed_channel (String p (String q (str1 c))) = true.
Proof. intros H. unfold well_formed_channel, third_in_ZNE. simpl. exact H. Qed.

Lemma well_formed_third cha :
  well_formed_channel cha = true ->
  exists o, String.get 2 cha = Some o /\ char_in o "ZNE" = true.
Proof.
  unfold well_formed_channel, third_in_ZNE. intros H.
  apply andb_prop in H as [_ H].
  destruct (String.get 2 cha) as [o|]; [|discriminate H]. now exists o.
Qed.

Lemma zne_last s c :
  last_slice_in s "ZNE" = true -> last_char s = Some c -> char_in c "ZNE" = true.
Proof. unfold last_slice_in. intros H E. now rewrite E in H. Qed.

Lemma kept_well_formed cha :
  negb (String.length cha =? 3)%nat || negb (third_in_ZNE cha) = false ->
  well_formed_channel cha = true.
Proof.
  unfold well_formed_channel. intros H.
  apply orb_false_elim in H as [H1 H2].
  apply negb_false_iff in H1, H2. now rewrite H1, H2.
Qed.

Lemma low_gain_well_formed cha o :
  well_formed_channel cha = true -> String.get 2 cha = Some o ->
  well_formed_channel ("EL" ++ str1 o) = true.
Proof.
  intros H Ho. apply well_formed_third in H as (o' & Ho' & Hz).
  rewrite Ho in Ho'. inversion Ho'; subst. now apply char_in_ZNE_well_formed.
Qed.

Lemma sds_fix_trace_header net stations t a :
  Sds.fix_trace net stations t = Ok a -> sds_header net t a.
Proof.
  unfold Sds.fix_trace, sds_header. intros H.
  split_result; simpl in *.
  all: repeat split; auto.
  all: repeat match goal with
              | H : Some _ = Some _ |- _ => inversion H; subst; clear H
              | H : _ && _ = true |- _ => apply andb_prop in H as [? ?]
              end.
  all: try (apply char_in_ZNE_well_formed; eapply zne_last; eassumption).
  all: try (apply kept_well_formed; assumption).
  all: try reflexivity.
  eapply low_gain_well_formed; [|eassumption].
  now apply kept_well_formed.
Qed.

Lemma in_legacy_channels p c :
  (p = "H" \/ p = "L")%char -> char_in c "ZNE" = true ->
  In (String "E" (String p (str1 c))) legacy_channels.
Proof.
  intros Hp Hc. simpl in Hc.
  repeat (apply orb_prop in Hc as [Hc | Hc]); try discriminate Hc;
    apply Ascii.eqb_eq in Hc; subst c; destruct Hp; subst p; simpl; tauto.
Qed.

Lemma legacy_body_header net m t b :
  legacy_body net m t = Ok b -> legacy_header net t b.
Proof.
  unfold legacy_body, legacy_header. cbv zeta.
  change (station (set_network t net)) with (station t).
  intros H.
  destruct (last_char (station t)) as [c|] eqn:Ec; cbn [bind of_option] in H;
    [|discriminate H].
  destruct (char_in c "ZNE" && m (set_network t net)) eqn:Ez.
  - apply andb_prop in Ez as [Ez _].
    simpl in H.
    pose proof (length_root_of (station t)) as Hl.
    destruct (String.length (root_of (station t)) =? 4)%nat eqn:E4;
      [apply Nat.eqb_eq in E4; lia|].
    inversion H; subst; clear H. simpl.
    repeat split; auto. apply in_legacy_channels; auto.
  - cbn [station set_station set_channel set_network channel] in H.
    destruct (String.length (station t) =? 4)%nat; cbn [bind] in H.
    + rewrite Ec in H. cbn [bind of_option] in H.
      destruct (Ascii.eqb c "L" && _); cbn [bind of_option String.get] in H.
      * cbn -[root_of] in H.
        destruct (last_char (root_of (station t))) as [c2|]; cbn -[root_of] in H;
          [|discriminate H].
        destruct (Ascii.eqb c2 "H" && _); inversion H; subst; clear H;
          cbn -[root_of]; rewrite ?root_of_idem; repeat split; auto; tauto.
      * cbn -[root_of] in H. rewrite Ec in H. cbn in H.
        destruct (Ascii.eqb c "H" && _); inversion H; subst; clear H; simpl;
          repeat split; auto; tauto.
    + inversion H; subst; clear H. simpl. repeat split; auto; tauto.
Qed.

(** X1: When [fix_seedid] of [20_twominutemseed2suds.py] returns, it has kept
    the traces that are not IRIG, in their order, and each of them carries
    the network given, its station code or the first three characters of
    it, its location code stripped of white space, and a channel code of
    three characters that ends in Z, N or E. *)
Theorem sds_fix_seedid_headers st net out :
  Sds.fix_seedid st net = Ok out ->
  Forall2 (sds_header net) (filter (fun tr => negb (is_irig tr)) st) out.
Proof.
  unfold Sds.fix_seedid. intros H. apply SdsFacts.sds_fix_loop_ok in H.
  eapply Forall2_impl; [|exact H].
  intros t a [_ Ha]. now apply sds_fix_trace_header in Ha.
Qed.

Lemma sds_fix_seedid_headers_witness :
  exists out,
    Sds.fix_seedid pir_file "NR" = Ok out /\
    Forall2 (sds_header "NR") (filter (fun tr => negb (is_irig tr)) pir_file) out.
Proof.
  eexists. split; [vm_compute; reflexivity|].
  apply sds_fix_seedid_headers. vm_compute. reflexivity.
Defined.

Lemma legacy_fix_loop_bodies net rest : forall done final,
  irig_free done ->
  Legacy.fix_loop net (seq (List.length done) (List.length rest))
                  (done ++ map fresh_slot rest) = Ok final ->
  exists out,
    Legacy.contents final = Legacy.contents done ++ out /\
    Forall2 (fun tr tr' => exists m, legacy_body net m tr = Ok tr')
            (filter (fun tr => negb (is_irig tr)) rest) out.
Proof.
  induction rest as [|t rest IH]; intros done final Hfree H.
  - simpl in H. inversion H; subst. exists []. rewrite !app_nil_r.
    split; [reflexivity|constructor].
  - simpl List.length in H. simpl map in H.
    rewrite LegacyFacts.fix_loop_cons in H by exact Hfree. simpl filter.
    destruct (is_irig t) eqn:Ei; simpl.
    + apply IH in H as (out & Hc & Hf).
      * exists out. rewrite Hc, LegacyFacts.contents_app. simpl.
        rewrite app_nil_r. auto.
      * apply LegacyFacts.irig_free_app; [exact Hfree|].
        constructor; [|constructor]. simpl. discriminate.
    + destruct (legacy_body _ _ t) as [t'|e] eqn:Eb; simpl in H; [|discriminate H].
      pose proof (LegacyFacts.body_not_irig _ _ _ _
                    (LegacyFacts.is_irig_false _ Ei) Eb) as Hn'.
      apply IH in H as (out & Hc & Hf).
      * exists (t' :: out). rewrite Hc, LegacyFacts.contents_app. simpl.
        rewrite <- app_assoc. simpl. split; [reflexivity|].
        constructor; [|exact Hf]. eexists. exact Eb.
      * apply LegacyFacts.irig_free_app; [exact Hfree|].
        constructor; [|constructor]. simpl. auto.
Qed.

(** X2: When [fix_seedid] of [02_mseed2sds.py] returns, the stream holds the
    traces that are not IRIG, in their order, and each of them carries the
    network given, its station code or the first three characters of it,
    its location code as it was, and one of the channel codes EHZ, EHN,
    EHE, ELZ, ELN, ELE. *)
Theorem legacy_fix_seedid_headers st net out :
  Legacy.fix_seedid st net = Ok out ->
  Forall2 (legacy_header net) (filter (fun tr => negb (is_irig tr)) st) out.
Proof.
  unfold Legacy.fix_seedid. intros H.
  destruct (Legacy.fix_loop _ _ _) as [slots|e] eqn:E; simpl in H;
    [|discriminate H].
  inversion H; subst; clear H.
  change (Legacy.fix_loop net (seq 0 (List.length st))
            (map (fun tr => Legacy.mkSlot tr true) st))
    with (Legacy.fix_loop net
            (seq (List.length (@nil Legacy.slot)) (List.length st))
            ([] ++ map fresh_slot st)) in E.
  apply legacy_fix_loop_bodies in E; [|constructor].
  destruct E as (out & Hc & Hf). simpl in Hc. rewrite Hc.
  eapply Forall2_impl; [|exact Hf].
  intros t b [m Hb]. now apply legacy_body_header in Hb.
Qed.

Lemma legacy_fix_seedid_headers_witness :
  exists out,
    Legacy.fix_seedid pir_file "NR" = Ok out /\
    Forall2 (legacy_header "NR") (filter (fun tr => negb (is_irig tr)) pir_file) out.
Proof.
  eexists. split; [vm_compute; reflexivity|].
  apply legacy_fix_seedid_headers. vm_compute. reflexivity.
Defined.

(** ** When the normalizers raise *)

Lemma multi_for_empty_root stations :
  Sds.multi_for_root "" stations = (1 <? List.length stations)%nat.
Proof.
  unfold Sds.multi_for_root. f_equal. f_equal.
  induction stations as [|s stations IH]; simpl; [reflexivity|].
  destruct s; simpl; now rewrite IH.
Qed.

Lemma sds_fix_trace_raises_iff net stations tr e :
  Sds.fix_trace net stations tr = Raise e <->
  e = IndexError /\ station tr = "" /\ (1 < List.length stations)%nat.
Proof.
  split.
  - intros H. destruct (SdsFacts.fix_trace_raises _ _ _ _ H) as [Hs He].
    repeat split; auto.
    apply Nat.ltb_lt. rewrite <- multi_for_empty_root.
    destruct (Sds.multi_for_root "" stations) eqn:Em; [reflexivity|].
    exfalso. unfold Sds.fix_trace in H. simpl in H. rewrite Hs in H.
    change (root_of "") with "" in H. rewrite Em in H. simpl in H.
    destruct (_ || _); simpl in H; rewrite Hs in H; discriminate H.
  - intros (-> & Hs & Hl). unfold Sds.fix_trace. simpl. rewrite Hs.
    change (root_of "") with "". rewrite multi_for_empty_root.
    apply Nat.ltb_lt in Hl. rewrite Hl. reflexivity.
Qed.

Lemma sds_fix_loop_raises_iff net stations st e :
  Sds.fix_loop net stations st = Raise e <->
  e = IndexError /\ (1 < List.length stations)%nat /\
  exists tr, In tr st /\ station tr = "".
Proof.
  induction st as [|tr st IH]; simpl.
  - split; [discriminate|]. intros (_ & _ & t & [] & _).
  - destruct (String.eqb (station tr) "IRIG") eqn:Ei.
    + rewrite IH. apply String.eqb_eq in Ei.
      split; intros (He & Hl & t & Hin & Ht); repeat split; auto.
      * exists t. auto.
      * destruct Hin as [<- | Hin]; [congruence|]. exists t. auto.
    + destruct (Sds.fix_trace net stations tr) as [tr'|e'] eqn:E; simpl.
      * assert (Hrest : Sds.fix_loop net stations st = Raise e <->
                        (out <- Sds.fix_loop net stations st ;; Ok (tr' :: out))
                        = Raise e).
        { destruct (Sds.fix_loop net stations st); simpl;
            split; congruence. }
        rewrite <- Hrest, IH.
        split; intros (He & Hl & t & Hin & Ht); repeat split; auto.
        -- exists t. auto.
        -- destruct Hin as [<- | Hin]; [|exists t; auto].
           assert (Hr : Sds.fix_trace net stations tr = Raise IndexError)
             by (apply sds_fix_trace_raises_iff; auto).
           congruence.
      * apply sds_fix_trace_raises_iff in E as (-> & Hs & Hl).
        split.
        -- intros H. inversion H; subst. repeat split; auto. exists tr. auto.
        -- intros (-> & _). reflexivity.
Qed.

(** X3: [fix_seedid] of [20_twominutemseed2suds.py] raises exactly when the file
    holds at least two traces and one of them has an empty station code; it
    is then the IndexError of [tr.stats.station[-1]] on line 52. *)
Theorem sds_fix_seedid_raises st net e :
  Sds.fix_seedid st net = Raise e <->
  e = IndexError /\ (1 < List.length st)%nat /\
  exists tr, In tr st /\ station tr = "".
Proof.
  unfold Sds.fix_seedid. rewrite sds_fix_loop_raises_iff.
  now rewrite length_map.
Qed.

Lemma legacy_body_raises_iff net m t e :
  legacy_body net m t = Raise e <-> e = IndexError /\ station t = "".
Proof.
  split.
  - intros H. apply LegacyFacts.body_raises in H. tauto.
  - intros [-> Hs]. unfold legacy_body. simpl. now rewrite Hs.
Qed.

Lemma legacy_fix_loop_raises_iff net rest : forall done e,
  irig_free done ->
  Legacy.fix_loop net (seq (List.length done) (List.length rest))
                  (done ++ map fresh_slot rest) = Raise e <->
  e = IndexError /\ exists tr, In tr rest /\ station tr = "".
Proof.
  induction rest as [|t rest IH]; intros done e Hfree.
  - simpl. split; [discriminate|]. intros (_ & t & [] & _).
  - simpl List.length. simpl map.
    rewrite LegacyFacts.fix_loop_cons by exact Hfree.
    destruct (is_irig t) eqn:Ei.
    + rewrite IH.
      * unfold is_irig in Ei. apply String.eqb_eq in Ei.
        split; intros (He & tr & Hin & Ht); split; auto.
        -- exists tr. simpl. auto.
        -- destruct Hin as [<- | Hin]; [congruence|]. exists tr. auto.
      * apply LegacyFacts.irig_free_app; [exact Hfree|].
        constructor; [|constructor]. simpl. discriminate.
    + destruct (legacy_body _ _ t) as [t'|e'] eqn:Eb; simpl.
      * pose proof (LegacyFacts.body_not_irig _ _ _ _
                      (LegacyFacts.is_irig_false _ Ei) Eb) as Hn'.
        rewrite IH.
        -- split; intros (He & tr & Hin & Ht); split; auto.
           ++ exists tr. simpl. auto.
           ++ destruct Hin as [<- | Hin]; [|exists tr; auto].
              assert (Hr : legacy_body net
                             (fun tr => Legacy.multi
                                (done ++ fresh_slot tr :: map fresh_slot rest) tr)
                             t = Raise IndexError)
                by (apply legacy_body_raises_iff; auto).
              congruence.
        -- apply LegacyFacts.irig_free_app; [exact Hfree|].
           constructor; [|constructor]. simpl. auto.
      * apply legacy_body_raises_iff in Eb as [-> Hs].
        split.
        -- intros H. inversion H; subst. split; auto. exists t. simpl. auto.
        -- intros (-> & _). reflexivity.
Qed.

(** X4: [fix_seedid] of [02_mseed2sds.py] raises exactly when a trace of the
    file has an empty station code (the IndexError of
    [tr.stats.station[-1]] on line 41); [st.remove] never fails. *)
Theorem legacy_fix_seedid_raises st net e :
  Legacy.fix_seedid st net = Raise e <->
  e = IndexError /\ exists tr, In tr st /\ station tr = "".
Proof.
  unfold Legacy.fix_seedid.
  change (Legacy.fix_loop net (seq 0 (List.length st))
            (map (fun tr => Legacy.mkSlot tr true) st))
    with (Legacy.fix_loop net
            (seq (List.length (@nil Legacy.slot)) (List.length st))
            ([] ++ map fresh_slot st)).
  rewrite <- (legacy_fix_loop_raises_iff net st [] e) by constructor.
  destruct (Legacy.fix_loop _ _ _); simpl; split; congruence.
Qed.

(** ** The order of the file *)

Lemma sds_fix_seedid_order_independent_witness :
  exists out',
    Sds.fix_seedid [raw "PIRZ" ""; raw "PIRN" ""; raw "IRIG" ""] "NR" = Ok out' /\
    Permutation
      [mkTrace "NR" "PIR" "" "EHZ" midnight 100 [Val 1; Val 2];
       mkTrace "NR" "PIR" "" "EHN" midnight 100 [Val 1; Val 2]]
      out'.
Proof.
  apply (proj2 (sds_fix_seedid_order_independent
                  [raw "IRIG" ""; raw "PIRZ" ""; raw "PIRN" ""]
                  [raw "PIRZ" ""; raw "PIRN" ""; raw "IRIG" ""] "NR"
                  (Permutation_cons_append _ _))).
  vm_compute. reflexivity.
Defined.

Local Open Scope Q_scope.

(** ** The passes of the day splitter *)

Lemma day_start_bounds t :
  day_start_of t <= t /\ t < day_start_of t + 86400.
Proof.
  unfold day_start_of, day_number.
  destruct (floor_bounds (t / 86400)) as [H1 H2].
  set (f := inject_Z (Qfloor (t / 86400))) in *.
  assert (Ht : t / 86400 == t * (1 # 86400)) by (unfold Qdiv; reflexivity).
  rewrite Ht in H1, H2.
  split; lra.
Qed.

Lemma round_away_near x :
  0 <= x ->
  x - (1 # 2) < inject_Z (round_away x) /\ inject_Z (round_away x) <= x + (1 # 2).
Proof.
  intros H. unfold round_away.
  apply Qle_bool_iff in H. rewrite H.
  destruct (floor_bounds (x + (1 # 2))) as [H1 H2]. split; lra.
Qed.

Lemma Zle_from_Q (a b : Z) : inject_Z a < inject_Z b + 1 -> (a <= b)%Z.
Proof.
  intros H. destruct (Z.le_gt_cases a b) as [Hle | Hgt]; [exact Hle|].
  exfalso. assert (Hq : inject_Z (b + 1) <= inject_Z a)
    by (rewrite <- Zle_Qle; lia).
  rewrite inject_Z_plus in Hq. change (inject_Z 1) with 1 in Hq. lra.
Qed.

Lemma record_eta tr : set_data tr (data tr) = tr.
Proof. now destruct tr. Qed.

Lemma crossing_samples cur :
  0 < sampling_rate cur -> day_end_of cur < endtime cur ->
  data cur <> [] /\
  0 < (day_end_of cur - starttime cur) * sampling_rate cur /\
  (day_end_of cur - starttime cur) * sampling_rate cur < inject_Z (npts cur - 1) /\
  (0 <= cut_index cur <= npts cur - 1)%Z.
Proof.
  intros Hsr Het.
  destruct (day_start_bounds (starttime cur)) as [Hd1 Hd2].
  fold (day_end_of cur) in Hd2.
  assert (Hne : data cur <> []).
  { intros E. unfold endtime, npts in Het. rewrite E in Het. simpl in Het. lra. }
  rewrite (endtime_nonempty cur Hne) in Het.
  set (x := (day_end_of cur - starttime cur) * sampling_rate cur).
  assert (Hx0 : 0 < x).
  { unfold x. apply Qmult_lt_0_compat; lra. }
  assert (Hx1 : x < inject_Z (npts cur - 1)).
  { assert (H : (day_end_of cur - starttime cur) * sampling_rate cur <
                inject_Z (npts cur - 1) / sampling_rate cur * sampling_rate cur)
      by (apply Qmult_lt_compat_r; [exact Hsr|lra]).
    assert (E : inject_Z (npts cur - 1) / sampling_rate cur * sampling_rate cur
                == inject_Z (npts cur - 1))
      by (field; now apply rate_nonzero).
    rewrite E in H. exact H. }
  repeat split; auto.
  - destruct (round_away_near x (Qlt_le_weak _ _ Hx0)) as [H1 H2].
    unfold cut_index. fold x.
    apply Zle_from_Q. change (inject_Z 0) with 0. lra.
  - destruct (round_away_near x (Qlt_le_weak _ _ Hx0)) as [H1 H2].
    unfold cut_index. fold x.
    apply Zle_from_Q. lra.
Qed.

Lemma Qle_bool_false x y : Qle_bool x y = false <-> y < x.
Proof.
  rewrite <- Qltb_lt. unfold Qltb.
  destruct (Qle_bool x y); simpl; split; congruence.
Qed.

Lemma ltrim_at_start tr : ltrim tr (starttime tr) = tr.
Proof.
  unfold ltrim. rewrite (round_away_comp _ 0) by ring. reflexivity.
Qed.

(** Trimming a trace at its own end time leaves it alone. *)
Lemma rtrim_at_end tr t :
  0 < sampling_rate tr -> t == endtime tr -> rtrim tr t = tr.
Proof.
  intros Hsr Ht. unfold rtrim.
  assert (Hd : round_away ((t - starttime tr) * sampling_rate tr) =
               (if (npts tr =? 0)%Z then 0 else npts tr - 1)%Z).
  { unfold endtime in Ht. destruct (npts tr =? 0)%Z.
    - rewrite (round_away_comp _ 0); [reflexivity|]. rewrite Ht. ring.
    - rewrite <- (round_away_integer (npts tr - 1)). apply round_away_comp.
      rewrite Ht. field. now apply rate_nonzero. }
  rewrite Hd.
  destruct (npts tr =? 0)%Z eqn:E.
  - apply Z.eqb_eq in E. rewrite E. reflexivity.
  - replace (0 <=? npts tr - 1 - npts tr + 1)%Z with true; [reflexivity|].
    symmetry. apply Z.leb_le. lia.
Qed.

Lemma length_skipn_Z tr (m : Z) :
  (0 <= m <= npts tr)%Z ->
  Z.of_nat (List.length (skipn (Z.to_nat m) (data tr))) = (npts tr - m)%Z.
Proof. intros H. rewrite length_skipn. unfold npts in *. lia. Qed.

Lemma split_step_crossing cur :
  0 < sampling_rate cur -> day_end_of cur < endtime cur ->
  Sds.split_step cur = Ok (Sds.Continue (left_of cur) (remainder_of cur)).
Proof.
  intros Hsr Het.
  destruct (crossing_samples cur Hsr Het) as (Hne & Hx0 & Hx1 & Hm0 & Hm1).
  destruct (day_start_bounds (starttime cur)) as [Hd1 Hd2].
  fold (day_end_of cur) in Hd2.
  unfold Sds.split_step. fold (day_end_of cur).
  replace (Qle_bool (endtime cur) (day_end_of cur)) with false
    by (symmetry; now apply Qle_bool_false).
  unfold trim.
  replace (Qltb (day_end_of cur) (starttime cur)) with false
    by (symmetry; apply Qltb_ge; lra).
  replace (Qltb (endtime cur) (day_end_of cur)) with false
    by (symmetry; apply Qltb_ge; lra).
  cbn [bind]. rewrite ltrim_at_start.
  assert (Hleft : rtrim cur (day_end_of cur) = left_of cur).
  { unfold rtrim, left_of. fold (cut_index cur).
    destruct (0 <=? cut_index cur - npts cur + 1)%Z eqn:E0.
    - apply Z.leb_le in E0.
      replace (Z.to_nat (cut_index cur + 1)) with (List.length (data cur))
        by (unfold npts in *; lia).
      now rewrite firstn_all, record_eta.
    - apply Z.leb_gt in E0.
      replace (Qltb (day_end_of cur) (starttime cur)) with false
        by (symmetry; apply Qltb_ge; lra).
      replace (Qeq_bool (day_end_of cur) (starttime cur)) with false.
      + f_equal. f_equal. lia.
      + symmetry. destruct (Qeq_bool _ _) eqn:E; [|reflexivity].
        apply Qeq_bool_iff in E. lra. }
  assert (Hrem : rtrim (ltrim cur (day_end_of cur)) (endtime cur)
                 = remainder_of cur).
  { unfold ltrim, remainder_of. fold (cut_index cur).
    destruct (cut_index cur <=? 0)%Z eqn:E0.
    - apply rtrim_at_end; [exact Hsr|reflexivity].
    - apply Z.leb_gt in E0.
      set (cur1 := set_starttime cur _).
      assert (Hend1 : endtime cur1 ==
                      endtime cur + inject_Z (cut_index cur) / sampling_rate cur).
      { rewrite (endtime_nonempty cur Hne), (endtime_nonempty cur1 Hne).
        unfold cur1. simpl. unfold npts. simpl. field. now apply rate_nonzero. }
      replace (Qltb (endtime cur1) (day_end_of cur)) with false.
      + apply rtrim_at_end; [exact Hsr|].
        set (c2 := set_data cur1 _).
        assert (Hne2 : data c2 <> []).
        { unfold c2. simpl. intros E.
          apply (f_equal (@List.length _)) in E.
          rewrite length_skipn in E. simpl in E. unfold npts in *. lia. }
        rewrite (endtime_nonempty cur Hne), (endtime_nonempty c2 Hne2).
        unfold c2, cur1. simpl. unfold npts at 2. simpl.
        rewrite length_skipn_Z by lia.
        unfold Zminus. repeat rewrite ?inject_Z_plus, ?inject_Z_opp.
        change (inject_Z 1) with 1.
        field. now apply rate_nonzero.
      + symmetry. apply Qltb_ge. rewrite Hend1.
        pose proof (samples_not_earlier _ 0 (cut_index cur) Hsr ltac:(lia)) as H1.
        rewrite zero_samples in H1. lra. }
  now rewrite Hleft, Hrem.
Qed.





(** The remainder of a pass that cut at a sample after the first. *)
Lemma remainder_facts cur :
  0 < sampling_rate cur -> day_end_of cur < endtime cur ->
  (0 < cut_index cur)%Z ->
  sampling_rate (remainder_of cur) = sampling_rate cur /\
  starttime (remainder_of cur) =
    starttime cur + inject_Z (cut_index cur) * (1 / sampling_rate cur) /\
  data (remainder_of cur) = skipn (Z.to_nat (cut_index cur)) (data cur) /\
  data (remainder_of cur) <> [] /\
  endtime (remainder_of cur) == endtime cur.
Proof.
  intros Hsr Het Hm.
  destruct (crossing_samples cur Hsr Het) as (Hne & Hx0 & Hx1 & Hm0 & Hm1).
  unfold remainder_of.
  replace (cut_index cur <=? 0)%Z with false by (symmetry; apply Z.leb_gt; lia).
  set (c2 := set_data _ _).
  assert (Hne2 : data c2 <> []).
  { unfold c2. simpl. intros E.
    apply (f_equal (@List.length _)) in E.
    rewrite length_skipn in E. simpl in E. unfold npts in *. lia. }
  repeat split; auto.
  rewrite (endtime_nonempty cur Hne), (endtime_nonempty c2 Hne2).
  unfold c2. simpl. unfold npts at 1. simpl.
  rewrite length_skipn_Z by lia.
  unfold Zminus. repeat rewrite ?inject_Z_plus, ?inject_Z_opp.
  change (inject_Z 1) with 1.
  field. now apply rate_nonzero.
Qed.




Lemma skipn_S_tl {A} n (l : list A) : skipn (S n) l = tl (skipn n l).
Proof.
  revert l. induction n as [|n IH]; intros [|x l]; simpl; auto.
  apply IH.
Qed.

(** The first part of a crossing trace ends with the sample at which the
    remainder starts. *)
Lemma left_facts cur :
  0 < sampling_rate cur -> day_end_of cur < endtime cur ->
  data (left_of cur) <> [] /\
  endtime (left_of cur) ==
    starttime cur + inject_Z (cut_index cur) / sampling_rate cur.
Proof.
  intros Hsr Het.
  destruct (crossing_samples cur Hsr Het) as (Hne & Hx0 & Hx1 & Hm0 & Hm1).
  assert (Hlen : List.length (data (left_of cur)) = Z.to_nat (cut_index cur + 1)).
  { unfold left_of. simpl. rewrite length_firstn. unfold npts in *. lia. }
  assert (Hne' : data (left_of cur) <> []).
  { intros E. rewrite E in Hlen. simpl in Hlen. lia. }
  split; [exact Hne'|].
  rewrite (endtime_nonempty _ Hne'). unfold npts. rewrite Hlen.
  replace (Z.of_nat (Z.to_nat (cut_index cur + 1)) - 1)%Z with (cut_index cur)
    by lia.
  reflexivity.
Qed.



Lemma hd_error_skipn {A} n (l : list A) : hd_error (skipn n l) = nth_error l n.
Proof.
  revert l. induction n as [|n IH]; intros [|x l]; simpl; auto.
Qed.

Lemma split_loop_acc fuel : forall cur parts,
  Sds.split_loop fuel cur parts =
  match Sds.split_loop fuel cur [] with
  | Some (Ok segs) => Some (Ok (parts ++ segs))
  | r => r
  end.
Proof.
  induction fuel as [|fuel IH]; intros cur parts; simpl; [reflexivity|].
  destruct (Sds.split_step cur) as [[last|lp cur']|e]; try reflexivity.
  rewrite (IH cur' (parts ++ [lp])), (IH cur' [lp]).
  destruct (Sds.split_loop fuel cur' []) as [[segs|e]|]; try reflexivity.
  now rewrite <- app_assoc.
Qed.

Lemma split_step_cases cur :
  0 < sampling_rate cur ->
  (endtime cur <= day_end_of cur /\ Sds.split_step cur = Ok (Sds.Break cur)) \/
  (day_end_of cur < endtime cur /\
   Sds.split_step cur = Ok (Sds.Continue (left_of cur) (remainder_of cur))).
Proof.
  intros Hsr. destruct (Qlt_le_dec (day_end_of cur) (endtime cur)) as [H | H].
  - right. split; [exact H|]. now apply split_step_crossing.
  - left. split; [exact H|]. unfold Sds.split_step. fold (day_end_of cur).
    apply Qle_bool_iff in H. now rewrite H.
Qed.

Lemma remainder_stuck cur :
  0 < sampling_rate cur -> day_end_of cur < endtime cur ->
  cut_index cur = 0%Z ->
  forall fuel parts, Sds.split_loop fuel cur parts = None.
Proof.
  intros Hsr Het E0. apply split_loop_stuck with (left_part := left_of cur).
  rewrite (split_step_crossing cur Hsr Het). unfold remainder_of.
  now rewrite E0.
Qed.

Lemma part_of_refl tr : part_of tr tr.
Proof. repeat split. Qed.

Lemma split_loop_chain fuel : forall cur segs,
  0 < sampling_rate cur ->
  Sds.split_loop fuel cur [] = Some (Ok segs) ->
  exists p rest,
    segs = p :: rest /\ starttime p = starttime cur /\
    (data cur <> [] -> data p <> []) /\
    chained p rest /\
    data cur = data p ++ flat_map (fun q => tl (data q)) rest /\
    Forall (part_of cur) segs.
Proof.
  induction fuel as [|fuel IH]; intros cur segs Hsr H; simpl in H;
    [discriminate H|].
  destruct (split_step_cases cur Hsr) as [[Het Hstep] | [Het Hstep]];
    rewrite Hstep in H.
  - inversion H; subst. exists cur, []. simpl. rewrite app_nil_r.
    repeat split; auto. constructor; [apply part_of_refl|constructor].
  - rewrite split_loop_acc in H.
    destruct (Sds.split_loop fuel (remainder_of cur) []) as [[segs'|e]|] eqn:Es;
      try discriminate H.
    inversion H; subst; clear H.
    destruct (crossing_samples cur Hsr Het) as (Hne & Hx0 & Hx1 & Hm0 & Hm1).
    destruct (Z.eq_dec (cut_index cur) 0) as [E0 | E0].
    { assert (Hr : remainder_of cur = cur)
        by (unfold remainder_of; now rewrite E0).
      rewrite Hr, (remainder_stuck cur Hsr Het E0) in Es. discriminate Es. }
    destruct (remainder_facts cur Hsr Het ltac:(lia)) as (Rsr & Rst & Rd & Rne & Ret).
    destruct (left_facts cur Hsr Het) as [Lne Let].
    apply IH in Es; [|now rewrite Rsr].
    destruct Es as (p & rest & -> & Pst & Pne & Pch & Pd & Pall).
    specialize (Pne Rne).
    exists (left_of cur), (p :: rest). cbn [chained flat_map].
    repeat split; auto.
    + rewrite Pst, Let, Rst. unfold Qdiv. ring.
    + assert (Hp0 : hd_error (data p) = hd_error (data (remainder_of cur))).
      { rewrite Pd. destruct (data p); [congruence|reflexivity]. }
      rewrite Hp0, Rd, hd_error_skipn.
      unfold left_of. cbn [data set_data]. rewrite length_firstn.
      replace (Init.Nat.min (Z.to_nat (cut_index cur + 1)) (List.length (data cur))
               - 1)%nat with (Z.to_nat (cut_index cur))
        by (unfold npts in *; lia).
      rewrite nth_error_firstn.
      replace (Z.to_nat (cut_index cur) <? Z.to_nat (cut_index cur + 1))%nat
        with true by (symmetry; apply Nat.ltb_lt; lia).
      reflexivity.
    + replace (tl (data p) ++ flat_map (fun q => tl (data q)) rest)
        with (tl (data (remainder_of cur)))
        by (rewrite Pd; destruct (data p); [congruence|reflexivity]).
      rewrite Rd, <- skipn_S_tl.
      replace (S (Z.to_nat (cut_index cur))) with (Z.to_nat (cut_index cur + 1))
        by lia.
      unfold left_of. cbn [data set_data]. now rewrite firstn_skipn.
    + constructor; [repeat split|].
      eapply Forall_impl; [|exact Pall].
      intros q [Hid Hq]. split.
      * unfold same_id in *. unfold remainder_of in Hid.
        destruct (cut_index cur <=? 0)%Z; simpl in Hid; exact Hid.
      * now rewrite Hq, Rsr.
Qed.

(** X6: When the splitter returns, the first part starts where the trace starts,
    each later part starts with the sample the part before it ends with,
    the samples of the trace are those of the first part followed by those
    of every later part but its first, and every part carries the channel
    and the sampling rate of the trace. *)
Theorem split_parts_share_boundary_samples fuel tr parts :
  0 < sampling_rate tr ->
  Sds.split_trace_at_midnights fuel tr = Some (Ok parts) ->
  exists p rest,
    parts = p :: rest /\ starttime p = starttime tr /\
    chained p rest /\
    data tr = data p ++ flat_map (fun q => tl (data q)) rest /\
    Forall (part_of tr) parts.
Proof.
  intros Hsr H. apply split_loop_chain in H; [|exact Hsr].
  destruct H as (p & rest & -> & H1 & _ & H2 & H3 & H4).
  exists p, rest. auto.
Qed.

Lemma split_parts_share_boundary_samples_witness :
  exists p rest,
    [left_of (one_hertz (- (16 # 10)) [1; 2; 3; 4]%Z);
     remainder_of (one_hertz (- (16 # 10)) [1; 2; 3; 4]%Z)] = p :: rest /\
    starttime p = starttime (one_hertz (- (16 # 10)) [1; 2; 3; 4]%Z) /\
    chained p rest /\
    data (one_hertz (- (16 # 10)) [1; 2; 3; 4]%Z) =
      data p ++ flat_map (fun q => tl (data q)) rest /\
    Forall (part_of (one_hertz (- (16 # 10)) [1; 2; 3; 4]%Z))
      [left_of (one_hertz (- (16 # 10)) [1; 2; 3; 4]%Z);
       remainder_of (one_hertz (- (16 # 10)) [1; 2; 3; 4]%Z)].
Proof.
  apply (split_parts_share_boundary_samples 2); vm_compute; reflexivity.
Defined.

Lemma split_loop_no_raise fuel : forall cur parts e,
  0 < sampling_rate cur -> Sds.split_loop fuel cur parts <> Some (Raise e).
Proof.
  induction fuel as [|fuel IH]; intros cur parts e Hsr; simpl; [discriminate|].
  destruct (split_step_cases cur Hsr) as [[Het Hstep] | [Het Hstep]];
    rewrite Hstep; [discriminate|].
  apply IH. unfold remainder_of.
  destruct (cut_index cur <=? 0)%Z; exact Hsr.
Qed.

Lemma split_loop_decided fuel : forall cur parts,
  0 < sampling_rate cur -> (npts cur < Z.of_nat fuel)%Z ->
  Sds.split_loop fuel cur parts = None ->
  forall fuel' parts', Sds.split_loop fuel' cur parts' = None.
Proof.
  induction fuel as [|fuel IH]; intros cur parts Hsr Hn H fuel' parts'.
  - unfold npts in Hn. lia.
  - simpl in H.
    destruct (split_step_cases cur Hsr) as [[Het Hstep] | [Het Hstep]];
      rewrite Hstep in H; [discriminate H|].
    destruct (crossing_samples cur Hsr Het) as (Hne & Hx0 & Hx1 & Hm0 & Hm1).
    destruct (Z.eq_dec (cut_index cur) 0) as [E0 | E0];
      [now apply remainder_stuck|].
    destruct (remainder_facts cur Hsr Het ltac:(lia)) as (Rsr & Rst & Rd & Rne & Ret).
    destruct fuel' as [|fuel']; [reflexivity|]. simpl. rewrite Hstep.
    apply (IH (remainder_of cur) (parts ++ [left_of cur])); auto.
    + now rewrite Rsr.
    + unfold npts at 1. rewrite Rd, length_skipn_Z by lia. lia.
Qed.

(** X10: The splitter raises nothing on a trace with a positive sampling rate,
    and when it returns it has made at most one pass per sample of the
    trace and one more. *)
Theorem split_returns_within_one_pass_per_sample fuel tr r :
  0 < sampling_rate tr ->
  Sds.split_trace_at_midnights fuel tr = Some r ->
  (exists parts, r = Ok parts) /\
  Sds.split_trace_at_midnights (S (Z.to_nat (npts tr))) tr = Some r.
Proof.
  intros Hsr H. unfold Sds.split_trace_at_midnights in *. split.
  - destruct r as [parts|e]; [now exists parts|].
    exfalso. now apply (split_loop_no_raise fuel tr [] e Hsr).
  - destruct (Sds.split_loop (S (Z.to_nat (npts tr))) tr []) as [r'|] eqn:E.
    + destruct (Nat.le_ge_cases fuel (S (Z.to_nat (npts tr)))) as [Hle | Hle].
      * rewrite (split_loop_more_fuel _ _ _ _ H _ Hle) in E. now rewrite E.
      * rewrite (split_loop_more_fuel _ _ _ _ E _ Hle) in H. exact H.
    + assert (Hn : (npts tr < Z.of_nat (S (Z.to_nat (npts tr))))%Z)
        by (unfold npts; lia).
      rewrite (split_loop_decided _ _ _ Hsr Hn E fuel []) in H.
      discriminate H.
Qed.

Lemma split_returns_within_one_pass_per_sample_witness :
  Sds.split_trace_at_midnights 5 (one_hertz (- (16 # 10)) [1; 2; 3; 4]%Z) =
  Some (Ok [left_of (one_hertz (- (16 # 10)) [1; 2; 3; 4]%Z);
            remainder_of (one_hertz (- (16 # 10)) [1; 2; 3; 4]%Z)]).
Proof.
  apply (proj2 (split_returns_within_one_pass_per_sample 1000
                  (one_hertz (- (16 # 10)) [1; 2; 3; 4]%Z)
                  (Ok [left_of (one_hertz (- (16 # 10)) [1; 2; 3; 4]%Z);
                       remainder_of (one_hertz (- (16 # 10)) [1; 2; 3; 4]%Z)])
                  ltac:(vm_compute; reflexivity)
                  ltac:(vm_compute; reflexivity))).
Defined.







Local Close Scope Q_scope.

Local Open Scope Q_scope.

(** ** The sampling rates of the binned segments *)

(** A header field that trimming does not touch is the same on every part
    the splitter returns. *)
Section HeaderKept.
Context {A : Type} (f : Trace -> A).
Hypothesis f_data : forall tr d, f (set_data tr d) = f tr.
Hypothesis f_start : forall tr t, f (set_starttime tr t) = f tr.

Lemma ltrim_keeps tr t : f (ltrim tr t) = f tr.
Proof.
  unfold ltrim. destruct (_ <=? 0)%Z; [reflexivity|].
  destruct (Qltb _ _); now rewrite f_data, f_start.
Qed.

Lemma rtrim_keeps tr t : f (rtrim tr t) = f tr.
Proof.
  unfold rtrim. destruct (0 <=? _)%Z; [reflexivity|].
  destruct (Qltb _ _); now rewrite f_data, ?f_start.
Qed.

Lemma trim_keeps tr t1 t2 tr' : trim tr t1 t2 = Ok tr' -> f tr' = f tr.
Proof.
  unfold trim. destruct (Qltb t2 t1); [discriminate|].
  intros H. inversion H. now rewrite rtrim_keeps, ltrim_keeps.
Qed.

Lemma split_loop_keeps fuel : forall cur parts segs,
  Sds.split_loop fuel cur parts = Some (Ok segs) ->
  Forall (fun p => f p = f cur) parts ->
  Forall (fun p => f p = f cur) segs.
Proof.
  induction fuel as [|fuel IH]; intros cur parts segs H Hparts; simpl in H.
  - discriminate H.
  - unfold Sds.split_step in H.
    destruct (Qle_bool _ _).
    + inversion H; subst. apply Forall_app. split; [exact Hparts|].
      constructor; [reflexivity|constructor].
    + destruct (trim cur (starttime cur) _) as [lp|e] eqn:El; simpl in H;
        [|discriminate H].
      destruct (trim cur _ (endtime cur)) as [cur'|e] eqn:Ec; simpl in H;
        [|discriminate H].
      apply trim_keeps in El, Ec.
      apply IH in H.
      * rewrite Ec in H. exact H.
      * rewrite Ec. apply Forall_app. split; [exact Hparts|].
        constructor; [exact El|constructor].
Qed.
End HeaderKept.

Lemma bins_append_hold (P : Trace -> Prop) key seg : forall bins,
  P seg -> bins_hold P bins -> bins_hold P (Sds.bins_append key seg bins).
Proof.
  intros bins Hseg. induction 1 as [|[k st] bins Hst Hbins IH]; simpl.
  - constructor; [|constructor]. constructor; [exact Hseg|constructor].
  - destruct k as [[[[[n1 s1] l1] c1] y1] j1].
    destruct key as [[[[[n2 s2] l2] c2] y2] j2].
    destruct (_ && _).
    + constructor; [|exact Hbins].
      apply Forall_app. split; [exact Hst|]. constructor; [exact Hseg|constructor].
    + constructor; [exact Hst|exact IH].
Qed.

Lemma fold_bins_hold (P : Trace -> Prop) segs : forall bins,
  Forall P segs -> bins_hold P bins ->
  bins_hold P (fold_left (fun b seg => Sds.bins_append (Sds.key_of seg) seg b)
                         segs bins).
Proof.
  induction segs as [|seg segs IH]; intros bins Hs Hb; simpl; [exact Hb|].
  inversion Hs; subst. apply IH; [assumption|]. now apply bins_append_hold.
Qed.

(** A property of a header field that neither trimming nor the location
    touches holds of every segment binned from traces that have it. *)
Lemma bin_stream_hold {A} (f : Trace -> A) (R : A -> Prop) fuel st :
  (forall tr d, f (set_data tr d) = f tr) ->
  (forall tr t, f (set_starttime tr t) = f tr) ->
  (forall tr l, f (set_location tr l) = f tr) ->
  forall bins bins',
    Forall (fun tr => R (f tr)) st -> bins_hold (fun tr => R (f tr)) bins ->
    Sds.bin_stream fuel st bins = Some (Ok bins') ->
    bins_hold (fun tr => R (f tr)) bins'.
Proof.
  intros Hd Hs Hl.
  induction st as [|tr st IH]; intros bins bins' Hst Hbins H; simpl in H.
  - now inversion H; subst.
  - inversion Hst as [|? ? Htr Hst']; subst.
    destruct (Sds.split_trace_at_midnights fuel _) as [[segs|e]|] eqn:Es;
      try discriminate H.
    apply (IH _ _ Hst') in H; [exact H|].
    apply fold_bins_hold; [|exact Hbins].
    apply (split_loop_keeps f Hd Hs) in Es; [|constructor].
    eapply Forall_impl; [|exact Es].
    intros p Hp. simpl in Hp. now rewrite Hp, Hl.
Qed.

Lemma round_sampling_rate_settled tr : settled (Sds.round_sampling_rate tr).
Proof.
  unfold settled, Sds.round_sampling_rate.
  destruct (Qltb (Qabs (sampling_rate tr - inject_Z (py_round (sampling_rate tr))))
                 binary64_1e_6) eqn:E.
  - cbn [sampling_rate set_sampling_rate]. rewrite py_round_integer.
    replace (Qltb _ _) with true; [reflexivity|].
    symmetry. apply Qltb_lt. unfold binary64_1e_6. split_abs; lra.
  - now rewrite E.
Qed.

Lemma settled_by_rate a b :
  sampling_rate b = sampling_rate a -> settled a -> settled b.
Proof.
  unfold settled, Sds.round_sampling_rate. intros Hsr H. rewrite Hsr.
  destruct (Qltb _ _); [|reflexivity].
  apply (f_equal sampling_rate) in H. simpl in H.
  destruct b. simpl in *. now rewrite H, Hsr.
Qed.

Lemma prepared_stream_settled st :
  Forall settled
    (stable_sort Sds.file_order
       (Sds.fix_masked_arrays (Sds.round_sampling_rates st))).
Proof.
  apply stable_sort_Forall.
  unfold Sds.fix_masked_arrays, Sds.round_sampling_rates.
  rewrite map_map. apply Forall_map. apply Forall_forall. intros tr _.
  apply (settled_by_rate (Sds.round_sampling_rate tr)); [reflexivity|].
  apply round_sampling_rate_settled.
Qed.

Lemma bin_stream_settled fuel st bins bins' :
  Forall settled st -> bins_hold settled bins ->
  Sds.bin_stream fuel st bins = Some (Ok bins') -> bins_hold settled bins'.
Proof.
  intros Hst Hbins H.
  pose (R := fun sr : Q => exists a, sampling_rate a = sr /\ settled a).
  assert (HR : forall tr, settled tr <-> R (sampling_rate tr)).
  { intros tr. split.
    - intros Htr. now exists tr.
    - intros (a & Ha & Hs). now apply (settled_by_rate a). }
  assert (Hhold : bins_hold (fun tr => R (sampling_rate tr)) bins').
  { apply (bin_stream_hold sampling_rate R fuel st) with (bins := bins); auto.
    - eapply Forall_impl; [|exact Hst]. intros tr. apply HR.
    - eapply Forall_impl; [|exact Hbins]. intros b Hb.
      eapply Forall_impl; [|exact Hb]. intros tr. apply HR. }
  eapply Forall_impl; [|exact Hhold]. intros b Hb.
  eapply Forall_impl; [|exact Hb]. intros tr. apply HR.
Qed.

Lemma read_files_settled fuel net files : forall run run',
  bins_hold settled (Sds.bins_of run) ->
  Sds.read_files fuel net files run = Some (Sds.Finished run') ->
  bins_hold settled (Sds.bins_of run').
Proof.
  induction files as [|f files IH]; intros run run' Hbins H; simpl in H.
  - inversion H; subst. exact Hbins.
  - destruct f as [st|].
    + destruct (Sds.fix_seedid st net) as [st'|e'] eqn:Ef; [|discriminate H].
      destruct (Sds.bin_stream fuel _ _) as [[bins|e'']|] eqn:Eb;
        try discriminate H.
      apply IH in H; [exact H|]. simpl.
      apply (bin_stream_settled _ _ _ _ (prepared_stream_settled st') Hbins Eb).
    + apply IH in H; [exact H|]. exact Hbins.
Qed.

Lemma round_sampling_rates_settled st :
  Forall settled st -> Sds.round_sampling_rates st = st.
Proof.
  unfold Sds.round_sampling_rates.
  induction 1 as [|tr st Htr _ IH]; simpl; [reflexivity|].
  now rewrite Htr, IH.
Qed.

(** X14: The bins that the first phase of [process] fills hold traces whose
    rates [round_sampling_rates] has already rounded (line 141).  The
    [round_sampling_rates] of the handler of lines 165-168 therefore
    changes nothing, whatever the failed merge has left of the bin, as
    long as what is left carries sampling rates of the bin. *)
Theorem rounding_in_the_retry_changes_no_rate fuel net files run key st st' :
  Sds.read_files fuel net files (Sds.mkRun [] 0 0 0 [] []) =
    Some (Sds.Finished run) ->
  In (key, st) (Sds.bins_of run) ->
  (forall t, In t st' ->
             exists s, In s st /\ sampling_rate t = sampling_rate s) ->
  Sds.round_sampling_rates st' = st'.
Proof.
  intros H Hin Hleft. apply read_files_settled in H; [|constructor].
  unfold bins_hold in H. rewrite Forall_forall in H.
  specialize (H _ Hin). simpl in H.
  apply round_sampling_rates_settled.
  rewrite Forall_forall in *. intros t Ht.
  destruct (Hleft t Ht) as (s & Hs & Hsr).
  apply (settled_by_rate s); [exact Hsr|]. now apply H.
Qed.

Lemma rounding_in_the_retry_changes_no_rate_witness :
  Sds.round_sampling_rates (snd abc_bin) = snd abc_bin.
Proof.
  apply (rounding_in_the_retry_changes_no_rate
           2 "NR" [Some (one_trace "ABC" (10000001 # 10000000))]
           (Sds.mkRun [abc_bin] 1 1 0 [] []) (fst abc_bin) (snd abc_bin)).
  - vm_compute. reflexivity.
  - left. reflexivity.
  - intros t Ht. now exists t.
Defined.

Local Close Scope Q_scope.

(** ** The keys of the bins and the day files *)

Lemma key_eqb_eq (n1 s1 l1 c1 n2 s2 l2 c2 : string) (y1 j1 y2 j2 : Z) :
  String.eqb n1 n2 && String.eqb s1 s2 && String.eqb l1 l2 &&
  String.eqb c1 c2 && Z.eqb y1 y2 && Z.eqb j1 j2 = true <->
  (n1, s1, l1, c1, y1, j1) = (n2, s2, l2, c2, y2, j2).
Proof.
  rewrite !andb_true_iff, !String.eqb_eq, !Z.eqb_eq.
  split.
  - intros [[[[[-> ->] ->] ->] ->] ->]. reflexivity.
  - intros H. inversion H. auto 10.
Qed.

Lemma bins_append_keys key seg : forall bins,
  (In key (map fst bins) ->
   map fst (Sds.bins_append key seg bins) = map fst bins) /\
  (~ In key (map fst bins) ->
   map fst (Sds.bins_append key seg bins) = map fst bins ++ [key]).
Proof.
  induction bins as [|[k st] bins [IH1 IH2]]; simpl.
  - split; [intros []|reflexivity].
  - destruct k as [[[[[n1 s1] l1] c1] y1] j1].
    destruct key as [[[[[n2 s2] l2] c2] y2] j2].
    destruct (_ && _) eqn:E.
    + apply key_eqb_eq in E. simpl. split; [reflexivity|].
      intros H. exfalso. apply H. now left.
    + assert (Hne : (n1, s1, l1, c1, y1, j1) <> (n2, s2, l2, c2, y2, j2)).
      { intros H. apply key_eqb_eq in H. congruence. }
      simpl. split.
      * intros [H | H]; [contradiction|]. now rewrite IH1.
      * intros H. rewrite IH2; [reflexivity|]. intros Hin. apply H. now right.
Qed.

Lemma bins_append_keyed seg : forall bins,
  Forall keyed bins ->
  Forall keyed (Sds.bins_append (Sds.key_of seg) seg bins).
Proof.
  induction 1 as [|[k st] bins [Hne Hk] Hbins IH]; simpl.
  - constructor; [|constructor]. split; [discriminate|].
    constructor; [reflexivity|constructor].
  - destruct k as [[[[[n1 s1] l1] c1] y1] j1]. unfold Sds.key_of at 1.
    destruct (_ && _) eqn:E.
    + apply key_eqb_eq in E.
      constructor; [|exact Hbins]. split; simpl.
      * simpl in Hne. destruct st; [congruence|discriminate].
      * apply Forall_app. split; [exact Hk|].
        constructor; [|constructor]. simpl. unfold Sds.key_of. now rewrite E.
    + constructor; [|exact IH]. now split.
Qed.

Lemma bins_append_well_keyed seg bins :
  well_keyed bins -> well_keyed (Sds.bins_append (Sds.key_of seg) seg bins).
Proof.
  intros [Hk Hn]. split; [now apply bins_append_keyed|].
  destruct (bins_append_keys (Sds.key_of seg) seg bins) as [H1 H2].
  destruct (in_dec (fun a b : Sds.Key =>
              ltac:(repeat decide equality; try apply string_dec;
                    try apply Z.eq_dec))
              (Sds.key_of seg) (map fst bins)) as [Hin | Hin].
  - now rewrite H1.
  - rewrite H2 by exact Hin. apply NoDup_app; [exact Hn|repeat constructor; auto|].
    intros k Hk1 [<- | []]. contradiction.
Qed.

Lemma fold_bins_well_keyed segs : forall bins,
  well_keyed bins ->
  well_keyed (fold_left (fun b seg => Sds.bins_append (Sds.key_of seg) seg b)
                        segs bins).
Proof.
  induction segs as [|seg segs IH]; intros bins H; simpl; [exact H|].
  apply IH. now apply bins_append_well_keyed.
Qed.

Lemma bin_stream_well_keyed fuel st : forall bins bins',
  well_keyed bins -> Sds.bin_stream fuel st bins = Some (Ok bins') ->
  well_keyed bins'.
Proof.
  induction st as [|tr st IH]; intros bins bins' Hb H; simpl in H.
  - now inversion H; subst.
  - destruct (Sds.split_trace_at_midnights fuel _) as [[segs|e]|];
      try discriminate H.
    apply IH in H; [exact H|]. now apply fold_bins_well_keyed.
Qed.

Lemma read_files_well_keyed fuel net files : forall run run',
  well_keyed (Sds.bins_of run) ->
  Sds.read_files fuel net files run = Some (Sds.Finished run') ->
  well_keyed (Sds.bins_of run').
Proof.
  induction files as [|f files IH]; intros run run' Hbins H; simpl in H.
  - inversion H; subst. exact Hbins.
  - destruct f as [st|].
    + destruct (Sds.fix_seedid st net) as [st'|e'] eqn:Ef; [|discriminate H].
      destruct (Sds.bin_stream fuel _ _) as [[bins|e'']|] eqn:Eb;
        try discriminate H.
      apply IH in H; [exact H|]. simpl.
      apply (bin_stream_well_keyed _ _ _ _ Hbins Eb).
    + apply IH in H; [exact H|]. exact Hbins.
Qed.

(** *** What [merge] makes of the traces of one channel *)

Lemma length_insert_sorted {A} (leb : A -> A -> bool) x l :
  List.length (insert_sorted leb x l) = S (List.length l).
Proof.
  induction l as [|y l IH]; simpl; [reflexivity|].
  destruct (leb x y); simpl; [reflexivity|]. now rewrite IH.
Qed.

Lemma length_stable_sort {A} (leb : A -> A -> bool) l :
  List.length (stable_sort leb l) = List.length l.
Proof.
  induction l as [|x l IH]; simpl; [reflexivity|].
  now rewrite length_insert_sorted, IH.
Qed.

Lemma group_by_id_one id (l : list (nat * Trace)) :
  Forall (fun x => trace_id (snd x) = id) l ->
  forall acc,
    (acc = [] \/ exists g, acc = [(id, g)]) ->
    let groups :=
      fold_left (fun groups x =>
                   if (npts (snd x) =? 0)%Z then groups else group_add x groups)
                l acc in
    groups = [] \/ exists g, groups = [(id, g)].
Proof.
  induction 1 as [|x l Hx _ IH]; intros acc Hacc; simpl; [exact Hacc|].
  apply IH. destruct (npts (snd x) =? 0)%Z; [exact Hacc|].
  right. destruct Hacc as [-> | [g ->]]; simpl.
  - rewrite Hx. eexists. reflexivity.
  - rewrite Hx, String.eqb_refl. eexists. reflexivity.
Qed.

Lemma length_merge_group method fill_value g :
  (List.length (merge_group method fill_value g) <= 1)%nat.
Proof. destruct g as [|[i tr] [|x g]]; simpl; lia. Qed.

(** The merge of traces of one channel holds at most one trace. *)
Lemma merge_one_channel method fill_value st id out :
  Forall (fun tr => trace_id tr = id) st ->
  merge method fill_value st = Ok out -> (List.length out <= 1)%nat.
Proof.
  intros Hid H. unfold merge in H.
  destruct (merge_checks [] st); simpl in H; [|discriminate H].
  inversion H; subst; clear H.
  rewrite length_map, length_stable_sort.
  set (sorted := stable_sort _ _).
  assert (Hs : Forall (fun x => trace_id (snd x) = id) sorted).
  { apply stable_sort_Forall. clear -Hid.
    generalize 0%nat. induction Hid as [|tr st Htr _ IH]; intros n; simpl;
      constructor; auto. }
  destruct (group_by_id_one id sorted Hs [] (or_introl eq_refl)) as [E | [g E]];
    unfold group_by_id; rewrite E; simpl; [lia|].
  rewrite app_nil_r. apply length_merge_group.
Qed.

Lemma group_add_Forall (P : nat * Trace -> Prop) x : forall groups,
  P x -> Forall (fun kg => Forall P (snd kg)) groups ->
  Forall (fun kg => Forall P (snd kg)) (group_add x groups).
Proof.
  intros groups Hx. induction 1 as [|[k g] groups Hg Hgs IH]; simpl.
  - repeat constructor. exact Hx.
  - destruct (String.eqb k _).
    + constructor; [|exact Hgs]. simpl. apply Forall_app. split; [exact Hg|].
      repeat constructor. exact Hx.
    + constructor; [exact Hg|exact IH].
Qed.

Lemma group_by_id_Forall (P : nat * Trace -> Prop) l :
  Forall P l -> Forall (fun kg => Forall P (snd kg)) (group_by_id l).
Proof.
  unfold group_by_id. intros H.
  assert (G : forall acc, Forall (fun kg => Forall P (snd kg)) acc ->
              Forall (fun kg => Forall P (snd kg))
                (fold_left (fun groups x =>
                   if (npts (snd x) =? 0)%Z then groups else group_add x groups)
                   l acc)).
  { induction H as [|x l Hx _ IH]; intros acc Hacc; simpl; [exact Hacc|].
    apply IH. destruct (npts (snd x) =? 0)%Z; [exact Hacc|].
    now apply group_add_Forall. }
  apply G. constructor.
Qed.

Lemma fold_add_Forall (P : Trace -> Prop) method fill_value
      (more : list (nat * Trace)) :
  (forall a b, P a -> P b -> P (add method fill_value a b)) ->
  forall tr, P tr -> Forall (fun x => P (snd x)) more ->
  P (fold_left (fun cur x => add method fill_value cur (snd x)) more tr).
Proof.
  intros Hadd. induction more as [|y more IH]; intros tr Htr Hm; simpl;
    [exact Htr|].
  inversion Hm; subst. apply IH; [|assumption]. now apply Hadd.
Qed.

(** A property of traces that [add] keeps holds of every trace that
    [merge] returns when it holds of every trace of the stream. *)
Lemma merge_Forall (P : Trace -> Prop) method fill_value st out :
  (forall a b, P a -> P b -> P (add method fill_value a b)) ->
  Forall P st -> merge method fill_value st = Ok out -> Forall P out.
Proof.
  intros Hadd HP H. unfold merge in H.
  destruct (merge_checks [] st); simpl in H; [|discriminate H].
  inversion H; subst; clear H.
  apply Forall_map. apply stable_sort_Forall.
  apply Forall_flat_map.
  assert (Hs : Forall (fun x : nat * Trace => P (snd x))
                 (stable_sort (fun a b => merge_order (snd a) (snd b))
                    (combine (seq 0 (List.length st)) st))).
  { apply stable_sort_Forall. clear -HP.
    generalize 0%nat. induction HP as [|tr st Htr _ IH]; intros n; simpl;
      constructor; auto. }
  apply group_by_id_Forall in Hs.
  eapply Forall_impl; [|exact Hs].
  intros [k g] Hg. simpl in *.
  destruct g as [|[i tr] [|x g]]; simpl.
  - constructor.
  - inversion Hg; subst. repeat constructor. assumption.
  - inversion Hg as [|? ? Htr Hrest]; subst. constructor; [|constructor].
    change (P (fold_left (fun cur x0 => add method fill_value cur (snd x0))
                         (x :: g) tr)).
    apply fold_add_Forall; assumption.
Qed.

Lemma key_of_add method fill_value a b key :
  Sds.key_of a = key -> Sds.key_of b = key ->
  Sds.key_of (add method fill_value a b) = key.
Proof.
  intros Ha Hb. unfold add. destruct (Qle_bool _ _); exact Ha || exact Hb.
Qed.

Lemma key_of_trace_id a b : Sds.key_of a = Sds.key_of b -> trace_id a = trace_id b.
Proof. unfold Sds.key_of, trace_id. intros H. inversion H. congruence. Qed.

Lemma key_of_round_sampling_rate tr :
  Sds.key_of (Sds.round_sampling_rate tr) = Sds.key_of tr.
Proof. unfold Sds.round_sampling_rate. now destruct (Qltb _ _). Qed.

(** The merge of a keyed bin holds at most one trace, which has the key. *)
Lemma merge_bin_keyed key st out :
  keyed (key, st) -> Sds.merge_bin st = Ok out ->
  (List.length out <= 1)%nat /\ Forall (fun tr => Sds.key_of tr = key) out.
Proof.
  intros [Hne Hk] H. simpl in Hk.
  assert (G : forall st0, Forall (fun tr => Sds.key_of tr = key) st0 ->
              merge Method1 None st0 = Ok out ->
              (List.length out <= 1)%nat /\
              Forall (fun tr => Sds.key_of tr = key) out).
  { intros st0 H0 Hm. split.
    - destruct st0 as [|t0 st0'].
      + vm_compute in Hm. inversion Hm. simpl. lia.
      + apply (merge_one_channel Method1 None (t0 :: st0') (trace_id t0));
          [|exact Hm].
        inversion H0; subst. eapply Forall_impl; [|exact H0].
        intros tr Htr. apply key_of_trace_id. congruence.
    - apply (merge_Forall _ Method1 None st0); auto.
      intros a b. apply key_of_add. }
  unfold Sds.merge_bin in H.
  destruct (merge Method1 None st) as [merged|e] eqn:E.
  - inversion H; subst. now apply (G st).
  - apply (G (Sds.round_sampling_rates st)); [|exact H].
    unfold Sds.round_sampling_rates. apply Forall_map.
    eapply Forall_impl; [|exact Hk].
    intros tr Htr. now rewrite key_of_round_sampling_rate.
Qed.

Lemma stamp_keyed tr n s l c y j :
  Sds.key_of tr = (n, s, l, c, y, j) ->
  set_channel (set_location (set_station (set_network tr n) s) l) c = tr.
Proof.
  unfold Sds.key_of. intros H. inversion H. now destruct tr.
Qed.

(** X19: The day file that [process] makes of a bin the first phase has filled
    is the merge of the bin, which holds one trace; that trace has the
    network, station, location and channel of the key and starts on the day
    of the key, so that the assignments of lines 172-175 change nothing. *)
Theorem day_file_is_one_trace_of_its_key fuel net files run key st file :
  Sds.read_files fuel net files (Sds.mkRun [] 0 0 0 [] []) =
    Some (Sds.Finished run) ->
  In (key, st) (Sds.bins_of run) ->
  Sds.day_file (key, st) = Ok file ->
  exists tr,
    Sds.merge_bin st = Ok [tr] /\ file = (key, [tr]) /\ Sds.key_of tr = key.
Proof.
  intros H Hin Hfile.
  apply read_files_well_keyed in H; [|split; constructor].
  destruct H as [Hk _]. rewrite Forall_forall in Hk. specialize (Hk _ Hin).
  unfold Sds.day_file in Hfile.
  destruct key as [[[[[n s] l] c] y] j].
  destruct (Sds.merge_bin st) as [merged|e] eqn:Em; simpl in Hfile;
    [|discriminate Hfile].
  destruct (merge_bin_keyed _ _ _ Hk Em) as [Hlen Hall].
  destruct merged as [|tr0 [|tr1 others]]; simpl in Hlen;
    [discriminate Hfile| |lia].
  inversion Hall as [|? ? Htr0 _]; subst.
  rewrite (stamp_keyed _ _ _ _ _ _ _ Htr0) in Hfile.
  inversion Hfile; subst. exists tr0. auto.
Qed.

Lemma day_file_is_one_trace_of_its_key_witness :
  exists tr,
    Sds.merge_bin (snd abc_bin) = Ok [tr] /\
    abc_bin = (fst abc_bin, [tr]) /\ Sds.key_of tr = fst abc_bin.
Proof.
  apply (day_file_is_one_trace_of_its_key
           2 "NR" [Some (one_trace "ABC" 1)]
           (Sds.mkRun [abc_bin] 1 1 0 [] []) (fst abc_bin) (snd abc_bin)
           abc_bin).
  - vm_compute. reflexivity.
  - left. reflexivity.
  - vm_compute. reflexivity.
Defined.

(** ** The counters of [process] *)

Lemma read_files_counts fuel net files : forall run run',
  Sds.read_files fuel net files run = Some (Sds.Finished run') ->
  Sds.total_files run' = (Sds.total_files run + List.length files)%nat /\
  Sds.read_ok run' = (Sds.read_ok run + List.length (filter readable files))%nat /\
  Sds.wrote run' = Sds.wrote run /\ Sds.archive run' = Sds.archive run /\
  Sds.errors run' = Sds.errors run.
Proof.
  induction files as [|f files IH]; intros run run' H; simpl in H.
  - inversion H; subst. simpl. repeat split; lia.
  - destruct f as [st|]; simpl.
    + destruct (Sds.fix_seedid st net) as [st'|e'] eqn:Ef; [|discriminate H].
      destruct (Sds.bin_stream fuel _ _) as [[bins|e'']|] eqn:Eb;
        try discriminate H.
      apply IH in H. simpl in H. destruct H as (H1 & H2 & H3 & H4 & H5).
      repeat split; auto; lia.
    + apply IH in H. simpl in H. destruct H as (H1 & H2 & H3 & H4 & H5).
      repeat split; auto; lia.
Qed.

Lemma day_file_key item file : Sds.day_file item = Ok file -> fst file = fst item.
Proof.
  unfold Sds.day_file. destruct item as [[[[[[n s] l] c] y] j] st].
  destruct (Sds.merge_bin st) as [[|tr0 others]|e]; simpl; try discriminate.
  intros H. now inversion H.
Qed.

Lemma write_bins_counts mkdir_ok write_ok items : forall run run',
  Sds.write_bins mkdir_ok write_ok items run = Sds.Finished run' ->
  Sds.bins_of run' = Sds.bins_of run /\
  Sds.total_files run' = Sds.total_files run /\
  Sds.read_ok run' = Sds.read_ok run /\
  (Sds.wrote run = List.length (Sds.archive run) ->
   Sds.wrote run' = List.length (Sds.archive run')) /\
  Permutation (map fst (Sds.archive run') ++ Sds.errors run')
              ((map fst (Sds.archive run) ++ Sds.errors run) ++ map fst items).
Proof.
  induction items as [|item items IH]; intros run run' H; simpl in H.
  - inversion H; subst. rewrite app_nil_r. repeat split; auto.
  - unfold Sds.write_bin in H.
    destruct (Sds.day_file item) as [file|e] eqn:Ef; simpl in H;
      [|discriminate H].
    apply day_file_key in Ef.
    destruct (mkdir_ok (fst file)); [|discriminate H].
    destruct (Sds.write_succeeds write_ok file);
      apply IH in H; simpl in H; destruct H as (H1 & H2 & H3 & H4 & H5);
      repeat split; auto.
    + intros Hw. apply H4. rewrite length_app. simpl. lia.
    + rewrite H5, map_app. simpl. rewrite Ef, <- !app_assoc.
      apply Permutation_app_head. simpl.
      apply Permutation_cons_app. reflexivity.
    + rewrite H5, Ef, <- !app_assoc. reflexivity.
Qed.

Lemma insert_sorted_permutation {A} (leb : A -> A -> bool) x l :
  Permutation (insert_sorted leb x l) (x :: l).
Proof.
  induction l as [|y l IH]; simpl; [reflexivity|].
  destruct (leb x y); [reflexivity|].
  rewrite IH. apply perm_swap.
Qed.

Lemma stable_sort_permutation {A} (leb : A -> A -> bool) l :
  Permutation (stable_sort leb l) l.
Proof.
  induction l as [|x l IH]; simpl; [reflexivity|].
  rewrite insert_sorted_permutation. now constructor.
Qed.

(** X20: When [process] returns, it has counted every file, every file that
    could be read and every day file written; every bin was either written
    or reported as failed, and no two bins have one key, so that no day file
    was written twice. *)
Theorem process_accounts_for_files_and_bins
        mkdir_ok write_ok fuel files net run :
  Sds.process mkdir_ok write_ok fuel files net = Some (Sds.Finished run) ->
  Sds.total_files run = List.length files /\
  Sds.read_ok run = List.length (filter readable files) /\
  Sds.wrote run = List.length (Sds.archive run) /\
  Permutation (map fst (Sds.archive run) ++ Sds.errors run)
              (map fst (Sds.bins_of run)) /\
  NoDup (map fst (Sds.bins_of run)).
Proof.
  unfold Sds.process. intros H.
  destruct (Sds.read_files fuel net files _) as [[run1|e run1]|] eqn:Er;
    try discriminate H.
  inversion H as [Hw]; clear H.
  pose proof (read_files_counts _ _ _ _ _ Er) as (R1 & R2 & R3 & R4 & R5).
  assert (Hwk : well_keyed (Sds.bins_of (Sds.mkRun [] 0 0 0 [] [])))
    by (split; constructor).
  pose proof (read_files_well_keyed _ _ _ _ _ Hwk Er) as [_ Hnd].
  simpl in R1, R2, R3, R4, R5.
  apply write_bins_counts in Hw. destruct Hw as (W1 & W2 & W3 & W4 & W5).
  rewrite W1, W2, W3. repeat split; auto.
  - apply W4. now rewrite R3, R4.
  - rewrite W5, R4, R5. simpl.
    apply Permutation_map. apply stable_sort_permutation.
Qed.

Lemma process_accounts_for_files_and_bins_witness :
  exists run,
    Sds.process (fun _ => true) (fun _ => true) 2 three_files "NR" =
      Some (Sds.Finished run) /\
    Sds.total_files run = 3%nat /\
    Sds.read_ok run = 3%nat /\
    Sds.wrote run = List.length (Sds.archive run) /\
    Permutation (map fst (Sds.archive run) ++ Sds.errors run)
                (map fst (Sds.bins_of run)) /\
    NoDup (map fst (Sds.bins_of run)).
Proof.
  eexists. split; [vm_compute; reflexivity|].
  apply (process_accounts_for_files_and_bins
           (fun _ => true) (fun _ => true) 2 three_files "NR").
  vm_compute. reflexivity.
Defined.

Local Open Scope Q_scope.

(** ** Fragments that follow each other *)

(** X15: Two fragments of one channel and one sampling rate, the second starting
    one sample interval after the last sample of the first, are joined into
    one trace that holds the samples of the first followed by those of the
    second, by the merge of either script and in whichever order the bin
    holds them. *)
Theorem contiguous_fragments_are_concatenated A B :
  same_id A B -> sampling_rate B == sampling_rate A ->
  0 < sampling_rate A -> data A <> [] -> data B <> [] ->
  starttime B == endtime A + 1 / sampling_rate A ->
  Sds.merge_bin [A; B] = Ok [set_data A (data A ++ data B)] /\
  Sds.merge_bin [B; A] = Ok [set_data A (data A ++ data B)] /\
  Legacy.append_and_merge [A] [B] = Ok [set_data A (data A ++ data B)].
Proof.
  intros Hid Hrate Hsr HA HB Hnext.
  assert (Hgap : starttime B == endtime A + inject_Z (0 + 1) / sampling_rate A)
    by exact Hnext.
  destruct (add_gap Method1 None A B 0 Hsr HA ltac:(lia) Hgap) as [Hlt H1].
  destruct (add_gap Method0 (Some 0%Z) A B 0 Hsr HA ltac:(lia) Hgap) as [_ H0].
  destruct (merge_two Method1 None A B Hid Hrate HA HB Hlt) as [M1 M1'].
  destruct (merge_two Method0 (Some 0%Z) A B Hid Hrate HA HB Hlt) as [M0 _].
  unfold Sds.merge_bin, Legacy.append_and_merge. cbn [app].
  rewrite M1, M1', M0, H1, H0. repeat split.
Qed.

Lemma contiguous_fragments_are_concatenated_witness :
  Sds.merge_bin [early; one_hertz 3 [4; 5]%Z] =
    Ok [set_data early [Val 1; Val 2; Val 3; Val 4; Val 5]] /\
  Legacy.append_and_merge [early] [one_hertz 3 [4; 5]%Z] =
    Ok [set_data early [Val 1; Val 2; Val 3; Val 4; Val 5]].
Proof.
  destruct (contiguous_fragments_are_concatenated early (one_hertz 3 [4; 5]%Z))
    as (H1 & _ & H3).
  - repeat split.
  - reflexivity.
  - reflexivity.
  - discriminate.
  - discriminate.
  - vm_compute. reflexivity.
  - split; [exact H1|exact H3].
Defined.

Lemma existsb_repeat_masked n :
  (0 < n)%nat -> existsb Sds.is_masked (repeat Masked n) = true.
Proof. destruct n; [lia|reflexivity]. Qed.

(** X16: A bin that holds two fragments with [g > 0] samples missing between
    them merges into a trace with masked samples, which [st.write] refuses
    before it reaches the encoder: whatever the encoder and the file system
    would do, the day file is not written and the failure is reported. *)
Theorem day_with_a_gap_is_not_written mkdir_ok write_ok key A B (g : Z) run :
  same_id A B -> sampling_rate B == sampling_rate A ->
  0 < sampling_rate A -> data A <> [] -> data B <> [] -> (0 < g)%Z ->
  starttime B == endtime A + inject_Z (g + 1) / sampling_rate A ->
  mkdir_ok key = true ->
  exists file,
    Sds.day_file (key, [A; B]) = Ok file /\ fst file = key /\
    Sds.write_succeeds write_ok file = false /\
    Sds.write_bin mkdir_ok write_ok (key, [A; B]) run = Ok (Sds.failed run file).
Proof.
  intros Hid Hrate Hsr HA HB Hg Hgap Hdir.
  destruct (add_gap Method1 None A B g Hsr HA ltac:(lia) Hgap) as [Hlt H1].
  destruct (merge_two Method1 None A B Hid Hrate HA HB Hlt) as [M1 _].
  assert (Hm : Sds.merge_bin [A; B] =
               Ok [set_data A (data A ++ repeat Masked (Z.to_nat g) ++ data B)]).
  { unfold Sds.merge_bin. now rewrite M1, H1. }
  destruct key as [[[[[n s] l] c] y] j].
  eexists. split; [|split; [|split]].
  - unfold Sds.day_file. rewrite Hm. cbn [bind]. reflexivity.
  - reflexivity.
  - unfold Sds.write_succeeds, Sds.has_masked. cbn [snd existsb data set_data
      set_channel set_location set_station set_network].
    rewrite !existsb_app, existsb_repeat_masked by lia.
    now rewrite orb_true_r.
  - unfold Sds.write_bin, Sds.day_file. rewrite Hm. cbn [bind fst].
    rewrite Hdir.
    unfold Sds.write_succeeds, Sds.has_masked. cbn [snd existsb data set_data
      set_channel set_location set_station set_network].
    rewrite !existsb_app, existsb_repeat_masked by lia.
    now rewrite orb_true_r.
Qed.

Lemma day_with_a_gap_is_not_written_witness :
  exists file,
    Sds.day_file gap_bin = Ok file /\ fst file = fst gap_bin /\
    Sds.write_succeeds (fun _ => true) file = false /\
    Sds.write_bin (fun _ => true) (fun _ => true) gap_bin
                  (Sds.mkRun [] 2 2 0 [] []) =
      Ok (Sds.failed (Sds.mkRun [] 2 2 0 [] []) file).
Proof.
  apply (day_with_a_gap_is_not_written (fun _ => true) (fun _ => true)
           (fst gap_bin) early late 2).
  - repeat split.
  - reflexivity.
  - reflexivity.
  - discriminate.
  - discriminate.
  - reflexivity.
  - vm_compute. reflexivity.
  - reflexivity.
Defined.

Local Close Scope Q_scope.

(** ** The loop of [02_mseed2sds.py] *)

(** [UTCDateTime.day] on dates of the calendar. *)
Example day_of_calendar_dates :
  day midnight = 5%Z /\ day_of_month 15399 = 29%Z /\ day_of_month 15400 = 1%Z /\
  day_of_month 0 = 1%Z /\ day_of_month (-1) = 31%Z /\
  day_of_month 11322 = 31%Z /\ day_of_month 47541 = 1%Z.
Proof. repeat split. Qed.

Lemma write_nothing_step net write_ok d s f s' :
  on_day net d f ->
  (Legacy.lastday s = None /\ Legacy.dayst s = []) \/ Legacy.lastday s = Some d ->
  Legacy.file_step net write_ok s f = Legacy.Reached s' ->
  Legacy.sds s' = Legacy.sds s /\
  ((Legacy.lastday s' = None /\ Legacy.dayst s' = []) \/
   Legacy.lastday s' = Some d).
Proof.
  intros Hday Hs H. unfold Legacy.file_step in H.
  destruct f as [st|]; [|inversion H; subst; auto].
  unfold on_day, file_days in Hday.
  destruct (Legacy.fix_seedid st net) as [[|tr0 rest]|e];
    cbn [Legacy.and_then Legacy.call of_option hd_error] in H;
    try discriminate H.
  specialize (Hday _ eq_refl). injection Hday as Hd1 Hd2.
  cbv zeta in H. rewrite Hd1, Hd2, Z.eqb_refl in H.
  cbn [negb Legacy.and_then] in H.
  destruct Hs as [[Hl Hd] | Hl]; rewrite Hl in H.
  - rewrite Hd in H.
    cbn [Legacy.and_then Legacy.call of_option hd_error] in H.
    inversion H; subst. simpl. auto.
  - rewrite Z.eqb_refl in H. cbn [negb] in H.
    destruct (Legacy.append_and_merge _ _) as [[|m merged]|e];
      cbn [Legacy.and_then Legacy.call of_option hd_error] in H;
      try discriminate H.
    inversion H; subst. simpl. auto.
Qed.

Lemma write_nothing_files net write_ok d files : forall s s',
  Forall (on_day net d) files ->
  (Legacy.lastday s = None /\ Legacy.dayst s = []) \/ Legacy.lastday s = Some d ->
  Legacy.file_loop net write_ok s files = Legacy.Reached s' ->
  Legacy.sds s' = Legacy.sds s.
Proof.
  induction files as [|f files IH]; intros s s' Hall Hs H; simpl in H.
  - now inversion H.
  - inversion Hall as [|? ? Hf Hrest]; subst.
    destruct (Legacy.file_step net write_ok s f) as [s1|e] eqn:E; simpl in H;
      [|discriminate H].
    destruct (write_nothing_step _ _ _ _ _ _ Hf Hs E) as [H1 H2].
    rewrite <- H1. now apply IH.
Qed.

Lemma write_nothing_dirs net write_ok daydirs : forall s s',
  Forall (fun files => exists d, Forall (on_day net d) files) daydirs ->
  Legacy.daydir_loop net write_ok s daydirs = Legacy.Reached s' ->
  Legacy.sds s' = Legacy.sds s.
Proof.
  induction daydirs as [|files daydirs IH]; intros s s' Hall H; simpl in H.
  - now inversion H.
  - inversion Hall as [|? ? [d Hd] Hrest]; subst.
    destruct (Legacy.daydir_step net write_ok s files) as [s1|e] eqn:E;
      simpl in H; [|discriminate H].
    unfold Legacy.daydir_step in E.
    apply (write_nothing_files _ _ d) in E; auto. simpl in E.
    rewrite <- E. now apply IH.
Qed.

(** X24: The script writes the stream of a day only when it meets, in the same
    day directory, a file that crosses midnight or starts on another day of
    the month: if in every day directory all files start and end on one day
    of the month, the script ends without having written anything. *)
Theorem script_writes_nothing_without_a_day_change net write_ok daydirs s :
  Forall (fun files => exists d, Forall (on_day net d) files) daydirs ->
  Legacy.script net write_ok daydirs = Legacy.Reached s ->
  Legacy.sds s = [].
Proof.
  intros Hall H. unfold Legacy.script in H.
  now apply write_nothing_dirs in H.
Qed.

Lemma script_writes_nothing_without_a_day_change_witness :
  exists s,
    Legacy.script "NR" (fun _ => true)
      [[Some (one_trace "ABC" 1); Some (one_trace "ABC" 1)]; [None]] =
      Legacy.Reached s /\
    Legacy.sds s = [].
Proof.
  eexists. split; [vm_compute; reflexivity|].
  apply (script_writes_nothing_without_a_day_change "NR" (fun _ => true)
           [[Some (one_trace "ABC" 1); Some (one_trace "ABC" 1)]; [None]]).
  - constructor; [|constructor; [|constructor]]; exists 5%Z;
      repeat constructor; intros days H; vm_compute in H;
      try discriminate H; injection H as <-; reflexivity.
  - vm_compute. reflexivity.
Defined.

(** X25: The first file of the input tree that can be read crosses midnight: the
    script ends with the NameError of [dayetime] on line 94, which no
    assignment has reached yet. *)
Theorem script_dies_when_the_first_file_crosses_midnight
        net write_ok unread f files daydirs d1 d2 :
  Forall (fun u => u = None) unread ->
  file_days net f = Some (d1, d2) -> d1 <> d2 ->
  Legacy.script net write_ok ((unread ++ f :: files) :: daydirs) =
    Legacy.Died Legacy.NameError.
Proof.
  intros Hun Hdays Hne. unfold Legacy.script. simpl.
  unfold Legacy.daydir_step. simpl.
  assert (E : Legacy.file_loop net write_ok (Legacy.mkLoop [] None None [])
                (unread ++ f :: files) = Legacy.Died Legacy.NameError).
  { induction Hun as [|u unread -> _ IH]; simpl; [|exact IH].
    unfold Legacy.file_step. unfold file_days in Hdays.
    destruct f as [st|]; [|discriminate Hdays].
    destruct (Legacy.fix_seedid st net) as [[|tr0 rest]|e];
      cbn [Legacy.and_then Legacy.call of_option hd_error];
      try discriminate Hdays.
    inversion Hdays; subst. cbv zeta.
    replace (day (starttime tr0) =? day (endtime tr0))%Z with false
      by (symmetry; now apply Z.eqb_neq).
    reflexivity. }
  now rewrite E.
Qed.

Lemma script_dies_when_the_first_file_crosses_midnight_witness :
  Legacy.script "NR" (fun _ => true) [[None; Some [across_midnight]]] =
  Legacy.Died Legacy.NameError.
Proof.
  apply (script_dies_when_the_first_file_crosses_midnight
           "NR" (fun _ => true) [None] (Some [across_midnight]) [] [] 4 5).
  - repeat constructor.
  - vm_compute. reflexivity.
  - discriminate.
Defined.

Lemma legacy_fix_seedid_irig_only st net :
  Forall (fun tr => station tr = "IRIG") st -> Legacy.fix_seedid st net = Ok [].
Proof.
  intros Hall.
  assert (Hf : filter (fun tr => negb (is_irig tr)) st = []).
  { induction Hall as [|tr st Htr _ IH]; simpl; [reflexivity|].
    unfold is_irig at 1. rewrite Htr. simpl. exact IH. }
  unfold Legacy.fix_seedid.
  change (Legacy.fix_loop net (seq 0 (List.length st))
            (map (fun tr => Legacy.mkSlot tr true) st))
    with (Legacy.fix_loop net
            (seq (List.length (@nil Legacy.slot)) (List.length st))
            ([] ++ map fresh_slot st)).
  destruct (Legacy.fix_loop _ _ _) as [slots|e] eqn:E; simpl.
  - apply legacy_fix_loop_bodies in E; [|constructor].
    destruct E as (out & Hc & Hf2). rewrite Hf in Hf2. inversion Hf2; subst.
    simpl in Hc. now rewrite Hc.
  - apply legacy_fix_loop_raises_iff in E; [|constructor].
    destruct E as (_ & tr & Hin & Hempty).
    rewrite Forall_forall in Hall. specialize (Hall _ Hin). congruence.
Qed.

(** X26: A file that holds nothing but IRIG traces ends the script: [fix_seedid]
    removes every trace, and [st[0]] on line 90 raises an IndexError that
    nothing catches. *)
Theorem file_of_irig_traces_ends_the_script net write_ok s st :
  Forall (fun tr => station tr = "IRIG") st ->
  Legacy.file_step net write_ok s (Some st) =
    Legacy.Died (Legacy.Uncaught IndexError) /\
  forall files rest daydirs,
    Forall (fun u => u = None) files ->
    Legacy.script net write_ok ((files ++ Some st :: rest) :: daydirs) =
      Legacy.Died (Legacy.Uncaught IndexError).
Proof.
  intros Hall.
  assert (Hstep : forall s', Legacy.file_step net write_ok s' (Some st) =
                             Legacy.Died (Legacy.Uncaught IndexError)).
  { intros s'. unfold Legacy.file_step.
    now rewrite (legacy_fix_seedid_irig_only st net Hall). }
  split; [apply Hstep|].
  intros files rest daydirs Hun. unfold Legacy.script.
  cbn [Legacy.daydir_loop]. unfold Legacy.daydir_step.
  assert (E : forall s', Legacy.file_loop net write_ok s'
                (files ++ Some st :: rest) =
              Legacy.Died (Legacy.Uncaught IndexError)).
  { induction Hun as [|u files -> _ IH]; intros s';
      cbn [app Legacy.file_loop].
    - now rewrite Hstep.
    - cbn [Legacy.file_step Legacy.and_then]. apply IH. }
  now rewrite E.
Qed.

Lemma file_of_irig_traces_ends_the_script_witness :
  Legacy.script "NR" (fun _ => true) [[None; Some [raw "IRIG" ""]]] =
  Legacy.Died (Legacy.Uncaught IndexError).
Proof.
  apply (proj2 (file_of_irig_traces_ends_the_script
                  "NR" (fun _ => true) (Legacy.mkLoop [] None None [])
                  [raw "IRIG" ""]
                  ltac:(repeat constructor))
               [None] [] []).
  repeat constructor.
Defined.

Local Open Scope string_scope.

(** ** The paths of the day files *)

Lemma value_zero s : value (String "0" s) = value s.
Proof.
  unfold value. simpl. now destruct (NilEmpty.uint_of_string s).
Qed.

Lemma value_zero_pad w s : value (zero_pad w s) = value s.
Proof.
  unfold zero_pad. induction (w - String.length s)%nat as [|n IH]; simpl;
    [reflexivity|].
  now rewrite value_zero.
Qed.

Lemma value_digits n : value (NilEmpty.string_of_uint (N.to_uint n)) = Some n.
Proof.
  unfold value. rewrite NilEmpty.usu. simpl.
  now rewrite DecimalN.Unsigned.of_to.
Qed.

Lemma value_not_signed s : value (String "-" s) = None.
Proof.
  unfold value. simpl. now destruct (NilEmpty.uint_of_string s).
Qed.

(** Reading back what [format_d] wrote gives the number. *)
Lemma parse_format_d w z : parse_d (format_d w z) = Some z.
Proof.
  unfold format_d. destruct (z <? 0)%Z eqn:Ez.
  - apply Z.ltb_lt in Ez. simpl.
    rewrite value_zero_pad, value_digits. simpl. f_equal.
    rewrite N2Z.inj_abs_N. lia.
  - apply Z.ltb_ge in Ez.
    pose proof (value_zero_pad w (NilEmpty.string_of_uint (N.to_uint (Z.abs_N z))))
      as Hv.
    rewrite value_digits in Hv.
    destruct (zero_pad w _) as [|c s] eqn:Es.
    + unfold value in Hv. simpl in Hv. inversion Hv as [Hz].
      apply (f_equal Z.of_N) in Hz. rewrite N2Z.inj_abs_N in Hz. simpl in Hz.
      simpl. f_equal. lia.
    + unfold parse_d. destruct (Ascii.eqb c "-") eqn:Ec.
      * apply Ascii.eqb_eq in Ec. subst c. rewrite value_not_signed in Hv.
        discriminate Hv.
      * rewrite Hv. simpl. f_equal. rewrite N2Z.inj_abs_N. lia.
Qed.

Lemma format_d_inj w z w' z' : format_d w z = format_d w' z' -> z = z'.
Proof.
  intros H. apply (f_equal parse_d) in H. rewrite !parse_format_d in H.
  now inversion H.
Qed.

Lemma no_dot_append a b : no_dot (a ++ b) = no_dot a && no_dot b.
Proof.
  induction a as [|c a IH]; simpl; [reflexivity|].
  now rewrite IH, andb_assoc.
Qed.

Lemma digits_no_dot s d : NilEmpty.uint_of_string s = Some d -> no_dot s = true.
Proof.
  revert d. induction s as [|c s IH]; intros d H; simpl in *; [reflexivity|].
  destruct (NilEmpty.uint_of_string s) as [d'|] eqn:E.
  - rewrite (IH d' eq_refl), andb_true_r.
    destruct (Ascii.eqb c ".") eqn:Ec; [|reflexivity].
    apply Ascii.eqb_eq in Ec. subst c. discriminate H.
  - destruct c as [[] [] [] [] [] [] [] []]; discriminate H.
Qed.

Lemma zeros_no_dot n : no_dot (zeros n) = true.
Proof. induction n; simpl; auto. Qed.

Lemma format_d_no_dot w z : no_dot (format_d w z) = true.
Proof.
  assert (H : forall w', no_dot (zero_pad w'
                (NilEmpty.string_of_uint (N.to_uint (Z.abs_N z)))) = true).
  { intros w'. unfold zero_pad. rewrite no_dot_append, zeros_no_dot.
    simpl. apply (digits_no_dot _ (N.to_uint (Z.abs_N z))).
    apply NilEmpty.usu. }
  unfold format_d. destruct (z <? 0)%Z; simpl; apply H.
Qed.

(** What follows the last dot of a string is determined by the string. *)
Lemma split_at_last_dot s : forall s' t t',
  no_dot t = true -> no_dot t' = true ->
  s ++ String "." t = s' ++ String "." t' -> s = s' /\ t = t'.
Proof.
  induction s as [|c s IH]; intros [|c' s'] t t' Ht Ht' H; simpl in H.
  - inversion H. auto.
  - inversion H; subst. rewrite no_dot_append in Ht. simpl in Ht.
    rewrite andb_false_r in Ht. discriminate Ht.
  - inversion H; subst. rewrite no_dot_append in Ht'. simpl in Ht'.
    rewrite andb_false_r in Ht'. discriminate Ht'.
  - inversion H; subst. destruct (IH s' t t' Ht Ht') as [-> ->]; auto.
Qed.

Lemma append_inv_head a b c : a ++ b = a ++ c -> b = c.
Proof.
  induction a as [|x a IH]; simpl; intros H; [exact H|].
  inversion H. auto.
Qed.

Lemma length_append a b :
  String.length (a ++ b) = (String.length a + String.length b)%nat.
Proof. induction a as [|x a IH]; simpl; auto. Qed.

Lemma append_inv_tail a : forall b c, b ++ a = c ++ a -> b = c.
Proof.
  induction b as [|x b IH]; intros [|y c] H; simpl in H.
  - reflexivity.
  - apply (f_equal String.length) in H. simpl in H.
    rewrite length_append in H. lia.
  - apply (f_equal String.length) in H. simpl in H.
    rewrite length_append in H. lia.
  - inversion H; subst. f_equal. now apply IH.
Qed.

Lemma append_assoc a b c : (a ++ b) ++ c = a ++ b ++ c.
Proof. induction a as [|x a IH]; simpl; [reflexivity|]. now rewrite IH. Qed.

Lemma no_slash_append a b : no_slash (a ++ b) = no_slash a && no_slash b.
Proof.
  induction a as [|c a IH]; simpl; [reflexivity|].
  now rewrite IH, andb_assoc.
Qed.

Lemma digits_no_slash s d :
  NilEmpty.uint_of_string s = Some d -> no_slash s = true.
Proof.
  revert d. induction s as [|c s IH]; intros d H; simpl in *; [reflexivity|].
  destruct (NilEmpty.uint_of_string s) as [d'|] eqn:E.
  - rewrite (IH d' eq_refl), andb_true_r.
    destruct (Ascii.eqb c "/") eqn:Ec; [|reflexivity].
    apply Ascii.eqb_eq in Ec. subst c. discriminate H.
  - destruct c as [[] [] [] [] [] [] [] []]; discriminate H.
Qed.

Lemma zeros_no_slash n : no_slash (zeros n) = true.
Proof. induction n; simpl; auto. Qed.

Lemma format_d_no_slash w z : no_slash (format_d w z) = true.
Proof.
  assert (H : forall w', no_slash (zero_pad w'
                (NilEmpty.string_of_uint (N.to_uint (Z.abs_N z)))) = true).
  { intros w'. unfold zero_pad. rewrite no_slash_append, zeros_no_slash.
    simpl. apply (digits_no_slash _ (N.to_uint (Z.abs_N z))).
    apply NilEmpty.usu. }
  unfold format_d. destruct (z <? 0)%Z; simpl; apply H.
Qed.

Lemma length_zeros n : String.length (zeros n) = n.
Proof. induction n; simpl; auto. Qed.

(** [format_d] pads to the width at least. *)
Lemma length_format_d w z : (w <= String.length (format_d w z))%nat.
Proof.
  assert (H : forall w' d, (w' <= String.length (zero_pad w' d))%nat).
  { intros w' d. unfold zero_pad. rewrite length_append, length_zeros. lia. }
  unfold format_d. destruct (z <? 0)%Z.
  - simpl. specialize (H (w - 1)%nat
                         (NilEmpty.string_of_uint (N.to_uint (Z.abs_N z)))).
    lia.
  - apply H.
Qed.

(** A string of two characters or more is a name that [pathlib] keeps. *)
Lemma long_name_kept s : (2 <= String.length s)%nat -> Sds.name_kept s = true.
Proof.
  destruct s as [|a [|b s]]; simpl; try lia. intros _.
  unfold Sds.name_kept. simpl.
  destruct (Ascii.eqb a "."); reflexivity.
Qed.

(** A string without a slash is read as one relative name. *)
Lemma split_slash_plain s : no_slash s = true -> Sds.split_slash s = [s]%list.
Proof.
  induction s as [|c s IH]; simpl; [reflexivity|].
  intros H. apply andb_prop in H as [Hc Hs].
  apply negb_true_iff in Hc. rewrite Hc, (IH Hs). reflexivity.
Qed.

Lemma anchor_of_plain s : no_slash s = true -> Sds.anchor_of s = Sds.Relative.
Proof.
  destruct s as [|c s]; simpl; [reflexivity|].
  intros H. apply andb_prop in H as [Hc _].
  apply negb_true_iff in Hc. now rewrite Hc.
Qed.

Lemma joinpath_plain p s :
  no_slash s = true -> Sds.name_kept s = true ->
  Sds.joinpath p s = Sds.mkPath (Sds.anchor p) (Sds.names p ++ [s])%list.
Proof.
  intros Hs Hk. unfold Sds.joinpath, Sds.names_of.
  rewrite (anchor_of_plain s Hs), (split_slash_plain s Hs). simpl.
  now rewrite Hk.
Qed.

(** Under plain codes the path is the root followed by five names. *)
Lemma sds_path_for_plain tr root y j :
  plain_codes tr = true ->
  Sds.sds_path_for tr root y j =
  Sds.mkPath (Sds.anchor root)
    (Sds.names root ++
     [format_d 4 y; network tr; station tr; (channel tr ++ ".D")%string;
      (trace_id tr ++ ".D." ++ format_d 4 y ++ "." ++ format_d 3 j)%string])%list.
Proof.
  unfold plain_codes, plain_raw, plain_name. intros H.
  repeat match goal with
         | H : _ && _ = true |- _ => apply andb_prop in H as [? ?]
         end.
  unfold Sds.sds_path_for, Sds.sds_dir_for.
  rewrite (joinpath_plain root (format_d 4 y));
    [|apply format_d_no_slash
     |apply long_name_kept; pose proof (length_format_d 4 y); lia].
  rewrite (joinpath_plain _ (network tr)) by assumption.
  rewrite (joinpath_plain _ (station tr)) by assumption.
  rewrite (joinpath_plain _ (channel tr ++ ".D"));
    [|rewrite no_slash_append; simpl; now rewrite andb_true_r
     |apply long_name_kept; rewrite length_append; simpl; lia].
  rewrite joinpath_plain.
  - simpl. rewrite <- !List.app_assoc. reflexivity.
  - unfold trace_id. rewrite !no_slash_append, !format_d_no_slash. simpl.
    repeat match goal with
           | H : _ = true |- _ => rewrite H; clear H
           end.
    reflexivity.
  - apply long_name_kept. rewrite !length_append. simpl. lia.
Qed.

(** The components of two equal paths under one root. *)
Lemma path_components tr root y j tr' y' j' :
  plain_codes tr = true -> plain_codes tr' = true ->
  Sds.sds_path_for tr root y j = Sds.sds_path_for tr' root y' j' ->
  format_d 4 y = format_d 4 y' /\ network tr = network tr' /\
  station tr = station tr' /\ channel tr ++ ".D" = channel tr' ++ ".D" /\
  trace_id tr ++ ".D." ++ format_d 4 y ++ "." ++ format_d 3 j =
  trace_id tr' ++ ".D." ++ format_d 4 y' ++ "." ++ format_d 3 j'.
Proof.
  intros Hp Hp'. rewrite (sds_path_for_plain _ _ _ _ Hp).
  rewrite (sds_path_for_plain _ _ _ _ Hp').
  intros H. inversion H as [Hn]. apply app_inv_head in Hn.
  inversion Hn. auto.
Qed.

Lemma sds_path_determines tr tr' root y j y' j' :
  plain_codes tr = true -> plain_codes tr' = true ->
  Sds.sds_path_for tr root y j = Sds.sds_path_for tr' root y' j' ->
  (network tr, station tr, location tr, channel tr, y, j) =
  (network tr', station tr', location tr', channel tr', y', j').
Proof.
  intros Hp Hp' H.
  apply path_components in H as (Hy & Hn & Hs & Hc & Hf); try assumption.
  apply format_d_inj in Hy. subst y'.
  apply append_inv_tail in Hc.
  unfold trace_id in Hf. rewrite <- Hn, <- Hs, <- Hc in Hf.
  set (F := format_d 4 y) in *.
  assert (E : forall loc J,
            (network tr ++ "." ++ station tr ++ "." ++ loc ++ "." ++ channel tr)
              ++ ".D." ++ F ++ "." ++ J =
            (network tr ++ "." ++ station tr ++ ".") ++
            (loc ++ "." ++ channel tr ++ ".D." ++ F) ++ String "." J).
  { intros loc J. repeat (rewrite ?append_assoc; simpl). reflexivity. }
  rewrite !E in Hf. apply append_inv_head in Hf.
  apply split_at_last_dot in Hf as [Hl Hj]; try apply format_d_no_dot.
  apply format_d_inj in Hj. apply append_inv_tail in Hl.
  congruence.
Qed.

(** X22: Under one archive root, [sds_path_for] gives two traces whose codes
    [pathlib] reads as single names (no code holds a slash, network and
    station are neither empty nor [.]) the same path exactly when they
    have the same network, station, location and channel and the path is
    asked for the same year and day: the path of a day file is then a name
    for its key. *)
Theorem sds_path_for_names_the_key tr tr' root y j y' j' :
  plain_codes tr = true -> plain_codes tr' = true ->
  (Sds.sds_path_for tr root y j = Sds.sds_path_for tr' root y' j' <->
   (network tr, station tr, location tr, channel tr, y, j) =
   (network tr', station tr', location tr', channel tr', y', j')).
Proof.
  intros Hp Hp'. split.
  - now apply sds_path_determines.
  - intros H. injection H as Hn Hs Hl Hc Hy Hj.
    unfold Sds.sds_path_for, Sds.sds_dir_for, trace_id.
    now rewrite Hn, Hs, Hl, Hc, Hy, Hj.
Qed.

Lemma sds_path_for_names_the_key_witness :
  Sds.sds_path_for early (Sds.mkPath Sds.Root ["SDS"]) 2012 96 =
  Sds.sds_path_for late (Sds.mkPath Sds.Root ["SDS"]) 2012 96.
Proof.
  apply (proj2 (sds_path_for_names_the_key
                  early late (Sds.mkPath Sds.Root ["SDS"]%list) 2012 96 2012 96
                  eq_refl eq_refl)).
  reflexivity.
Defined.

(** The layout that the head of the script documents:
    [SDS_ROOT/YYYY/NET/STA/CHA.D/NET.STA.LOC.CHA.D.YYYY.JJJ]. *)
Example sds_path_layout :
  Sds.sds_path_for early (Sds.mkPath Sds.Root ["SDS"]) 2012 96 =
  Sds.mkPath Sds.Root
    ["SDS"; "2012"; "NR"; "PIR"; "EHZ.D"; "NR.PIR..EHZ.D.2012.096"]%list.
Proof. reflexivity. Qed.

(** A code with a slash breaks the naming: a channel code that starts with
    a slash makes [pathlib] start again at the root, and two traces of
    different station and location get one path. *)
Example sds_paths_can_collide :
  Sds.sds_path_for slash_a (Sds.mkPath Sds.Root ["SDS"]) 2012 96 =
  Sds.sds_path_for slash_b (Sds.mkPath Sds.Root ["SDS"]) 2012 96 /\
  Sds.sds_path_for slash_a (Sds.mkPath Sds.Root ["SDS"]) 2012 96 =
  Sds.mkPath Sds.Root ["xZ.D"; "NR.a..b."; "xZ.D.2012.096"]%list /\
  station slash_a <> station slash_b.
Proof. repeat split. discriminate. Qed.

(** *** The codes that reach the bins *)

Lemma plain_name_root s : plain_name s = true -> plain_name (root_of s) = true.
Proof.
  unfold plain_name, root_of.
  destruct s as [|a [|b [|c s]]]; simpl; auto.
  intros H. apply andb_prop in H as [H _].
  repeat (apply andb_prop in H as [? H]).
  unfold Sds.name_kept. simpl.
  repeat match goal with
         | H : negb _ = true |- _ => rewrite H; clear H
         end.
  assert (E : substring 0 0 s = "") by now destruct s.
  rewrite E. simpl. destruct (Ascii.eqb a "."); reflexivity.
Qed.

Lemma last_char_no_slash s c :
  no_slash s = true -> last_char s = Some c -> Ascii.eqb c "/" = false.
Proof.
  induction s as [|a s IH]; simpl; [discriminate|].
  intros H. apply andb_prop in H as [Ha Hs]. destruct s as [|b s].
  - intros E. inversion E; subst. now apply negb_true_iff.
  - now apply IH.
Qed.

Lemma get_no_slash s : forall n c,
  no_slash s = true -> String.get n s = Some c -> Ascii.eqb c "/" = false.
Proof.
  induction s as [|a s IH]; intros n c H; simpl; [discriminate|].
  simpl in H. apply andb_prop in H as [Ha Hs]. destruct n as [|n].
  - intros E. inversion E; subst. now apply negb_true_iff.
  - now apply IH.
Qed.

Lemma no_slash_lstrip s : no_slash s = true -> no_slash (lstrip s) = true.
Proof.
  induction s as [|a s IH]; simpl; [reflexivity|].
  intros H. destruct (is_space a); [|exact H].
  apply andb_prop in H as [_ H]. now apply IH.
Qed.

Lemma no_slash_rstrip s : no_slash s = true -> no_slash (rstrip s) = true.
Proof.
  induction s as [|a s IH]; simpl; [reflexivity|].
  intros H. apply andb_prop in H as [Ha Hs]. specialize (IH Hs).
  destruct (rstrip s) as [|b r].
  - destruct (is_space a); simpl; [reflexivity|]. now rewrite Ha.
  - simpl. simpl in IH. now rewrite Ha, IH.
Qed.

Lemma no_slash_strip s : no_slash s = true -> no_slash (strip s) = true.
Proof.
  intros H. unfold strip. now apply no_slash_rstrip, no_slash_lstrip.
Qed.

(** [fix_seedid] turns plain codes into plain codes. *)
Lemma fix_trace_plain net stations t a :
  plain_name net = true -> plain_raw t = true ->
  Sds.fix_trace net stations t = Ok a -> plain_codes a = true.
Proof.
  unfold Sds.fix_trace, plain_codes, plain_raw. intros Hn Ht H.
  apply andb_prop in Ht as [Ht Hc]. apply andb_prop in Ht as [Hs Hl].
  pose proof (plain_name_root _ Hs) as Hr.
  pose proof (no_slash_strip _ Hl) as Hl'.
  assert (Hs' : no_slash (station t) = true)
    by (unfold plain_name in Hs; now apply andb_prop in Hs as [Hs _]).
  split_result; simpl in *.
  all: repeat match goal with
              | H : Some _ = Some _ |- _ => inversion H; subst; clear H
              end.
  all: repeat match goal with
              | Hs : no_slash ?s = true, H : last_char ?s = Some _ |- _ =>
                  apply (last_char_no_slash _ _ Hs) in H
              | Hs : no_slash ?s = true, H : String.get _ ?s = Some _ |- _ =>
                  apply (get_no_slash _ _ _ Hs) in H
              end.
  all: rewrite ?Hn, ?Hs, ?Hr, ?Hl', ?Hc; simpl;
    repeat match goal with
           | H : Ascii.eqb _ "/" = false |- _ => rewrite H; clear H
           end; reflexivity.
Qed.

Lemma fix_seedid_plain st net out :
  plain_name net = true -> Forall (fun tr => plain_raw tr = true) st ->
  Sds.fix_seedid st net = Ok out ->
  Forall (fun tr => plain_codes tr = true) out.
Proof.
  unfold Sds.fix_seedid. intros Hn Hst H.
  apply SdsFacts.sds_fix_loop_ok in H.
  assert (Hkept : Forall (fun tr => plain_raw tr = true)
                         (filter (fun tr => negb (is_irig tr)) st)).
  { rewrite Forall_forall in *. intros tr Htr. apply filter_In in Htr as [Htr _].
    now apply Hst. }
  revert Hkept. induction H as [|t a kept out' [_ Ha] _ IH]; intros Hkept.
  - constructor.
  - inversion Hkept; subst. constructor; [|now apply IH].
    now apply (fix_trace_plain net (map station st) t).
Qed.

Lemma prepared_stream_plain st :
  Forall (fun tr => plain_codes tr = true) st ->
  Forall (fun tr => plain_codes tr = true)
    (stable_sort Sds.file_order
       (Sds.fix_masked_arrays (Sds.round_sampling_rates st))).
Proof.
  intros H. apply stable_sort_Forall.
  unfold Sds.fix_masked_arrays, Sds.round_sampling_rates.
  rewrite map_map. apply Forall_map.
  eapply Forall_impl; [|exact H].
  intros tr Htr. unfold Sds.round_sampling_rate.
  now destruct (Qltb _ _).
Qed.

Lemma plain_codes_strip tr :
  plain_codes tr = true ->
  plain_codes (set_location tr (strip (location tr))) = true.
Proof.
  unfold plain_codes, plain_raw. destruct tr as [n s l c t0 r d].
  cbn [network station location channel set_location]. intros H.
  apply andb_prop in H as [Hn H]. apply andb_prop in H as [H Hc].
  apply andb_prop in H as [Hs Hl].
  now rewrite Hn, Hs, Hc, (no_slash_strip _ Hl).
Qed.

Lemma bin_stream_plain fuel st : forall bins bins',
  Forall (fun tr => plain_codes tr = true) st ->
  bins_hold (fun tr => plain_codes tr = true) bins ->
  Sds.bin_stream fuel st bins = Some (Ok bins') ->
  bins_hold (fun tr => plain_codes tr = true) bins'.
Proof.
  induction st as [|tr st IH]; intros bins bins' Hst Hbins H; simpl in H.
  - now inversion H; subst.
  - inversion Hst as [|? ? Htr Hst']; subst.
    destruct (Sds.split_trace_at_midnights fuel _) as [[segs|e]|] eqn:Es;
      try discriminate H.
    apply (IH _ _ Hst') in H; [exact H|].
    apply fold_bins_hold; [|exact Hbins].
    apply (split_loop_keeps plain_codes) in Es;
      [|reflexivity|reflexivity|constructor].
    eapply Forall_impl; [|exact Es].
    intros p Hp. simpl in Hp. rewrite Hp. now apply plain_codes_strip.
Qed.

Lemma read_files_plain fuel net files : forall run run',
  plain_name net = true -> Forall plain_file files ->
  bins_hold (fun tr => plain_codes tr = true) (Sds.bins_of run) ->
  Sds.read_files fuel net files run = Some (Sds.Finished run') ->
  bins_hold (fun tr => plain_codes tr = true) (Sds.bins_of run').
Proof.
  induction files as [|f files IH]; intros run run' Hn Hf Hbins H; simpl in H.
  - inversion H; subst. exact Hbins.
  - inversion Hf as [|? ? Hf1 Hf2]; subst. destruct f as [st|].
    + destruct (Sds.fix_seedid st net) as [st'|e'] eqn:Ef; [|discriminate H].
      destruct (Sds.bin_stream fuel _ _) as [[bins|e'']|] eqn:Eb;
        try discriminate H.
      apply IH in H; auto. simpl.
      apply (bin_stream_plain _ _ _ _
               (prepared_stream_plain _ (fix_seedid_plain _ _ _ Hn Hf1 Ef))
               Hbins Eb).
    + apply IH in H; auto.
Qed.

(** *** The paths of a run *)

Lemma keyed_plain b :
  keyed b -> Forall (fun tr => plain_codes tr = true) (snd b) ->
  plain_key (fst b) = true.
Proof.
  destruct b as [k [|seg st]]; unfold keyed; simpl; intros [Hne Hk] Hp;
    [congruence|].
  inversion Hk as [|? ? Hseg _]; subst. inversion Hp as [|? ? Hplain _]; subst.
  exact Hplain.
Qed.

(** The path of a day file is read off the key that [process] has stamped
    on its first trace. *)
Lemma day_file_out_path root item file :
  Sds.day_file item = Ok file ->
  exists tr0,
    Sds.out_path root file =
      Ok (Sds.sds_path_for tr0 root (snd (fst (fst file))) (snd (fst file))) /\
    (network tr0, station tr0, location tr0, channel tr0,
     snd (fst (fst file)), snd (fst file)) = fst file.
Proof.
  unfold Sds.day_file. destruct item as [[[[[[n s] l] c] y] j] st].
  destruct (Sds.merge_bin st) as [[|tr0 others]|e]; simpl; try discriminate.
  intros H. inversion H; subst; clear H. simpl.
  eexists. split; reflexivity.
Qed.

Lemma write_bins_archive (P : Sds.Key * Stream -> Prop)
      mkdir_ok write_ok items : forall run run',
  Forall P items ->
  Sds.write_bins mkdir_ok write_ok items run = Sds.Finished run' ->
  Forall (fun f => exists item, P item /\ Sds.day_file item = Ok f)
         (Sds.archive run) ->
  Forall (fun f => exists item, P item /\ Sds.day_file item = Ok f)
         (Sds.archive run').
Proof.
  induction items as [|item items IH]; intros run run' HP H Harch; simpl in H.
  - now inversion H; subst.
  - inversion HP as [|? ? Hitem HP']; subst.
    unfold Sds.write_bin in H.
    destruct (Sds.day_file item) as [file|e] eqn:Ef; simpl in H;
      [|discriminate H].
    destruct (mkdir_ok (fst file)); [|discriminate H].
    destruct (Sds.write_succeeds write_ok file); apply IH in H; auto.
    simpl. apply Forall_app. split; [exact Harch|].
    constructor; [|constructor]. now exists item.
Qed.

Lemma day_files_paths root (files : list (Sds.Key * Stream)) :
  Forall (fun f => exists item, plain_key (fst item) = true /\
                                Sds.day_file item = Ok f) files ->
  NoDup (map fst files) ->
  exists paths, map (Sds.out_path root) files = map Ok paths /\ NoDup paths.
Proof.
  induction 1 as [|f files (item & Hplain & Hf) Hrest IH]; intros Hnd; simpl.
  - exists []%list. split; [reflexivity|constructor].
  - inversion Hnd as [|? ? Hnotin Hnd']; subst.
    destruct (IH Hnd') as (paths & Hp & Hpn).
    destruct (day_file_out_path root _ _ Hf) as (tr0 & Hout & Hkey).
    eexists (_ :: paths)%list. split; [simpl; now rewrite Hout, Hp|].
    constructor; [|exact Hpn].
    intros Hin. apply Hnotin.
    assert (Hin' : In (Sds.out_path root f) (map (Sds.out_path root) files))
      by (rewrite Hout, Hp; now apply in_map).
    apply in_map_iff in Hin' as (f' & Hf' & Hinf').
    rewrite Forall_forall in Hrest.
    destruct (Hrest _ Hinf') as (item' & Hplain' & Hd').
    destruct (day_file_out_path root _ _ Hd') as (tr0' & Hout' & Hkey').
    rewrite Hout, Hout' in Hf'. inversion Hf' as [Hpath].
    rewrite <- (day_file_key _ _ Hf), <- Hkey in Hplain.
    rewrite <- (day_file_key _ _ Hd'), <- Hkey' in Hplain'.
    apply sds_path_determines in Hpath; [|exact Hplain'|exact Hplain].
    apply in_map_iff. exists f'. split; [|exact Hinf'].
    rewrite <- Hkey, <- Hkey'. exact Hpath.
Qed.

(** X23: When [process] returns on files whose station, location and channel
    codes hold no slash, and whose station codes are neither empty nor
    [.], for a network code of that kind, the day files it has written
    went to pairwise different paths: no day file of the run was written
    over another one. *)
Theorem process_writes_no_path_twice
        mkdir_ok write_ok fuel files net run root :
  plain_name net = true -> Forall plain_file files ->
  Sds.process mkdir_ok write_ok fuel files net = Some (Sds.Finished run) ->
  exists paths,
    map (Sds.out_path root) (Sds.archive run) = map Ok paths /\ NoDup paths.
Proof.
  unfold Sds.process. intros Hnet Hfiles H.
  destruct (Sds.read_files fuel net files _) as [[run1|e run1]|] eqn:Er;
    try discriminate H.
  inversion H as [Hw]; clear H.
  pose proof (read_files_counts _ _ _ _ _ Er) as (_ & _ & _ & R4 & R5).
  assert (Hwk : well_keyed (Sds.bins_of (Sds.mkRun [] 0 0 0 [] [])))
    by (split; constructor).
  pose proof (read_files_well_keyed _ _ _ _ _ Hwk Er) as [Hkeyed Hnd].
  assert (Hplain : bins_hold (fun tr => plain_codes tr = true)
                             (Sds.bins_of run1)).
  { apply (read_files_plain _ _ _ _ _ Hnet Hfiles) in Er; [exact Er|].
    constructor. }
  assert (Hkeys : Forall (fun item => plain_key (fst item) = true)
                         (Sds.bins_of run1)).
  { unfold bins_hold in Hplain. rewrite Forall_forall in *.
    intros b Hb. apply keyed_plain; auto. }
  simpl in R4, R5.
  pose proof (write_bins_counts _ _ _ _ _ Hw) as (_ & _ & _ & _ & W5).
  apply (write_bins_archive (fun item => plain_key (fst item) = true)) in Hw;
    [|now apply stable_sort_Forall|rewrite R4; constructor].
  apply day_files_paths; [exact Hw|].
  rewrite R4, R5 in W5. simpl in W5.
  assert (Hperm : Permutation (map fst (Sds.archive run) ++ Sds.errors run)
                              (map fst (Sds.bins_of run1))).
  { rewrite W5. apply Permutation_map. apply stable_sort_permutation. }
  apply Permutation_sym in Hperm.
  apply (Permutation_NoDup Hperm) in Hnd.
  now apply NoDup_app_remove_r in Hnd.
Qed.

Lemma process_writes_no_path_twice_witness :
  exists run paths,
    Sds.process (fun _ => true) (fun _ => true) 2 three_files "NR" =
      Some (Sds.Finished run) /\
    map (Sds.out_path (Sds.mkPath Sds.Root ["SDS"])) (Sds.archive run) =
      map Ok paths /\
    NoDup paths.
Proof.
  eexists.
  assert (H : Sds.process (fun _ => true) (fun _ => true) 2 three_files "NR" =
              Some (Sds.Finished _)) by (vm_compute; reflexivity).
  assert (Hfiles : Forall plain_file three_files)
    by (repeat constructor).
  destruct (process_writes_no_path_twice
              (fun _ => true) (fun _ => true) 2 three_files "NR" _
              (Sds.mkPath Sds.Root ["SDS"]%list) eq_refl Hfiles H)
    as (paths & Hp & Hn).
  exists paths. split; [exact H|]. split; [exact Hp|exact Hn].
Defined.

Local Open Scope list_scope.

(** ** A trace on which the splitter does not return *)

Lemma bin_stream_hangs fuel st : forall bins,
  (exists p, In p st /\ hangs p) ->
  forall bins', Sds.bin_stream fuel st bins <> Some (Ok bins').
Proof.
  induction st as [|tr st IH]; intros bins (p & Hin & Hp) bins'; simpl.
  - destruct Hin.
  - destruct Hin as [<- | Hin].
    + rewrite (Hp fuel). discriminate.
    + destruct (Sds.split_trace_at_midnights fuel _) as [[segs|e]|];
        try discriminate.
      apply IH. now exists p.
Qed.

Lemma read_files_archive fuel net files : forall run,
  match Sds.read_files fuel net files run with
  | Some (Sds.Finished run') | Some (Sds.Aborted _ run') =>
      Sds.archive run' = Sds.archive run
  | None => True
  end.
Proof.
  induction files as [|f files IH]; intros run; simpl; [reflexivity|].
  destruct f as [st|].
  - destruct (Sds.fix_seedid st net) as [st'|e]; [|reflexivity].
    destruct (Sds.bin_stream fuel _ _) as [[bins|e]|]; try exact I;
      try reflexivity.
    apply (IH (Sds.set_bins (Sds.count_read (Sds.count_file run)) bins)).
  - apply (IH (Sds.count_file run)).
Qed.

Lemma read_files_hangs fuel net st st' p files : forall run run',
  In (Some st) files -> Sds.fix_seedid st net = Ok st' ->
  In p (Sds.fix_masked_arrays (Sds.round_sampling_rates st')) -> hangs p ->
  Sds.read_files fuel net files run <> Some (Sds.Finished run').
Proof.
  induction files as [|f files IH]; intros run run' Hin Hfix Hp Hh; simpl.
  - destruct Hin.
  - destruct Hin as [-> | Hin].
    + rewrite Hfix.
      destruct (Sds.bin_stream fuel _ _) as [[bins|e]|] eqn:Eb;
        try discriminate.
      exfalso. apply (bin_stream_hangs fuel _ _ ltac:(exists p; split;
        [eapply Permutation_in; [apply Permutation_sym;
           apply stable_sort_permutation|exact Hp]|exact Hh]) _ Eb).
    + destruct f as [st0|].
      * destruct (Sds.fix_seedid st0 net) as [st0'|e]; [|discriminate].
        destruct (Sds.bin_stream fuel _ _) as [[bins|e]|]; try discriminate.
        now apply IH.
      * now apply IH.
Qed.

(** X21: The day files are written after every file has been read.  If one
    trace of one file that can be read is a trace on which the splitter
    does not return, [process] does not return either; it can at most be
    left by an exception of the first phase, and in neither case has it
    written a day file. *)
Theorem one_hanging_trace_stops_the_run
        mkdir_ok write_ok net files st st' p fuel :
  In (Some st) files -> Sds.fix_seedid st net = Ok st' ->
  In p (Sds.fix_masked_arrays (Sds.round_sampling_rates st')) -> hangs p ->
  Sds.process mkdir_ok write_ok fuel files net = None \/
  exists e run,
    Sds.process mkdir_ok write_ok fuel files net = Some (Sds.Aborted e run) /\
    Sds.archive run = [].
Proof.
  intros Hin Hfix Hp Hh. unfold Sds.process.
  pose proof (read_files_archive fuel net files (Sds.mkRun [] 0 0 0 [] []))
    as Harch.
  pose proof (read_files_hangs fuel net st st' p files
                (Sds.mkRun [] 0 0 0 [] [])) as Hnot.
  destruct (Sds.read_files fuel net files _) as [[run|e run]|].
  - exfalso. now apply (Hnot run).
  - right. exists e, run. auto.
  - now left.
Qed.

Lemma one_hanging_trace_stops_the_run_witness :
  Sds.process (fun _ => true) (fun _ => true) 1000
    [Some (one_trace "ABC" 1); Some [just_before_midnight]] "NR" = None \/
  exists e run,
    Sds.process (fun _ => true) (fun _ => true) 1000
      [Some (one_trace "ABC" 1); Some [just_before_midnight]] "NR" =
      Some (Sds.Aborted e run) /\
    Sds.archive run = [].
Proof.
  apply (one_hanging_trace_stops_the_run (fun _ => true) (fun _ => true) "NR"
           [Some (one_trace "ABC" 1); Some [just_before_midnight]]
           [just_before_midnight] [just_before_midnight] just_before_midnight).
  - right. left. reflexivity.
  - vm_compute. reflexivity.
  - left. vm_compute. reflexivity.
  - intros fuel. unfold Sds.split_trace_at_midnights.
    apply split_loop_stuck
      with (left_part := set_data just_before_midnight [Val 1]).
    vm_compute. reflexivity.
Defined.

(** ** What the bins hold *)

Lemma existsb_firstn {A} (f : A -> bool) n l :
  existsb f l = false -> existsb f (firstn n l) = false.
Proof.
  revert n. induction l as [|x l IH]; intros [|n] H; simpl in *; auto.
  apply orb_false_elim in H as [Hx Hl]. now rewrite Hx, IH.
Qed.

Lemma existsb_skipn {A} (f : A -> bool) n l :
  existsb f l = false -> existsb f (skipn n l) = false.
Proof.
  revert n. induction l as [|x l IH]; intros [|n] H; simpl in *; auto.
  apply orb_false_elim in H as [Hx Hl]. now apply IH.
Qed.

Lemma ltrim_unmasked tr t : unmasked tr -> unmasked (ltrim tr t).
Proof.
  unfold unmasked, ltrim. intros H. destruct (_ <=? 0)%Z; [exact H|].
  destruct (Qltb _ _); simpl; [reflexivity|]. now apply existsb_skipn.
Qed.

Lemma rtrim_unmasked tr t : unmasked tr -> unmasked (rtrim tr t).
Proof.
  unfold unmasked, rtrim. intros H. destruct (0 <=? _)%Z; [exact H|].
  destruct (Qltb _ _); simpl; [reflexivity|]. now apply existsb_firstn.
Qed.

Lemma trim_unmasked tr t1 t2 tr' :
  trim tr t1 t2 = Ok tr' -> unmasked tr -> unmasked tr'.
Proof.
  unfold trim. destruct (Qltb t2 t1); [discriminate|].
  intros H Hu. inversion H. now apply rtrim_unmasked, ltrim_unmasked.
Qed.

Lemma split_loop_unmasked fuel : forall cur parts segs,
  Sds.split_loop fuel cur parts = Some (Ok segs) ->
  unmasked cur -> Forall unmasked parts -> Forall unmasked segs.
Proof.
  induction fuel as [|fuel IH]; intros cur parts segs H Hcur Hparts;
    simpl in H; [discriminate H|].
  unfold Sds.split_step in H.
  destruct (Qle_bool _ _).
  - inversion H; subst. apply Forall_app. split; [exact Hparts|].
    constructor; [exact Hcur|constructor].
  - destruct (trim cur (starttime cur) _) as [lp|e] eqn:El; simpl in H;
      [|discriminate H].
    destruct (trim cur _ (endtime cur)) as [cur'|e] eqn:Ec; simpl in H;
      [|discriminate H].
    apply IH in H; auto.
    + now apply (trim_unmasked _ _ _ _ Ec).
    + apply Forall_app. split; [exact Hparts|].
      constructor; [|constructor]. now apply (trim_unmasked _ _ _ _ El).
Qed.

Lemma fix_masked_arrays_unmasked st : Forall unmasked (Sds.fix_masked_arrays st).
Proof.
  unfold Sds.fix_masked_arrays. apply Forall_map. apply Forall_forall.
  intros tr _. unfold unmasked. simpl.
  induction (data tr) as [|x l IH]; simpl; [reflexivity|].
  rewrite IH. now destruct x.
Qed.

Lemma bin_stream_unmasked fuel st : forall bins bins',
  Forall unmasked st -> bins_hold unmasked bins ->
  Sds.bin_stream fuel st bins = Some (Ok bins') -> bins_hold unmasked bins'.
Proof.
  induction st as [|tr st IH]; intros bins bins' Hst Hbins H; simpl in H.
  - now inversion H; subst.
  - inversion Hst as [|? ? Htr Hst']; subst.
    destruct (Sds.split_trace_at_midnights fuel _) as [[segs|e]|] eqn:Es;
      try discriminate H.
    apply (IH _ _ Hst') in H; [exact H|].
    apply fold_bins_hold; [|exact Hbins].
    apply split_loop_unmasked in Es; auto.
Qed.

Lemma read_files_unmasked fuel net files : forall run run',
  bins_hold unmasked (Sds.bins_of run) ->
  Sds.read_files fuel net files run = Some (Sds.Finished run') ->
  bins_hold unmasked (Sds.bins_of run').
Proof.
  induction files as [|f files IH]; intros run run' Hbins H; simpl in H.
  - inversion H; subst. exact Hbins.
  - destruct f as [st|].
    + destruct (Sds.fix_seedid st net) as [st'|e'] eqn:Ef; [|discriminate H].
      destruct (Sds.bin_stream fuel _ _) as [[bins|e'']|] eqn:Eb;
        try discriminate H.
      apply IH in H; [exact H|]. simpl.
      apply (bin_stream_unmasked _ _ _ _
               (stable_sort_Forall _ _ _ (fix_masked_arrays_unmasked _))
               Hbins Eb).
    + apply IH in H; [exact H|]. exact Hbins.
Qed.

(** X18: [fix_masked_arrays] runs on every file before its traces are split and
    binned (line 142): no segment of a bin that the first phase of
    [process] fills holds a masked sample.  The masked samples that make
    [st.write] refuse a day file are those that the merge of the second
    phase puts into gaps, after the only call of [fix_masked_arrays]. *)
Theorem binned_segments_hold_no_masked_samples fuel net files run key st :
  Sds.read_files fuel net files (Sds.mkRun [] 0 0 0 [] []) =
    Some (Sds.Finished run) ->
  In (key, st) (Sds.bins_of run) ->
  Sds.has_masked st = false.
Proof.
  intros H Hin. apply read_files_unmasked in H; [|constructor].
  unfold bins_hold in H. rewrite Forall_forall in H.
  specialize (H _ Hin). simpl in H. clear Hin.
  unfold Sds.has_masked.
  induction H as [|tr l Htr _ IH]; simpl; [reflexivity|].
  unfold unmasked in Htr. now rewrite Htr, IH.
Qed.

Lemma binned_segments_hold_no_masked_samples_witness :
  Sds.has_masked
    [mkTrace "NR" "ABC" "" "EHZ" midnight 1 [Val 1; NaN; Val 3]] = false.
Proof.
  apply (binned_segments_hold_no_masked_samples
           2 "NR"
           [Some [mkTrace "" "ABC" "" "" midnight 1 [Val 1; Masked; Val 3]]]
           (Sds.mkRun
              [(("NR", "ABC", "", "EHZ", 2012%Z, 96%Z),
                [mkTrace "NR" "ABC" "" "EHZ" midnight 1 [Val 1; NaN; Val 3]])]
              1 1 0 [] [])
           ("NR", "ABC", "", "EHZ", 2012%Z, 96%Z)).
  - vm_compute. reflexivity.
  - left. reflexivity.
Defined.

Lemma bins_append_permutation key seg : forall bins,
  Permutation (List.concat (map snd (Sds.bins_append key seg bins)))
              (List.concat (map snd bins) ++ [seg]).
Proof.
  induction bins as [|[k st] bins IH]; simpl; [reflexivity|].
  destruct k as [[[[[n1 s1] l1] c1] y1] j1].
  destruct key as [[[[[n2 s2] l2] c2] y2] j2].
  destruct (_ && _); simpl.
  - rewrite <- !app_assoc. apply Permutation_app_head.
    apply Permutation_app_comm.
  - rewrite IH, <- app_assoc. reflexivity.
Qed.

Lemma fold_bins_permutation segs : forall bins,
  Permutation
    (List.concat (map snd (fold_left
                        (fun b seg => Sds.bins_append (Sds.key_of seg) seg b)
                        segs bins)))
    (List.concat (map snd bins) ++ segs).
Proof.
  induction segs as [|seg segs IH]; intros bins; simpl.
  - now rewrite app_nil_r.
  - rewrite IH, bins_append_permutation, <- app_assoc. reflexivity.
Qed.

(** X17: The inner loops of the first phase (lines 145-154) put every part that
    the splitter returns for a trace of the file into a bin, once: the
    segments of the bins afterwards are those they held before and the
    parts of the traces of the file. *)
Theorem binning_keeps_every_part fuel st : forall bins bins',
  Sds.bin_stream fuel st bins = Some (Ok bins') ->
  exists parts,
    Forall2 (fun tr segs =>
               Sds.split_trace_at_midnights
                 fuel (set_location tr (strip (location tr))) = Some (Ok segs))
            st parts /\
    Permutation (List.concat (map snd bins'))
                (List.concat (map snd bins) ++ List.concat parts).
Proof.
  induction st as [|tr st IH]; intros bins bins' H; simpl in H.
  - inversion H; subst. exists []. split; [constructor|].
    simpl. now rewrite app_nil_r.
  - destruct (Sds.split_trace_at_midnights fuel _) as [[segs|e]|] eqn:Es;
      try discriminate H.
    apply IH in H as (parts & Hparts & Hperm).
    exists (segs :: parts). split; [constructor; assumption|].
    rewrite Hperm, fold_bins_permutation. simpl.
    now rewrite <- app_assoc.
Qed.

Lemma binning_keeps_every_part_witness :
  exists parts,
    Forall2 (fun tr segs =>
               Sds.split_trace_at_midnights
                 2 (set_location tr (strip (location tr))) = Some (Ok segs))
            [across_midnight] parts /\
    Permutation
      (List.concat (map snd
         [(("NR", "PIR", "", "EHZ", 2012%Z, 95%Z),
           [set_data across_midnight [Val 1; Val 2; Val 3]]);
          (("NR", "PIR", "", "EHZ", 2012%Z, 96%Z),
           [mkTrace "NR" "PIR" "" "EHZ" (midnight + (4 # 10))%Q 1
                    [Val 3; Val 4]])]))
      (List.concat (map snd (@nil (Sds.Key * Stream))) ++ List.concat parts).
Proof.
  apply (binning_keeps_every_part 2 [across_midnight] []).
  vm_compute. reflexivity.
Defined.
